(** * The generator network of generator.py, embedded in Rocq

    Tensors are modelled by their shape together with a total element
    function into the real numbers: arithmetic is the exact arithmetic of
    [R], where generator.py computes in float32.  What is proved of the
    values is therefore proved up to rounding; the one place where
    rounding decides, the sum that builds the composite image, is also
    given over binary32 numbers.  Every tensor of generator.py has
    rank four ([batch, height, width, channels]) except the squeezed noise
    vector, which has rank two.  Shape faults of the tensor engine and
    Python's run-time errors are values of [Res]. *)

From Stdlib Require Import Reals Lra Lia List ZArith Bool PeanoNat SpecFloat.
Import ListNotations.

Open Scope R_scope.

(** ** Errors *)

Inductive error : Type :=
| ShapeError
| IndexError
| UnboundLocalError.

Inductive Res (A : Type) : Type :=
| Ok (a : A)
| Raise (e : error).

Arguments Ok {A} a.
Arguments Raise {A} e.

Definition res_bind {A B : Type} (r : Res A) (f : A -> Res B) : Res B :=
  match r with
  | Ok a => f a
  | Raise e => Raise e
  end.

(** ** Finite sums of reals *)

Fixpoint sumR (n : nat) (f : nat -> R) : R :=
  match n with
  | O => 0
  | S m => sumR m f + f m
  end.

(** ** Tensors *)

Record Tensor : Type := mkTensor {
  dimB : nat;
  dimH : nat;
  dimW : nat;
  dimC : nat;
  val : nat -> nat -> nat -> nat -> R
}.

Definition shape (t : Tensor) : nat * nat * nat * nat :=
  (dimB t, dimH t, dimW t, dimC t).

Record Tensor2 : Type := mkTensor2 {
  rows : nat;
  cols : nat;
  val2 : nat -> nat -> R
}.

(** Two tensors are the same tensor when they have the same shape and the
    same element at every index inside that shape. *)
Definition teq (x y : Tensor) : Prop :=
  shape x = shape y /\
  forall b i j c, (b < dimB x)%nat -> (i < dimH x)%nat ->
                  (j < dimW x)%nat -> (c < dimC x)%nat ->
                  val x b i j c = val y b i j c.

Definition teq2 (x y : Tensor2) : Prop :=
  rows x = rows y /\ cols x = cols y /\
  forall b c, (b < rows x)%nat -> (c < cols x)%nat -> val2 x b c = val2 y b c.

(** ** TensorFlow primitives *)

Module tf.

(** tf.zeros(shape) *)
Definition zeros (s : nat * nat * nat * nat) : Tensor :=
  let '(b, h, w, c) := s in mkTensor b h w c (fun _ _ _ _ => 0).

(** Broadcasting of one axis: equal sizes, or one of them is 1. *)
Definition bdim (a b : nat) : Res nat :=
  if (a =? b)%nat then Ok a
  else if (a =? 1)%nat then Ok b
  else if (b =? 1)%nat then Ok a
  else Raise ShapeError.

(** The index read on an axis of size [d] when the result is at [i]. *)
Definition bidx (d i : nat) : nat := if (d =? 1)%nat then O else i.

Definition broadcast2 (f : R -> R -> R) (x y : Tensor) : Res Tensor :=
  res_bind (bdim (dimB x) (dimB y)) (fun b =>
  res_bind (bdim (dimH x) (dimH y)) (fun h =>
  res_bind (bdim (dimW x) (dimW y)) (fun w =>
  res_bind (bdim (dimC x) (dimC y)) (fun c =>
  Ok (mkTensor b h w c (fun n i j k =>
    f (val x (bidx (dimB x) n) (bidx (dimH x) i) (bidx (dimW x) j) (bidx (dimC x) k))
      (val y (bidx (dimB y) n) (bidx (dimH y) i) (bidx (dimW y) j) (bidx (dimC y) k)))))))).

(** x + y and x * y on tensors *)
Definition add : Tensor -> Tensor -> Res Tensor := broadcast2 Rplus.
Definition mul : Tensor -> Tensor -> Res Tensor := broadcast2 Rmult.

(** tf.expand_dims(x[:, :, :, k], axis=3) *)
Definition channel (x : Tensor) (k : nat) : Res Tensor :=
  if (k <? dimC x)%nat
  then Ok (mkTensor (dimB x) (dimH x) (dimW x) 1 (fun b i j _ => val x b i j k))
  else Raise IndexError.

(** z[:, 0, 0, :] *)
Definition squeeze_spatial (z : Tensor) : Res Tensor2 :=
  if ((0 <? dimH z) && (0 <? dimW z))%nat
  then Ok (mkTensor2 (dimB z) (dimC z) (fun b c => val z b O O c))
  else Raise IndexError.

(** tf.concat((x, y), axis=3) *)
Definition concat3 (x y : Tensor) : Res Tensor :=
  if ((dimB x =? dimB y) && (dimH x =? dimH y) && (dimW x =? dimW y))%nat
  then Ok (mkTensor (dimB x) (dimH x) (dimW x) (dimC x + dimC y)
             (fun b i j c => if (c <? dimC x)%nat then val x b i j c
                             else val y b i j (c - dimC x)))
  else Raise ShapeError.

(** tf.cast(x, tf.float32): the identity on real-valued tensors. *)
Definition cast_float32 (x : Tensor) : Tensor := x.

(** tf.reshape(x, (-1, h, w, c)): the elements are kept in row-major
    order; the batch axis is inferred, which fails when the known axes
    have no element or do not divide the number of elements. *)
Definition reshape (x : Tensor) (h w c : nat) : Res Tensor :=
  let total := (dimB x * dimH x * dimW x * dimC x)%nat in
  let known := (h * w * c)%nat in
  if (known =? 0)%nat then Raise ShapeError
  else if (total mod known =? 0)%nat
  then Ok (mkTensor (total / known) h w c (fun b i j k =>
         let f := (((b * h + i) * w + j) * c + k)%nat in
         let f1 := (f / dimC x)%nat in
         let f2 := (f1 / dimW x)%nat in
         val x (f2 / dimH x)%nat (f2 mod dimH x)%nat (f1 mod dimW x)%nat
               (f mod dimC x)%nat))
  else Raise ShapeError.

(** tf.keras.activations.tanh *)
Definition tanh (x : Tensor) : Tensor :=
  mkTensor (dimB x) (dimH x) (dimW x) (dimC x)
           (fun b i j c => Rtrigo_def.tanh (val x b i j c)).

End tf.

(** ** Keras layers *)

(** ReLU() *)
Definition ReLU (x : Tensor) : Tensor :=
  mkTensor (dimB x) (dimH x) (dimW x) (dimC x)
           (fun b i j c => Rmax 0 (val x b i j c)).

(** Softmax(axis=3): the normalized exponential over the channel axis. *)
Definition Softmax3 (x : Tensor) : Tensor :=
  mkTensor (dimB x) (dimH x) (dimW x) (dimC x)
           (fun b i j c =>
              exp (val x b i j c) / sumR (dimC x) (fun c' => exp (val x b i j c'))).

(** Dense(units): a kernel and a bias applied along the last axis.  Keras
    creates the kernel at the first call from the size of that axis, so the
    kernel is a total function and the sum ranges over the input's
    channels. *)
Record Dense : Type := mkDense {
  units : nat;
  dense_kernel : nat -> nat -> R;
  dense_bias : nat -> R
}.

Definition Dense_call (d : Dense) (x : Tensor) : Tensor :=
  mkTensor (dimB x) (dimH x) (dimW x) (units d)
           (fun b i j u =>
              sumR (dimC x) (fun c => val x b i j c * dense_kernel d c u)
              + dense_bias d u).

(** Conv2D(filters, kernel_size, padding='same'), stride one, with bias. *)
Record Conv2D : Type := mkConv2D {
  filters : nat;
  kernel_h : nat;
  kernel_w : nat;
  kernel : nat -> nat -> nat -> nat -> R;
  bias : nat -> R
}.

(** The element of [x] at row [i + di - ph] and column [j + dj - pw], zero
    in the padding. *)
Definition padded (x : Tensor) (b i j c di dj ph pw : nat) : R :=
  if ((ph <=? i + di) && (i + di - ph <? dimH x)
      && (pw <=? j + dj) && (j + dj - pw <? dimW x))%nat
  then val x b (i + di - ph)%nat (j + dj - pw)%nat c
  else 0.

Definition conv_val (k : nat -> nat -> nat -> nat -> R) (kh kw : nat)
           (x : Tensor) (b i j o : nat) : R :=
  sumR kh (fun di => sumR kw (fun dj => sumR (dimC x) (fun c =>
    padded x b i j c di dj ((kh - 1) / 2) ((kw - 1) / 2) * k di dj c o))).

Definition Conv2D_call (l : Conv2D) (x : Tensor) : Tensor :=
  mkTensor (dimB x) (dimH x) (dimW x) (filters l)
           (fun b i j o => conv_val (kernel l) (kernel_h l) (kernel_w l) x b i j o
                           + bias l o).

(** LayerNormalization(axis=(1, 2), center=False, scale=False): mean and
    variance are taken over the two spatial axes, separately for every
    batch element and channel; epsilon has the Keras default 0.001. *)
Definition epsilon : R := 1 / 1000.

Definition spatial_mean (f : nat -> nat -> R) (h w : nat) : R :=
  sumR h (fun i => sumR w (fun j => f i j)) / INR (h * w).

Definition moments_mean (x : Tensor) (b c : nat) : R :=
  spatial_mean (fun i j => val x b i j c) (dimH x) (dimW x).

Definition moments_var (x : Tensor) (b c : nat) : R :=
  spatial_mean (fun i j => (val x b i j c - moments_mean x b c) ^ 2)
               (dimH x) (dimW x).

Definition LayerNormalization12 (x : Tensor) : Tensor :=
  mkTensor (dimB x) (dimH x) (dimW x) (dimC x)
           (fun b i j c =>
              (val x b i j c - moments_mean x b c)
              / sqrt (moments_var x b c + epsilon)).

(** UpSampling2D(size=(2, 2), interpolation='bilinear'): the value at an
    output row is interpolated between two input rows, at half-pixel
    centres and clamped at the border, and likewise along the columns. *)
Definition lerp_lo (i : nat) : nat :=
  if Nat.even i then Nat.pred (i / 2) else (i / 2)%nat.

Definition lerp_hi (n i : nat) : nat :=
  if Nat.even i then (i / 2)%nat else Nat.min (i / 2 + 1) (n - 1).

Definition lerp_w (i : nat) : R :=
  if Nat.even i then (if (i =? 0)%nat then 0 else 3 / 4) else 1 / 4.

Definition UpSampling2D (x : Tensor) : Tensor :=
  mkTensor (dimB x) (2 * dimH x) (2 * dimW x) (dimC x)
           (fun b i j c =>
              let row (r : nat) :=
                (1 - lerp_w j) * val x b r (lerp_lo j) c
                + lerp_w j * val x b r (lerp_hi (dimW x) j) c in
              (1 - lerp_w i) * row (lerp_lo i)
              + lerp_w i * row (lerp_hi (dimH x) i)).

(** AveragePooling2D(pool_size=s, padding='same'): the stride is the pool
    size, the output has ceil(n / s) rows and columns, and each output
    averages the elements of its window that lie inside the input. *)
Definition pool_out (n s : nat) : nat := ((n + s - 1) / s)%nat.

Definition pool_pad (n s : nat) : nat := (((pool_out n s - 1) * s + s - n) / 2)%nat.

Definition in_window (n s o d : nat) : bool :=
  ((pool_pad n s <=? o * s + d) && (o * s + d - pool_pad n s <? n))%nat.

Definition AveragePooling2D (s : nat) (x : Tensor) : Res Tensor :=
  if (s =? 0)%nat then Raise ShapeError
  else Ok (mkTensor (dimB x) (pool_out (dimH x) s) (pool_out (dimW x) s) (dimC x)
         (fun b i j c =>
            sumR s (fun di => sumR s (fun dj =>
              if in_window (dimH x) s i di && in_window (dimW x) s j dj
              then val x b (i * s + di - pool_pad (dimH x) s)%nat
                         (j * s + dj - pool_pad (dimW x) s)%nat c
              else 0))
            / sumR s (fun di => sumR s (fun dj =>
              if in_window (dimH x) s i di && in_window (dimW x) s j dj
              then 1 else 0)))).

(** ** External collaborators

    generator.py imports the spectral-normalization wrapper, the
    self-attention module and the information-conservation network from
    other modules, and draws its noise from TensorFlow's global generator.
    They are taken as an interface.  The state a collaborating layer keeps
    between calls lives in a store of vectors addressed by the key of the
    layer; neither collaborator can reach the random generator. *)

Definition layer_key : Type := (Z * nat)%type.

Definition key_eqb (a b : layer_key) : bool :=
  (Z.eqb (fst a) (fst b) && Nat.eqb (snd a) (snd b))%bool.

Definition store : Type := layer_key -> nat -> R.

Definition store_set (s : store) (k : layer_key) (u : nat -> R) : store :=
  fun k' => if key_eqb k k' then u else s k'.

Class Collaborators : Type := {
  (** the state of tf.random and tf.random.normal(shape) *)
  rng_state : Type;
  random_normal : rng_state -> nat * nat * nat * nat ->
                  (nat -> nat -> nat -> nat -> R) * rng_state;
  (** one step of the singular-vector estimate of a wrapped convolution
      whose input has the given number of channels, and the estimate of the
      largest singular value read off it *)
  power_iteration : Conv2D -> nat -> (nat -> R) -> (nat -> R);
  sigma_estimate : Conv2D -> nat -> (nat -> R) -> R;
  (** SelfAttentionModule(output_channels) and its call(x, training) *)
  SelfAttentionModule : Type;
  SelfAttentionModule_init : nat -> SelfAttentionModule;
  SelfAttentionModule_call :
    SelfAttentionModule -> Tensor -> bool -> store -> Res Tensor * store;
  (** InformationConservationNetwork(n_classes, n_output) and its
      call(region, k, training) *)
  InformationConservationNetwork : Type;
  InformationConservationNetwork_init : nat -> nat -> InformationConservationNetwork;
  InformationConservationNetwork_call :
    InformationConservationNetwork -> Tensor -> Z -> bool ->
    store -> Res Tensor2 * store
}.

(** ** State and errors

    A computation reads and updates a state and either returns a value or
    raises; what it wrote before raising stays written. *)

Definition St (S A : Type) : Type := S -> Res A * S.

Definition ret {S A : Type} (a : A) : St S A := fun w => (Ok a, w).

Definition bind {S A B : Type} (m : St S A) (f : A -> St S B) : St S B :=
  fun w => match m w with
           | (Ok a, w') => f a w'
           | (Raise e, w') => (Raise e, w')
           end.

Definition lift {S A : Type} (r : Res A) : St S A := fun w => (r, w).

Notation "x <- c ;; k" := (bind c (fun x => k))
  (at level 61, c at next level, right associativity).

Notation "' p <- c ;; k" := (bind c (fun x => match x with p => k end))
  (at level 61, p pattern, c at next level, right associativity).

Section Forward.

Context {E : Collaborators}.

(** The state of a forward pass of one class generator. *)
Record world : Type := mkWorld {
  rng : rng_state;
  layers : store
}.

Definition M (A : Type) : Type := St world A.

Definition on_layers {A : Type} (f : store -> Res A * store) : M A :=
  fun w => let '(r, s) := f (layers w) in (r, mkWorld (rng w) s).

(** tf.random.normal([b, h, w, c]) *)
Definition tf_random_normal (s : nat * nat * nat * nat) : M Tensor :=
  fun w => let '(v, g) := random_normal (rng w) s in
           let '(b, h, wd, c) := s in
           (Ok (mkTensor b h wd c v), mkWorld g (layers w)).

(** ** Spectral normalization *)

Record SpectralNormalization : Type := mkSN {
  sn_layer : Conv2D;
  sn_key : layer_key
}.

Definition rescale (l : Conv2D) (r : R) : Conv2D :=
  mkConv2D (filters l) (kernel_h l) (kernel_w l)
           (fun di dj c o => kernel l di dj c o * r) (bias l).

(** Modelled from the spec: SpectralNormalization of network_components,
    which is not part of generator.py.  The wrapper rescales the kernel of
    its convolution by the estimate of the largest singular value before
    applying it, at every call; the singular-vector estimate is kept
    between calls and is updated once per call in training mode only. *)
Definition SpectralNormalization_call (sn : SpectralNormalization)
           (x : Tensor) (training : bool) : M Tensor :=
  fun w =>
    let u := layers w (sn_key sn) in
    if training
    then let u' := power_iteration (sn_layer sn) (dimC x) u in
         (Ok (Conv2D_call (rescale (sn_layer sn)
                                   (/ sigma_estimate (sn_layer sn) (dimC x) u')) x),
          mkWorld (rng w) (store_set (layers w) (sn_key sn) u'))
    else (Ok (Conv2D_call (rescale (sn_layer sn)
                                   (/ sigma_estimate (sn_layer sn) (dimC x) u)) x),
          w).

(** ** The values the initializers give to the weights

    The orthogonal initializer draws the first value of every kernel; later
    values come from the optimizer.  A layer is built from the values of
    its weights, whichever they are; [init_gain] only shapes the first
    draw and has no other use. *)
Record Weights : Type := mkWeights {
  conv_kernel : nat -> nat -> nat -> nat -> nat -> R;
  conv_bias : nat -> nat -> R;
  fc_kernel : nat -> nat -> R;
  fc_bias : nat -> R
}.

Definition conv_of (wt : Weights) (tag f kh kw : nat) : Conv2D :=
  mkConv2D f kh kw (conv_kernel wt tag) (conv_bias wt tag).

(** ** ConditionalBatchNormalization *)

Record ConditionalBatchNormalization : Type := mkCBN {
  gamma : Conv2D;
  beta : Conv2D
}.

Definition ConditionalBatchNormalization_init (wt : Weights) (tag : nat)
           (filters : nat) : ConditionalBatchNormalization :=
  mkCBN (conv_of wt tag filters 1 1) (conv_of wt (tag + 1) filters 1 1).

Definition ConditionalBatchNormalization_call
           (self : ConditionalBatchNormalization) (x z_k : Tensor) : Res Tensor :=
  let x := LayerNormalization12 x in
  let gamma_c := Conv2D_call (gamma self) z_k in
  let beta_c := Conv2D_call (beta self) z_k in
  res_bind (tf.mul gamma_c x) (fun gx => tf.add gx beta_c).

(** Keras runs a layer inside a call context that carries the training
    flag and hands the flag to [call] only when [call] declares a training
    argument.  ConditionalBatchNormalization.call(self, x, z_k) declares
    none, nor do the layers it owns. *)
Definition ConditionalBatchNormalization_in_context (training : bool)
           (self : ConditionalBatchNormalization) (x z_k : Tensor) : M Tensor :=
  lift (ConditionalBatchNormalization_call self x z_k).

(** ** InputBlock *)

Record InputBlock : Type := mkInputBlock {
  ib_output_channels : nat;
  ib_dense : Dense;
  ib_cbn : ConditionalBatchNormalization
}.

Definition InputBlock_init (wt : Weights) (tag : nat)
           (base_channels output_factor : nat) : InputBlock :=
  let output_channels := (base_channels * output_factor)%nat in
  mkInputBlock output_channels
               (mkDense (output_channels * 4 * 4) (fc_kernel wt) (fc_bias wt))
               (ConditionalBatchNormalization_init wt tag output_channels).

Definition InputBlock_call (self : InputBlock) (z_k : Tensor) : Res Tensor :=
  let x := Dense_call (ib_dense self) z_k in
  res_bind (tf.reshape x 4 4 (ib_output_channels self)) (fun x =>
  res_bind (ConditionalBatchNormalization_call (ib_cbn self) x z_k) (fun x =>
  Ok (ReLU x))).

(** ** ResidualUpsamplingBlock *)

Record ResidualUpsamplingBlock : Type := mkRUB {
  rub_output_channels : nat;
  rub_input_channels : nat;
  process_identity : SpectralNormalization;
  mask_pool : nat;
  cbn_1 : ConditionalBatchNormalization;
  conv_1 : SpectralNormalization;
  cbn_2 : ConditionalBatchNormalization;
  conv_2 : SpectralNormalization
}.

Definition ResidualUpsamplingBlock_init (wt : Weights) (owner : Z) (tag : nat)
           (base_channels input_factor output_factor mask_scale : nat)
  : ResidualUpsamplingBlock :=
  let output_channels := (base_channels * output_factor)%nat in
  let input_channels := (base_channels * input_factor)%nat in
  mkRUB output_channels input_channels
        (mkSN (conv_of wt tag output_channels 1 1) (owner, tag))
        mask_scale
        (ConditionalBatchNormalization_init wt (tag + 1) input_channels)
        (mkSN (conv_of wt (tag + 3) output_channels 3 3) (owner, tag + 3)%nat)
        (ConditionalBatchNormalization_init wt (tag + 4) output_channels)
        (mkSN (conv_of wt (tag + 6) output_channels 3 3) (owner, tag + 6)%nat).

(** [process_identity] is the Sequential of the up-sampling layer and the
    wrapped 1x1 convolution; called without a training argument, it runs
    under the flag of the call context, which is the one of the block. *)
Definition ResidualUpsamplingBlock_call (self : ResidualUpsamplingBlock)
           (x z_k masks : Tensor) (training : bool) : M Tensor :=
  identity <- SpectralNormalization_call (process_identity self)
                                         (UpSampling2D x) training ;;
  x <- lift (ConditionalBatchNormalization_call (cbn_1 self) x z_k) ;;
  let x := ReLU x in
  masks <- lift (AveragePooling2D (mask_pool self) masks) ;;
  let masks := tf.cast_float32 masks in
  x <- lift (tf.concat3 x masks) ;;
  let x := UpSampling2D x in
  x <- SpectralNormalization_call (conv_1 self) x training ;;
  x <- lift (ConditionalBatchNormalization_call (cbn_2 self) x z_k) ;;
  let x := ReLU x in
  x <- SpectralNormalization_call (conv_2 self) x training ;;
  lift (tf.add x identity).

(** The block as the specification words it: the identity path, the main
    path, and their sum. *)
Definition identity_path (self : ResidualUpsamplingBlock)
           (x : Tensor) (training : bool) : M Tensor :=
  let upsampled := UpSampling2D x in
  SpectralNormalization_call (process_identity self) upsampled training.

Definition main_path (self : ResidualUpsamplingBlock)
           (x z_k masks : Tensor) (training : bool) : M Tensor :=
  normalized <- lift (ConditionalBatchNormalization_call (cbn_1 self) x z_k) ;;
  pooled <- lift (AveragePooling2D (mask_pool self) masks) ;;
  fused <- lift (tf.concat3 (ReLU normalized) pooled) ;;
  convolved <- SpectralNormalization_call (conv_1 self) (UpSampling2D fused) training ;;
  normalized <- lift (ConditionalBatchNormalization_call (cbn_2 self) convolved z_k) ;;
  SpectralNormalization_call (conv_2 self) (ReLU normalized) training.

Definition main_plus_identity (self : ResidualUpsamplingBlock)
           (x z_k masks : Tensor) (training : bool) : M Tensor :=
  identity <- identity_path self x training ;;
  main <- main_path self x z_k masks training ;;
  lift (tf.add main identity).

(** ** OutputBlock *)

Record OutputBlock : Type := mkOutputBlock {
  ob_output_channels : nat;
  ob_cbn : ConditionalBatchNormalization;
  ob_conv : SpectralNormalization
}.

Definition OutputBlock_init (wt : Weights) (owner : Z) (tag : nat)
           (base_channels output_factor : nat) : OutputBlock :=
  let output_channels := (base_channels * output_factor)%nat in
  mkOutputBlock output_channels
                (ConditionalBatchNormalization_init wt tag output_channels)
                (mkSN (conv_of wt (tag + 2) 3 3 3) (owner, tag + 2)%nat).

Definition OutputBlock_call (self : OutputBlock)
           (x z_k masks : Tensor) (training : bool) : M Tensor :=
  x <- lift (ConditionalBatchNormalization_call (ob_cbn self) x z_k) ;;
  let x := ReLU x in
  x <- lift (tf.concat3 x (tf.cast_float32 masks)) ;;
  x <- SpectralNormalization_call (ob_conv self) x training ;;
  ret (tf.tanh x).

(** ** ClassGenerator *)

Record ClassGenerator : Type := mkClassGenerator {
  self_k : Z;
  base_channels : nat;
  block_1 : InputBlock;
  up_res_block_1 : ResidualUpsamplingBlock;
  up_res_block_2 : ResidualUpsamplingBlock;
  up_res_block_3 : ResidualUpsamplingBlock;
  up_res_block_4 : ResidualUpsamplingBlock;
  block_3 : SelfAttentionModule;
  block_4 : ResidualUpsamplingBlock;
  block_5 : OutputBlock
}.

Definition ClassGenerator_init (wt : Weights) (k : Z) (base_channels : nat)
  : ClassGenerator :=
  mkClassGenerator k base_channels
    (InputBlock_init wt 0 base_channels 16)
    (ResidualUpsamplingBlock_init wt k 2 base_channels 16 16 32)
    (ResidualUpsamplingBlock_init wt k 9 base_channels 16 8 16)
    (ResidualUpsamplingBlock_init wt k 16 base_channels 8 4 8)
    (ResidualUpsamplingBlock_init wt k 23 base_channels 4 2 4)
    (SelfAttentionModule_init (2 * base_channels))
    (ResidualUpsamplingBlock_init wt k 30 base_channels 2 1 2)
    (OutputBlock_init wt k 37 base_channels 1).

(** The region is redrawn by the eight blocks in turn, lines 233 to 240
    of generator.py. *)
Definition redraw_region (self : ClassGenerator)
           (z_k batch_masks_k : Tensor) (training : bool) : M Tensor :=
  x <- lift (InputBlock_call (block_1 self) z_k) ;;
  x <- ResidualUpsamplingBlock_call (up_res_block_1 self) x z_k batch_masks_k training ;;
  x <- ResidualUpsamplingBlock_call (up_res_block_2 self) x z_k batch_masks_k training ;;
  x <- ResidualUpsamplingBlock_call (up_res_block_3 self) x z_k batch_masks_k training ;;
  x <- ResidualUpsamplingBlock_call (up_res_block_4 self) x z_k batch_masks_k training ;;
  x <- on_layers (SelfAttentionModule_call (block_3 self) x training) ;;
  x <- ResidualUpsamplingBlock_call (block_4 self) x z_k batch_masks_k training ;;
  OutputBlock_call (block_5 self) x z_k batch_masks_k training.

(** The local variables the loop assigns; [batch_region_k_fake] is unbound
    until the branch of the generator's own class has run. *)
Record locals : Type := mkLocals {
  batch_images_fake : Tensor;
  batch_region_k_fake : option Tensor
}.

(** One turn of the loop over the regions.  [redraw] is the path that
    redraws the sampled region. *)
Definition loop_body (redraw : Tensor -> Tensor -> bool -> M Tensor)
           (k_self : Z) (batch_images_real batch_masks_logits z_k : Tensor)
           (training : bool) (k : nat) (l : locals) : M locals :=
  batch_masks_k <- lift (tf.channel (Softmax3 batch_masks_logits) k) ;;
  if (Z.of_nat k =? k_self)%Z
  then
    region <- redraw z_k batch_masks_k training ;;
    region <- lift (tf.mul region batch_masks_k) ;;
    fake <- lift (tf.add (batch_images_fake l) region) ;;
    ret (mkLocals fake (Some region))
  else
    other <- lift (tf.mul batch_images_real batch_masks_k) ;;
    fake <- lift (tf.add (batch_images_fake l) other) ;;
    ret (mkLocals fake (batch_region_k_fake l)).

Fixpoint for_range {S L : Type} (ks : list nat) (body : nat -> L -> St S L)
         (l : L) : St S L :=
  match ks with
  | [] => ret l
  | k :: ks' => l' <- body k l ;; for_range ks' body l'
  end.

Definition ClassGenerator_call_with
           (redraw : Tensor -> Tensor -> bool -> M Tensor) (k_self : Z)
           (batch_images_real batch_masks_logits : Tensor) (n_input : nat)
           (training : bool) : M (Tensor * Tensor * Tensor2) :=
  let batch_size := dimB batch_masks_logits in
  let n_regions := dimC batch_masks_logits in
  z_k <- tf_random_normal (batch_size, 1, 1, n_input)%nat ;;
  l <- for_range (seq 0 n_regions)
                 (loop_body redraw k_self batch_images_real batch_masks_logits
                            z_k training)
                 (mkLocals (tf.zeros (shape batch_images_real)) None) ;;
  match batch_region_k_fake l with
  | None => lift (Raise UnboundLocalError)
  | Some region =>
      z <- lift (tf.squeeze_spatial z_k) ;;
      ret (batch_images_fake l, region, z)
  end.

Definition ClassGenerator_call (self : ClassGenerator) :
  Tensor -> Tensor -> nat -> bool -> M (Tensor * Tensor * Tensor2) :=
  ClassGenerator_call_with (redraw_region self) (self_k self).

(** ** Generator *)

Record Generator : Type := mkGenerator {
  n_classes : nat;
  n_input : nat;
  class_generators : list ClassGenerator;
  information_network : InformationConservationNetwork
}.

Definition Generator_init (wts : nat -> Weights) (n_classes n_input base_channels : nat)
  : Generator :=
  mkGenerator n_classes n_input
    (map (fun k => ClassGenerator_init (wts k) (Z.of_nat k) base_channels)
         (seq 0 n_classes))
    (InformationConservationNetwork_init n_classes n_input).

(** l[k] on a Python list: a negative index counts from the end. *)
Definition list_index {A : Type} (l : list A) (k : Z) : Res A :=
  let n := Z.of_nat (length l) in
  let i := if (k <? 0)%Z then (k + n)%Z else k in
  if ((0 <=? i) && (i <? n))%Z
  then match nth_error l (Z.to_nat i) with
       | Some a => Ok a
       | None => Raise IndexError
       end
  else Raise IndexError.

(** The state of a call of the generator: the state of the forward pass
    and the record of the calls made to the information-conservation
    network, each with its three arguments. *)
Record gen_world : Type := mkGenWorld {
  fwd : world;
  info_calls : list (Tensor * Z * bool)
}.

Definition GM (A : Type) : Type := St gen_world A.

Definition forward {A : Type} (m : M A) : GM A :=
  fun g => let '(r, w) := m (fwd g) in (r, mkGenWorld w (info_calls g)).

Definition information_network_call (net : InformationConservationNetwork)
           (region : Tensor) (k : Z) (training : bool) : GM Tensor2 :=
  fun g =>
    let '(r, s) := InformationConservationNetwork_call net region k training
                                                        (layers (fwd g)) in
    (r, mkGenWorld (mkWorld (rng (fwd g)) s)
                   (info_calls g ++ [(region, k, training)])).

Inductive GeneratorResult : Type :=
| FakeOnly (batch_images_fake : Tensor)
| FakeAndNoise (batch_images_fake : Tensor) (batch_z_k batch_z_k_hat : Tensor2).

Definition Generator_call (self : Generator)
           (batch_images_real batch_masks_logits : Tensor) (k : Z)
           (update_generator training : bool) : GM GeneratorResult :=
  cg <- lift (list_index (class_generators self) k) ;;
  '(batch_images_fake, batch_region_fake, batch_z_k) <-
     forward (ClassGenerator_call cg batch_images_real batch_masks_logits
                                  (n_input self) training) ;;
  batch_z_k_hat <-
     (if update_generator
      then z <- information_network_call (information_network self)
                                         batch_region_fake k training ;;
           ret (Some z)
      else ret None) ;;
  if update_generator
  then match batch_z_k_hat with
       | Some z_hat => ret (FakeAndNoise batch_images_fake batch_z_k z_hat)
       | None => lift (Raise UnboundLocalError)
       end
  else ret (FakeOnly batch_images_fake).

End Forward.

(** ** Batch elements

    [slice_agree x x' b]: the tensors [x] and [x'] hold the same values in
    batch element [b]. *)
Definition slice_agree (x x' : Tensor) (b : nat) : Prop :=
  forall i j c, (i < dimH x)%nat -> (j < dimW x)%nat -> (c < dimC x)%nat ->
                val x b i j c = val x' b i j c.

(** ** Reshaping

    [reshape_fits n h w c]: [n] elements can be laid out as a whole number
    of blocks of shape [h, w, c]. *)
Definition reshape_fits (n h w c : nat) : bool :=
  (negb (h * w * c =? 0) && (n mod (h * w * c) =? 0))%nat.

(** ** The mask and the composite of a region

    [region_mask logits k] is the value [batch_masks_k] takes in turn [k]
    of the loop, and [composite_val own raw real logits m] the element the
    accumulator holds after [m] turns, when [raw] is the redrawn region
    and [own] tells the generator's class: the sum starts from zero and
    adds the contributions in the order of the loop. *)
Definition region_mask (logits : Tensor) (k : nat) : Tensor :=
  mkTensor (dimB logits) (dimH logits) (dimW logits) 1
           (fun b i j _ => val (Softmax3 logits) b i j k).

Definition composite_val (own : nat -> bool) (raw real logits : Tensor) (m : nat)
           (b i j c : nat) : R :=
  sumR m (fun k => (if own k then val raw b i j c else val real b i j c)
                   * val (Softmax3 logits) b i j k).

(** ** The noise draw

    The noise tensor tf.random.normal([B, 1, 1, n_input]) returns in state
    [w], and the state it leaves. *)
Definition noise_of {E : Collaborators} (w : world) (B n_input : nat) : Tensor :=
  mkTensor B 1 1 n_input (fst (random_normal (rng w) (B, 1, 1, n_input)%nat)).

Definition after_draw {E : Collaborators} (w : world) (B n_input : nat) : world :=
  mkWorld (snd (random_normal (rng w) (B, 1, 1, n_input)%nat)) (layers w).

Definition squeezed (z_k : Tensor) : Tensor2 :=
  mkTensor2 (dimB z_k) (dimC z_k) (fun b c => val z_k b O O c).

Definition own_class (k_self : Z) (k : nat) : bool := (Z.of_nat k =? k_self)%Z.

(** ** Computations that keep to the layers

    [keeps_rng m]: the computation [m] leaves the random generator where it
    was.  [inference_pure m]: [m] leaves the whole state where it was, and
    its result is fixed by the state of the layers. *)
Definition keeps_rng {E : Collaborators} {A : Type} (m : M A) : Prop :=
  forall w, rng (snd (m w)) = rng w.

Definition inference_pure {E : Collaborators} {A : Type} (m : M A) : Prop :=
  forall w, snd (m w) = w /\
            forall w', layers w' = layers w -> fst (m w') = fst (m w).

(** ** What is asked of the self-attention module

    The module is not part of generator.py.  Where a property needs it,
    the attention is asked to return a feature map of the shape of its
    input, and to leave the state of the layers alone in inference
    mode. *)
Definition attention_keeps_shape (E : Collaborators) : Prop :=
  forall (a : SelfAttentionModule) (x : Tensor) (training : bool) (s : store),
  exists y s', SelfAttentionModule_call a x training s = (Ok y, s') /\
               shape y = shape x.

Definition attention_inference_pure (E : Collaborators) : Prop :=
  forall (a : SelfAttentionModule) (x : Tensor) (s : store),
    snd (SelfAttentionModule_call a x false s) = s.

(** ** A plain instance of the collaborators

    The random generator counts its draws and returns half the count as
    noise, the singular-value estimate is one and its vector moves by one at each
    training call, attention returns its input, and the information
    network returns the first channel of the first pixel of the region. *)

Definition plain_collaborators : Collaborators := {|
  rng_state := nat;
  random_normal := fun g _ => (fun _ _ _ _ => INR (Nat.div2 g), S g);
  power_iteration := fun _ _ u i => u i + 1;
  sigma_estimate := fun _ _ _ => 1;
  SelfAttentionModule := unit;
  SelfAttentionModule_init := fun _ => tt;
  SelfAttentionModule_call := fun _ x _ s => (Ok x, s);
  InformationConservationNetwork := unit;
  InformationConservationNetwork_init := fun _ _ => tt;
  InformationConservationNetwork_call :=
    fun _ region _ _ s =>
      (Ok (mkTensor2 (dimB region) 1 (fun b _ => val region b O O O)), s)
|}.

(** Constant tensors and constant weights, for examples. *)
Definition full (s : nat * nat * nat * nat) (r : R) : Tensor :=
  let '(b, h, w, c) := s in mkTensor b h w c (fun _ _ _ _ => r).

(** A batch of two elements, constant within each. *)
Definition two_elements (h w c : nat) (r0 r1 : R) : Tensor :=
  mkTensor 2 h w c (fun b _ _ _ => if (b =? 0)%nat then r0 else r1).

Definition constant_weights (kv bv : R) : Weights :=
  mkWeights (fun _ _ _ _ _ => kv) (fun _ _ => bv) (fun _ _ => kv) (fun _ => bv).

Definition empty_store : store := fun _ _ => 0.

Definition example_world : @world plain_collaborators :=
  @mkWorld plain_collaborators 0%nat empty_store.

Definition example_gen_world : @gen_world plain_collaborators :=
  @mkGenWorld plain_collaborators example_world [].

(** An image of constant value 5 and logits that give both classes the
    same weight. *)
Definition example_real : Tensor := full (1, 128, 128, 3)%nat 5.
Definition example_logits : Tensor := full (1, 128, 128, 2)%nat 0.

(** The same on a 2x2 image, and a second state that draws the same
    noise as [example_world]. *)
Definition small_real : Tensor := full (1, 2, 2, 3)%nat 7.
Definition small_logits : Tensor := full (1, 2, 2, 2)%nat 0.

Definition example_world' : @world plain_collaborators :=
  @mkWorld plain_collaborators 1%nat empty_store.

(** ** The script at the end of generator.py

    The script builds the mask logits from a label image and rescales the
    images it shows.  A numpy array is taken by the list of its elements
    where only reductions and elementwise arithmetic are applied to it. *)

(** np.min(a) and np.max(a); numpy raises on an array without
    elements. *)
Definition np_min (a : list R) : option R :=
  match a with
  | [] => None
  | v :: a' => Some (fold_left Rmin a' v)
  end.

Definition np_max (a : list R) : option R :=
  match a with
  | [] => None
  | v :: a' => Some (fold_left Rmax a' v)
  end.

(** image -= np.min(image); image /= (np.max(image) - np.min(image)),
    lines 352-353, 356-357 and 360-361. *)
Definition rescale_for_display (image : list R) : option (list R) :=
  match np_min image with
  | None => None
  | Some lo =>
      let image := map (fun v => v - lo) image in
      match np_max image, np_min image with
      | Some hi, Some lo' => Some (map (fun v => v / (hi - lo')) image)
      | _, _ => None
      end
  end.




(** ** Single precision

    generator.py computes in float32, and the tensors above hold exact
    reals.  To tell what rounding does to the composite, the loop of
    ClassGenerator.call is given a second time over IEEE-754 binary32
    numbers: 24 bits of precision, round to nearest, ties to even, with
    the operations of the Standard Library's [SpecFloat].  The shapes are
    those the loop over the reals has checked: the image, the redrawn
    region and the logits agree on batch, height and width. *)
Module float32.

Definition prec : Z := 24.
Definition emax : Z := 128.

Definition zero : spec_float := S754_zero false.
Definition one : spec_float := SFone prec emax.
Definition of_Z (n : Z) : spec_float := binary_normalize prec emax n 0 false.

Definition add : spec_float -> spec_float -> spec_float := SFadd prec emax.
Definition mul : spec_float -> spec_float -> spec_float := SFmul prec emax.
Definition div : spec_float -> spec_float -> spec_float := SFdiv prec emax.

End float32.

Record Tensor32 : Type := mkTensor32 {
  dimB32 : nat;
  dimH32 : nat;
  dimW32 : nat;
  dimC32 : nat;
  val32 : nat -> nat -> nat -> nat -> spec_float
}.

Definition shape32 (t : Tensor32) : nat * nat * nat * nat :=
  (dimB32 t, dimH32 t, dimW32 t, dimC32 t).

Fixpoint sum32 (n : nat) (f : nat -> spec_float) : spec_float :=
  match n with
  | O => float32.zero
  | S m => float32.add (sum32 m f) (f m)
  end.

Module tf32.

(** tf.zeros(shape) *)
Definition zeros (s : nat * nat * nat * nat) : Tensor32 :=
  let '(b, h, w, c) := s in mkTensor32 b h w c (fun _ _ _ _ => float32.zero).

(** x + y on tensors of one shape *)
Definition add (x y : Tensor32) : Tensor32 :=
  mkTensor32 (dimB32 x) (dimH32 x) (dimW32 x) (dimC32 x)
             (fun b i j c => float32.add (val32 x b i j c) (val32 y b i j c)).

(** x * m, the one channel of the mask [m] broadcast along the channels
    of [x] *)
Definition mul (x m : Tensor32) : Tensor32 :=
  mkTensor32 (dimB32 x) (dimH32 x) (dimW32 x) (dimC32 x)
             (fun b i j c => float32.mul (val32 x b i j c) (val32 m b i j O)).

(** tf.expand_dims(x[:, :, :, k], axis=3) *)
Definition channel (x : Tensor32) (k : nat) : Tensor32 :=
  mkTensor32 (dimB32 x) (dimH32 x) (dimW32 x) 1 (fun b i j _ => val32 x b i j k).

End tf32.

(** Softmax(axis=3) in single precision.  TensorFlow's exponential is not
    part of the repository and is the function [exp32] here.  The kernel
    subtracts the largest logit of the pixel before it exponentiates;
    where all the logits of a pixel are 0 that subtraction leaves them as
    they are. *)
Definition Softmax3_32 (exp32 : spec_float -> spec_float) (x : Tensor32) : Tensor32 :=
  mkTensor32 (dimB32 x) (dimH32 x) (dimW32 x) (dimC32 x)
             (fun b i j c =>
                float32.div (exp32 (val32 x b i j c))
                            (sum32 (dimC32 x) (fun c' => exp32 (val32 x b i j c')))).

(** One turn of the loop over the regions, and the loop: the accumulator
    [batch_images_fake] after the last turn.  [redraw] gives the output of
    the output block from the mask of the generator's class. *)
Definition loop_body32 (exp32 : spec_float -> spec_float)
           (redraw : Tensor32 -> Tensor32) (k_self : Z)
           (batch_images_real batch_masks_logits : Tensor32)
           (batch_images_fake : Tensor32) (k : nat) : Tensor32 :=
  let batch_masks_k := tf32.channel (Softmax3_32 exp32 batch_masks_logits) k in
  if (Z.of_nat k =? k_self)%Z
  then
    let batch_region_k_fake := tf32.mul (redraw batch_masks_k) batch_masks_k in
    tf32.add batch_images_fake batch_region_k_fake
  else
    tf32.add batch_images_fake (tf32.mul batch_images_real batch_masks_k).

Definition composite32 (exp32 : spec_float -> spec_float)
           (redraw : Tensor32 -> Tensor32) (k_self : Z)
           (batch_images_real batch_masks_logits : Tensor32) : Tensor32 :=
  let n_regions := dimC32 batch_masks_logits in
  fold_left (loop_body32 exp32 redraw k_self batch_images_real batch_masks_logits)
            (seq 0 n_regions)
            (tf32.zeros (shape32 batch_images_real)).

(** One pixel of one channel holding the float32 nearest to 1/10, and
    three logits 0 for it. *)
Definition tenth32 : spec_float := float32.div float32.one (float32.of_Z 10).

Definition tenth_image : Tensor32 := mkTensor32 1 1 1 1 (fun _ _ _ _ => tenth32).

Definition level_logits : Tensor32 := mkTensor32 1 1 1 3 (fun _ _ _ _ => float32.zero).

(** * Properties *)

(** ** Sums *)

Lemma sumR_ext (n : nat) (f g : nat -> R) :
  (forall i, (i < n)%nat -> f i = g i) -> sumR n f = sumR n g.
Proof.
  induction n as [|n IH]; intros H; simpl; [reflexivity|].
  rewrite IH by (intros; apply H; lia).
  rewrite H by lia. reflexivity.
Qed.

Lemma sumR_zero (n : nat) (f : nat -> R) :
  (forall i, (i < n)%nat -> f i = 0) -> sumR n f = 0.
Proof.
  induction n as [|n IH]; intros H; simpl; [reflexivity|].
  rewrite IH by (intros; apply H; lia).
  rewrite H by lia. lra.
Qed.

Lemma sumR_nonneg (n : nat) (f : nat -> R) :
  (forall i, (i < n)%nat -> 0 <= f i) -> 0 <= sumR n f.
Proof.
  induction n as [|n IH]; intros H; simpl; [lra|].
  assert (0 <= sumR n f) by (apply IH; intros; apply H; lia).
  assert (0 <= f n) by (apply H; lia). lra.
Qed.

Lemma sumR_term_le (n : nat) (f : nat -> R) (k : nat) :
  (forall i, (i < n)%nat -> 0 <= f i) -> (k < n)%nat -> f k <= sumR n f.
Proof.
  induction n as [|n IH]; intros H Hk; [lia|]. simpl.
  assert (0 <= f n) by (apply H; lia).
  assert (0 <= sumR n f) by (apply sumR_nonneg; intros; apply H; lia).
  destruct (Nat.eq_dec k n) as [->|Hne]; [lra|].
  assert (f k <= sumR n f) by (apply IH; [intros; apply H|]; lia). lra.
Qed.

Lemma sumR_scal_r (n : nat) (f : nat -> R) (r : R) :
  sumR n (fun i => f i * r) = sumR n f * r.
Proof.
  induction n as [|n IH]; simpl; [lra|]. rewrite IH. lra.
Qed.

Lemma sumR_exp_pos (n : nat) (f : nat -> R) :
  (0 < n)%nat -> 0 < sumR n (fun c => exp (f c)).
Proof.
  intros Hn. destruct n as [|n]; [lia|]. simpl.
  assert (0 <= sumR n (fun c => exp (f c)))
    by (apply sumR_nonneg; intros; left; apply exp_pos).
  pose proof (exp_pos (f n)). lra.
Qed.

(** ** The normalized exponential *)

Lemma Softmax3_range (x : Tensor) (b i j c : nat) :
  (c < dimC x)%nat -> 0 <= val (Softmax3 x) b i j c <= 1.
Proof.
  intros Hc. simpl.
  set (s := sumR (dimC x) (fun c' => exp (val x b i j c'))).
  assert (Hs : 0 < s) by (apply sumR_exp_pos; lia).
  assert (Hle : exp (val x b i j c) <= s).
  { apply (sumR_term_le (dimC x) (fun c' => exp (val x b i j c')) c); [|assumption].
    intros; left; apply exp_pos. }
  pose proof (exp_pos (val x b i j c)) as Hp.
  split.
  - apply Rmult_le_pos; [lra|]. left. apply Rinv_0_lt_compat. exact Hs.
  - apply (Rmult_le_reg_r s); [exact Hs|].
    unfold Rdiv. rewrite Rmult_assoc, Rinv_l by lra. lra.
Qed.

Lemma Softmax3_sum (x : Tensor) (b i j : nat) :
  (0 < dimC x)%nat ->
  sumR (dimC x) (fun c => val (Softmax3 x) b i j c) = 1.
Proof.
  intros Hn. simpl. unfold Rdiv.
  rewrite sumR_scal_r.
  apply Rinv_r.
  pose proof (sumR_exp_pos (dimC x) (fun c => val x b i j c) Hn). lra.
Qed.

(** C6: inside ClassGenerator.call the mask of region [k] is channel [k]
    of the normalized exponential of the logits over the class axis; at
    every pixel each probability lies in [0, 1] and the probabilities of
    all the classes sum to one. *)
Theorem C6_mask_probabilities (batch_masks_logits : Tensor) (k b i j : nat) :
  (k < dimC batch_masks_logits)%nat ->
  exists batch_masks_k,
    tf.channel (Softmax3 batch_masks_logits) k = Ok batch_masks_k /\
    shape batch_masks_k
    = (dimB batch_masks_logits, dimH batch_masks_logits, dimW batch_masks_logits, 1%nat) /\
    val batch_masks_k b i j 0 = val (Softmax3 batch_masks_logits) b i j k /\
    0 <= val batch_masks_k b i j 0 <= 1 /\
    (forall c, (c < dimC batch_masks_logits)%nat ->
               0 <= val (Softmax3 batch_masks_logits) b i j c <= 1) /\
    sumR (dimC batch_masks_logits)
         (fun c => val (Softmax3 batch_masks_logits) b i j c) = 1.
Proof.
  intros Hk.
  unfold tf.channel.
  replace (k <? dimC (Softmax3 batch_masks_logits))%nat with true
    by (symmetry; apply Nat.ltb_lt; exact Hk).
  eexists. split; [reflexivity|].
  split; [reflexivity|].
  split; [reflexivity|].
  split; [apply (Softmax3_range batch_masks_logits b i j k Hk)|].
  split; [intros c Hc; apply Softmax3_range; exact Hc|].
  apply Softmax3_sum. lia.
Qed.

Lemma C6_mask_probabilities_witness :
  exists batch_masks_k,
    tf.channel (Softmax3 (full (1, 2, 2, 3)%nat 5)) 1 = Ok batch_masks_k /\
    shape batch_masks_k = (1, 2, 2, 1)%nat /\
    val batch_masks_k 0 1 1 0 = val (Softmax3 (full (1, 2, 2, 3)%nat 5)) 0 1 1 1 /\
    0 <= val batch_masks_k 0 1 1 0 <= 1 /\
    (forall c, (c < 3)%nat ->
               0 <= val (Softmax3 (full (1, 2, 2, 3)%nat 5)) 0 1 1 c <= 1) /\
    sumR 3 (fun c => val (Softmax3 (full (1, 2, 2, 3)%nat 5)) 0 1 1 c) = 1.
Proof.
  apply (C6_mask_probabilities (full (1, 2, 2, 3)%nat 5) 1 0 1 1).
  simpl. lia.
Defined.

(** ** Broadcasting *)

Lemma bdim_inv (a a' d : nat) :
  tf.bdim a a' = Ok d ->
  (a = a' /\ d = a) \/ (a = 1%nat /\ d = a') \/ (a' = 1%nat /\ d = a).
Proof.
  unfold tf.bdim.
  destruct (Nat.eqb_spec a a'); [intros [= <-]; auto|].
  destruct (Nat.eqb_spec a 1); [intros [= <-]; auto|].
  destruct (Nat.eqb_spec a' 1); [intros [= <-]; auto|].
  discriminate.
Qed.

Lemma bdim_same (a : nat) : tf.bdim a a = Ok a.
Proof. unfold tf.bdim. rewrite Nat.eqb_refl. reflexivity. Qed.

Lemma bdim_one_r (a : nat) : tf.bdim a 1 = Ok a.
Proof.
  unfold tf.bdim. destruct (Nat.eqb_spec a 1) as [->|]; reflexivity.
Qed.

Lemma bdim_one_l (a : nat) : tf.bdim 1 a = Ok a.
Proof.
  unfold tf.bdim. destruct (Nat.eqb_spec 1 a) as [<-|]; reflexivity.
Qed.

Lemma bidx_lt (a a' d i : nat) :
  tf.bdim a a' = Ok d -> (i < d)%nat ->
  (tf.bidx a i < a)%nat /\ (tf.bidx a' i < a')%nat.
Proof.
  intros H Hi. unfold tf.bidx.
  destruct (bdim_inv _ _ _ H) as [[-> ->]|[[-> ->]|[-> ->]]];
    repeat match goal with |- context [(?n =? 1)%nat] =>
                           destruct (Nat.eqb_spec n 1) end; lia.
Qed.

Lemma bidx_bidx (a d i : nat) :
  (i < d)%nat -> tf.bidx a (tf.bidx d i) = tf.bidx a i.
Proof.
  intros Hi. unfold tf.bidx at 2.
  destruct (Nat.eqb_spec d 1); [|reflexivity].
  replace i with O by lia. reflexivity.
Qed.

Lemma bdim_absorb (a c d1 d2 : nat) :
  tf.bdim a c = Ok d1 -> tf.bdim d1 a = Ok d2 -> d2 = d1.
Proof.
  intros H1 H2.
  destruct (bdim_inv _ _ _ H1) as [[? ?]|[[? ?]|[? ?]]];
    destruct (bdim_inv _ _ _ H2) as [[? ?]|[[? ?]|[? ?]]]; lia.
Qed.

Lemma bidx_full (a i : nat) : (i < a)%nat -> tf.bidx a i = i.
Proof.
  intros Hi. unfold tf.bidx. destruct (Nat.eqb_spec a 1); lia.
Qed.

Lemma broadcast2_inv (f : R -> R -> R) (x y r : Tensor) :
  tf.broadcast2 f x y = Ok r ->
  tf.bdim (dimB x) (dimB y) = Ok (dimB r) /\
  tf.bdim (dimH x) (dimH y) = Ok (dimH r) /\
  tf.bdim (dimW x) (dimW y) = Ok (dimW r) /\
  tf.bdim (dimC x) (dimC y) = Ok (dimC r) /\
  val r = fun n i j k =>
      f (val x (tf.bidx (dimB x) n) (tf.bidx (dimH x) i)
               (tf.bidx (dimW x) j) (tf.bidx (dimC x) k))
        (val y (tf.bidx (dimB y) n) (tf.bidx (dimH y) i)
               (tf.bidx (dimW y) j) (tf.bidx (dimC y) k)).
Proof.
  unfold tf.broadcast2.
  destruct (tf.bdim (dimB x) (dimB y)); [|discriminate].
  destruct (tf.bdim (dimH x) (dimH y)); [|discriminate].
  destruct (tf.bdim (dimW x) (dimW y)); [|discriminate].
  destruct (tf.bdim (dimC x) (dimC y)); [|discriminate].
  simpl. intros [= <-]. simpl. auto.
Qed.

(** Whether a broadcast succeeds, and the shape it gives, is decided by
    the shapes of the operands. *)
Lemma broadcast2_shape_only (f : R -> R -> R) (x y x' y' : Tensor) :
  shape x = shape x' -> shape y = shape y' ->
  match tf.broadcast2 f x y, tf.broadcast2 f x' y' with
  | Ok r, Ok r' => shape r = shape r'
  | Raise e, Raise e' => e = e'
  | _, _ => False
  end.
Proof.
  unfold shape. intros [= Hb Hh Hw Hc] [= Hb' Hh' Hw' Hc'].
  unfold tf.broadcast2. rewrite <- Hb, <- Hh, <- Hw, <- Hc, <- Hb', <- Hh', <- Hw', <- Hc'.
  destruct (tf.bdim (dimB x) (dimB y)); [|reflexivity].
  destruct (tf.bdim (dimH x) (dimH y)); [|reflexivity].
  destruct (tf.bdim (dimW x) (dimW y)); [|reflexivity].
  destruct (tf.bdim (dimC x) (dimC y)); reflexivity.
Qed.

(** ** Conditional batch normalization reads one batch element *)

Lemma spatial_mean_ext (f g : nat -> nat -> R) (h w : nat) :
  (forall i j, (i < h)%nat -> (j < w)%nat -> f i j = g i j) ->
  spatial_mean f h w = spatial_mean g h w.
Proof.
  intros H. unfold spatial_mean. f_equal.
  apply sumR_ext; intros i Hi. apply sumR_ext; intros j Hj. apply H; assumption.
Qed.

Lemma LayerNormalization12_local (x x' : Tensor) (b : nat) :
  shape x = shape x' -> slice_agree x x' b ->
  forall i j c, (i < dimH x)%nat -> (j < dimW x)%nat -> (c < dimC x)%nat ->
    val (LayerNormalization12 x) b i j c = val (LayerNormalization12 x') b i j c.
Proof.
  unfold shape. intros [= Hb Hh Hw Hc] Hag i j c Hi Hj Hcc. simpl.
  assert (Hm : moments_mean x b c = moments_mean x' b c).
  { unfold moments_mean. rewrite <- Hh, <- Hw.
    apply spatial_mean_ext; intros; apply Hag; assumption. }
  assert (Hv : moments_var x b c = moments_var x' b c).
  { unfold moments_var. rewrite <- Hh, <- Hw, Hm.
    apply spatial_mean_ext; intros i' j' Hi' Hj'.
    rewrite (Hag i' j' c) by assumption. reflexivity. }
  rewrite Hm, Hv, (Hag i j c) by assumption. reflexivity.
Qed.

Lemma padded_local (x x' : Tensor) (b i j c di dj ph pw : nat) :
  shape x = shape x' -> slice_agree x x' b -> (c < dimC x)%nat ->
  padded x b i j c di dj ph pw = padded x' b i j c di dj ph pw.
Proof.
  unfold shape. intros [= Hb Hh Hw Hc] Hag Hcc. unfold padded.
  rewrite <- Hh, <- Hw.
  destruct ((ph <=? i + di) && (i + di - ph <? dimH x)
            && (pw <=? j + dj) && (j + dj - pw <? dimW x))%nat eqn:Hin;
    [|reflexivity].
  apply andb_prop in Hin as [Hin Hj]. apply andb_prop in Hin as [Hin _].
  apply andb_prop in Hin as [_ Hi].
  apply Nat.ltb_lt in Hi, Hj. apply Hag; assumption.
Qed.

Lemma Conv2D_call_local (l : Conv2D) (z z' : Tensor) (b : nat) :
  shape z = shape z' -> slice_agree z z' b ->
  forall i j o, val (Conv2D_call l z) b i j o = val (Conv2D_call l z') b i j o.
Proof.
  intros Hs Hag i j o. simpl. f_equal. unfold conv_val.
  assert (Hc : dimC z = dimC z') by (unfold shape in Hs; congruence).
  rewrite <- Hc.
  apply sumR_ext; intros di _. apply sumR_ext; intros dj _.
  apply sumR_ext; intros c Hcc.
  rewrite (padded_local z z') by assumption. reflexivity.
Qed.

Lemma Conv2D_call_shape (l : Conv2D) (z z' : Tensor) :
  shape z = shape z' -> shape (Conv2D_call l z) = shape (Conv2D_call l z').
Proof. unfold shape. simpl. intros [= -> -> -> _]. reflexivity. Qed.

Lemma LayerNormalization12_shape (x x' : Tensor) :
  shape x = shape x' ->
  shape (LayerNormalization12 x) = shape (LayerNormalization12 x').
Proof. unfold shape. simpl. intros [= -> -> -> ->]. reflexivity. Qed.

(** C10: the output of ConditionalBatchNormalization.call at a batch
    element is fixed by that element of the feature map and of the
    conditioning tensor (the element a broadcast batch axis of size one
    supplies, where there is one): the statistics are taken over the
    spatial axes of one element, never across the batch.  Success and
    shape depend on the shapes alone.  The layer gives the same result in
    training and in inference mode and leaves the state untouched. *)
Theorem C10_cbn_reads_one_batch_element
        (self : ConditionalBatchNormalization) (x x' z z' : Tensor) (b : nat) :
  shape x = shape x' -> shape z = shape z' ->
  slice_agree x x' (tf.bidx (dimB x) b) ->
  slice_agree z z' (tf.bidx (dimB z) b) ->
  match ConditionalBatchNormalization_call self x z,
        ConditionalBatchNormalization_call self x' z' with
  | Ok y, Ok y' =>
      shape y = shape y' /\
      ((b < dimB y)%nat ->
       forall i j c, (i < dimH y)%nat -> (j < dimW y)%nat -> (c < dimC y)%nat ->
                     val y b i j c = val y' b i j c)
  | Raise e, Raise e' => e = e'
  | _, _ => False
  end /\
  forall (E : Collaborators) (training training' : bool) (w : @world E),
    ConditionalBatchNormalization_in_context training self x z w
    = ConditionalBatchNormalization_in_context training' self x z w /\
    snd (ConditionalBatchNormalization_in_context training self x z w) = w.
Proof.
  intros Hx Hz Hax Haz. split; [|intros; split; reflexivity].
  unfold ConditionalBatchNormalization_call.
  set (xn := LayerNormalization12 x). set (xn' := LayerNormalization12 x').
  set (g := Conv2D_call (gamma self) z). set (g' := Conv2D_call (gamma self) z').
  set (bt := Conv2D_call (beta self) z). set (bt' := Conv2D_call (beta self) z').
  assert (Hxn : shape xn = shape xn') by (apply LayerNormalization12_shape; exact Hx).
  assert (Hg : shape g = shape g') by (apply Conv2D_call_shape; exact Hz).
  assert (Hbt : shape bt = shape bt') by (apply Conv2D_call_shape; exact Hz).
  pose proof (broadcast2_shape_only Rmult g xn g' xn' Hg Hxn) as Hmul.
  unfold tf.mul, tf.add.
  destruct (tf.broadcast2 Rmult g xn) as [gx|e] eqn:Egx;
    destruct (tf.broadcast2 Rmult g' xn') as [gx'|e'] eqn:Egx';
    try contradiction; simpl; [|exact Hmul].
  pose proof (broadcast2_shape_only Rplus gx bt gx' bt' Hmul Hbt) as Hadd.
  destruct (tf.broadcast2 Rplus gx bt) as [y|e] eqn:Ey;
    destruct (tf.broadcast2 Rplus gx' bt') as [y'|e'] eqn:Ey';
    try contradiction; [|exact Hadd].
  split; [exact Hadd|].
  intros Hb i j c Hi Hj Hc.
  destruct (broadcast2_inv _ _ _ _ Egx) as (Bg & Hg1 & Wg & Cg & Vg).
  destruct (broadcast2_inv _ _ _ _ Egx') as (_ & _ & _ & _ & Vg').
  destruct (broadcast2_inv _ _ _ _ Ey) as (By & Hy & Wy & Cy & Vy).
  destruct (broadcast2_inv _ _ _ _ Ey') as (_ & _ & _ & _ & Vy').
  rewrite Vy, Vy', Vg, Vg'.
  assert (Sg : dimB g = dimB g' /\ dimH g = dimH g' /\ dimW g = dimW g'
               /\ dimC g = dimC g') by (unfold shape in Hg; inversion Hg; auto).
  assert (Sx : dimB xn = dimB xn' /\ dimH xn = dimH xn' /\ dimW xn = dimW xn'
               /\ dimC xn = dimC xn') by (unfold shape in Hxn; inversion Hxn; auto).
  assert (Sb : dimB bt = dimB bt' /\ dimH bt = dimH bt' /\ dimW bt = dimW bt'
               /\ dimC bt = dimC bt') by (unfold shape in Hbt; inversion Hbt; auto).
  assert (Sm : dimB gx = dimB gx' /\ dimH gx = dimH gx' /\ dimW gx = dimW gx'
               /\ dimC gx = dimC gx') by (unfold shape in Hmul; inversion Hmul; auto).
  destruct Sg as (<- & <- & <- & <-). destruct Sx as (<- & <- & <- & <-).
  destruct Sb as (<- & <- & <- & <-). destruct Sm as (<- & <- & <- & <-).
  assert (Hbg : (b < dimB gx)%nat).
  { replace (dimB gx) with (dimB y); [exact Hb|].
    apply (bdim_absorb (dimB g) (dimB xn)); assumption. }
  destruct (bidx_lt _ _ _ _ By Hb) as [Hb1 _].
  destruct (bidx_lt _ _ _ _ Hy Hi) as [Hi1 _].
  destruct (bidx_lt _ _ _ _ Wy Hj) as [Hj1 _].
  destruct (bidx_lt _ _ _ _ Cy Hc) as [Hc1 _].
  destruct (bidx_lt _ _ _ _ Bg Hb1) as [_ Hb2].
  destruct (bidx_lt _ _ _ _ Hg1 Hi1) as [_ Hi2].
  destruct (bidx_lt _ _ _ _ Wg Hj1) as [_ Hj2].
  destruct (bidx_lt _ _ _ _ Cg Hc1) as [_ Hc2].
  f_equal; [f_equal|].
  - rewrite (bidx_bidx (dimB g)) by assumption.
    apply Conv2D_call_local; assumption.
  - rewrite (bidx_bidx (dimB xn)) in * by assumption.
    apply LayerNormalization12_local; assumption.
  - apply Conv2D_call_local; assumption.
Qed.

Lemma C10_cbn_reads_one_batch_element_witness :
  match ConditionalBatchNormalization_call
          (ConditionalBatchNormalization_init (constant_weights 1 0) 0 1)
          (two_elements 2 2 1 3 3) (full (2, 1, 1, 1)%nat 1),
        ConditionalBatchNormalization_call
          (ConditionalBatchNormalization_init (constant_weights 1 0) 0 1)
          (two_elements 2 2 1 3 7) (full (2, 1, 1, 1)%nat 1) with
  | Ok y, Ok y' =>
      shape y = shape y' /\
      ((0 < dimB y)%nat ->
       forall i j c, (i < dimH y)%nat -> (j < dimW y)%nat -> (c < dimC y)%nat ->
                     val y 0 i j c = val y' 0 i j c)
  | Raise e, Raise e' => e = e'
  | _, _ => False
  end /\
  forall (E : Collaborators) (training training' : bool) (w : @world E),
    ConditionalBatchNormalization_in_context
      training (ConditionalBatchNormalization_init (constant_weights 1 0) 0 1)
      (two_elements 2 2 1 3 3) (full (2, 1, 1, 1)%nat 1) w
    = ConditionalBatchNormalization_in_context
        training' (ConditionalBatchNormalization_init (constant_weights 1 0) 0 1)
        (two_elements 2 2 1 3 3) (full (2, 1, 1, 1)%nat 1) w /\
    snd (ConditionalBatchNormalization_in_context
           training (ConditionalBatchNormalization_init (constant_weights 1 0) 0 1)
           (two_elements 2 2 1 3 3) (full (2, 1, 1, 1)%nat 1) w) = w.
Proof.
  apply (C10_cbn_reads_one_batch_element
           (ConditionalBatchNormalization_init (constant_weights 1 0) 0 1)
           (two_elements 2 2 1 3 3) (two_elements 2 2 1 3 7)
           (full (2, 1, 1, 1)%nat 1) (full (2, 1, 1, 1)%nat 1) 0).
  - reflexivity.
  - reflexivity.
  - intros i j c _ _ _. reflexivity.
  - intros i j c _ _ _. reflexivity.
Defined.

(** ** Shapes of the layers *)

Lemma shape_intro (x : Tensor) (b h w c : nat) :
  dimB x = b -> dimH x = h -> dimW x = w -> dimC x = c -> shape x = (b, h, w, c).
Proof. unfold shape. congruence. Qed.

Lemma shape_inv (x : Tensor) (b h w c : nat) :
  shape x = (b, h, w, c) -> dimB x = b /\ dimH x = h /\ dimW x = w /\ dimC x = c.
Proof. unfold shape. intros [= -> -> -> ->]. auto. Qed.

Lemma broadcast2_ok (f : R -> R -> R) (x y : Tensor) (b h w c : nat) :
  tf.bdim (dimB x) (dimB y) = Ok b -> tf.bdim (dimH x) (dimH y) = Ok h ->
  tf.bdim (dimW x) (dimW y) = Ok w -> tf.bdim (dimC x) (dimC y) = Ok c ->
  tf.broadcast2 f x y
  = Ok (mkTensor b h w c (fun n i j k =>
      f (val x (tf.bidx (dimB x) n) (tf.bidx (dimH x) i)
               (tf.bidx (dimW x) j) (tf.bidx (dimC x) k))
        (val y (tf.bidx (dimB y) n) (tf.bidx (dimH y) i)
               (tf.bidx (dimW y) j) (tf.bidx (dimC y) k)))).
Proof.
  intros Hb Hh Hw Hc. unfold tf.broadcast2. rewrite Hb, Hh, Hw, Hc. reflexivity.
Qed.

(** Conditional batch normalization of a feature map [B, H, W, C] by a
    noise tensor [B, 1, 1, n] through 1x1 convolutions with C filters. *)
Lemma ConditionalBatchNormalization_call_ok
      (self : ConditionalBatchNormalization) (x z : Tensor) :
  dimB z = dimB x -> dimH z = 1%nat -> dimW z = 1%nat ->
  filters (gamma self) = dimC x -> filters (beta self) = dimC x ->
  exists y, ConditionalBatchNormalization_call self x z = Ok y /\
            shape y = shape x.
Proof.
  intros Hb Hh Hw Hg Hbt. unfold ConditionalBatchNormalization_call, tf.mul, tf.add.
  erewrite (broadcast2_ok Rmult _ _ (dimB x) (dimH x) (dimW x) (dimC x)); simpl.
  - erewrite (broadcast2_ok Rplus _ _ (dimB x) (dimH x) (dimW x) (dimC x)); simpl.
    + eexists; split; reflexivity.
    + rewrite Hb; apply bdim_same.
    + rewrite Hh; apply bdim_one_r.
    + rewrite Hw; apply bdim_one_r.
    + rewrite Hbt; apply bdim_same.
  - rewrite Hb; apply bdim_same.
  - rewrite Hh; apply bdim_one_l.
  - rewrite Hw; apply bdim_one_l.
  - rewrite Hg; apply bdim_same.
Qed.

Lemma reshape_fits_projection (B oc : nat) :
  reshape_fits (B * 1 * 1 * (oc * 4 * 4)) 4 4 oc = negb (oc =? 0)%nat.
Proof.
  unfold reshape_fits.
  replace (B * 1 * 1 * (oc * 4 * 4))%nat with (B * (4 * 4 * oc))%nat by lia.
  rewrite Nat.Div0.mod_mul, Nat.eqb_refl, andb_true_r.
  f_equal. destruct (Nat.eqb_spec (4 * 4 * oc) 0), (Nat.eqb_spec oc 0);
    try reflexivity; lia.
Qed.

Lemma reshape_spec (x : Tensor) (h w c : nat) :
  match tf.reshape x h w c with
  | Ok r => reshape_fits (dimB x * dimH x * dimW x * dimC x) h w c = true /\
            shape r = ((dimB x * dimH x * dimW x * dimC x) / (h * w * c), h, w, c)%nat
  | Raise e => e = ShapeError /\
               reshape_fits (dimB x * dimH x * dimW x * dimC x) h w c = false
  end.
Proof.
  unfold tf.reshape, reshape_fits.
  destruct (h * w * c =? 0)%nat; simpl; [auto|].
  destruct (_ mod _ =? 0)%nat; simpl; auto.
Qed.

(** C7: on a noise tensor [B, 1, 1, n_input] the input block projects to
    output_channels * 4 * 4 units, reshapes to the 4x4 grid, applies the
    conditional normalization conditioned on the same noise and then the
    rectifier, and returns a grid [B, 4, 4, base_channels * output_factor];
    it raises a shape error exactly when the projected elements do not fit
    the grid.  (They fit unless the block has no output channel, whatever
    n_input is.) *)
Theorem C7_input_block (wt : Weights) (tag base_channels output_factor : nat)
        (z_k : Tensor) (B n_input : nat) :
  shape z_k = (B, 1%nat, 1%nat, n_input) ->
  let self := InputBlock_init wt tag base_channels output_factor in
  let output_channels := (base_channels * output_factor)%nat in
  let projected := Dense_call (ib_dense self) z_k in
  units (ib_dense self) = (output_channels * 4 * 4)%nat /\
  (InputBlock_call self z_k = Raise ShapeError <->
   reshape_fits (dimB projected * dimH projected * dimW projected * dimC projected)
                4 4 output_channels = false) /\
  (reshape_fits (dimB projected * dimH projected * dimW projected * dimC projected)
                4 4 output_channels = true ->
   exists grid normalized,
     tf.reshape projected 4 4 output_channels = Ok grid /\
     ConditionalBatchNormalization_call (ib_cbn self) grid z_k = Ok normalized /\
     InputBlock_call self z_k = Ok (ReLU normalized) /\
     shape (ReLU normalized) = (B, 4%nat, 4%nat, output_channels)) /\
  (reshape_fits (dimB projected * dimH projected * dimW projected * dimC projected)
                4 4 output_channels = false <-> output_channels = 0%nat).
Proof.
  intros Hz self oc projected.
  unfold shape in Hz. injection Hz as HB HH HW HC.
  assert (Hfit : reshape_fits (dimB projected * dimH projected * dimW projected
                               * dimC projected) 4 4 oc = negb (oc =? 0)%nat).
  { change (dimB projected) with (dimB z_k). change (dimH projected) with (dimH z_k).
    change (dimW projected) with (dimW z_k).
    change (dimC projected) with (oc * 4 * 4)%nat.
    rewrite HB, HH, HW. apply reshape_fits_projection. }
  assert (Hsucc : reshape_fits (dimB projected * dimH projected * dimW projected
                               * dimC projected) 4 4 oc = true ->
     exists grid normalized,
       tf.reshape projected 4 4 oc = Ok grid /\
       ConditionalBatchNormalization_call (ib_cbn self) grid z_k = Ok normalized /\
       InputBlock_call self z_k = Ok (ReLU normalized) /\
       shape (ReLU normalized) = (B, 4%nat, 4%nat, oc)).
  { intros Hf. pose proof (reshape_spec projected 4 4 oc) as Hr.
    destruct (tf.reshape projected 4 4 oc) as [grid|e] eqn:Eg;
      [|destruct Hr; congruence].
    destruct Hr as [_ Hs].
    assert (Hoc : oc <> 0%nat).
    { rewrite Hfit in Hf. destruct (Nat.eqb_spec oc 0); [discriminate|assumption]. }
    assert (Hgs : shape grid = (B, 4, 4, oc)%nat).
    { rewrite Hs.
      change (dimB projected) with (dimB z_k). change (dimH projected) with (dimH z_k).
      change (dimW projected) with (dimW z_k).
      change (dimC projected) with (oc * 4 * 4)%nat.
      rewrite HB, HH, HW.
      replace (B * 1 * 1 * (oc * 4 * 4))%nat with (B * (4 * 4 * oc))%nat by lia.
      rewrite Nat.div_mul by lia. reflexivity. }
    unfold shape in Hgs. injection Hgs as GB GH GW GC.
    destruct (ConditionalBatchNormalization_call_ok (ib_cbn self) grid z_k)
      as (y & Hy & Hys); try congruence; try (rewrite GC; reflexivity).
    exists grid, y. split; [reflexivity|]. split; [exact Hy|].
    split.
    - unfold InputBlock_call. fold projected.
      change (ib_output_channels self) with oc. rewrite Eg. cbn [res_bind].
      rewrite Hy. reflexivity.
    - unfold shape in *. simpl. rewrite Hys. congruence. }
  split; [reflexivity|]. split; [|split; [exact Hsucc|]].
  - split.
    + intros Hraise.
      destruct (reshape_fits _ 4 4 oc) eqn:Hf; [|reflexivity].
      destruct (Hsucc eq_refl) as (g & n & _ & _ & Hok & _). congruence.
    + intros Hf. pose proof (reshape_spec projected 4 4 oc) as Hr.
      unfold InputBlock_call. fold projected.
      change (ib_output_channels self) with oc.
      destruct (tf.reshape projected 4 4 oc) as [grid|e]; [destruct Hr; congruence|].
      destruct Hr as [-> _]. reflexivity.
  - rewrite Hfit. destruct (Nat.eqb_spec oc 0); simpl; split; congruence.
Qed.

Lemma C7_input_block_witness :
  let self := InputBlock_init (constant_weights 1 0) 0 2 3 in
  let output_channels := (2 * 3)%nat in
  let projected := Dense_call (ib_dense self) (full (5, 1, 1, 7)%nat 1) in
  units (ib_dense self) = (output_channels * 4 * 4)%nat /\
  (InputBlock_call self (full (5, 1, 1, 7)%nat 1) = Raise ShapeError <->
   reshape_fits (dimB projected * dimH projected * dimW projected * dimC projected)
                4 4 output_channels = false) /\
  (reshape_fits (dimB projected * dimH projected * dimW projected * dimC projected)
                4 4 output_channels = true ->
   exists grid normalized,
     tf.reshape projected 4 4 output_channels = Ok grid /\
     ConditionalBatchNormalization_call (ib_cbn self) grid (full (5, 1, 1, 7)%nat 1)
     = Ok normalized /\
     InputBlock_call self (full (5, 1, 1, 7)%nat 1) = Ok (ReLU normalized) /\
     shape (ReLU normalized) = (5, 4, 4, output_channels)%nat) /\
  (reshape_fits (dimB projected * dimH projected * dimW projected * dimC projected)
                4 4 output_channels = false <-> output_channels = 0%nat).
Proof.
  apply (C7_input_block (constant_weights 1 0) 0 2 3 (full (5, 1, 1, 7)%nat 1) 5 7).
  reflexivity.
Defined.

(** ** Running computations *)

Lemma bind_ok {S A B : Type} (m : St S A) (f : A -> St S B) (w w' : S) (a : A) :
  m w = (Ok a, w') -> bind m f w = f a w'.
Proof. intros H. unfold bind. rewrite H. reflexivity. Qed.

Lemma bind_raise {S A B : Type} (m : St S A) (f : A -> St S B) (w w' : S) (e : error) :
  m w = (Raise e, w') -> bind m f w = (Raise e, w').
Proof. intros H. unfold bind. rewrite H. reflexivity. Qed.

Lemma bind_lift_ok {S A B : Type} (r : Res A) (f : A -> St S B) (w : S) (a : A) :
  r = Ok a -> bind (lift r) f w = f a w.
Proof. intros ->. reflexivity. Qed.

Section LayerProperties.

Context {E : Collaborators}.

Lemma SpectralNormalization_call_ok (sn : SpectralNormalization) (x : Tensor)
      (training : bool) (w : world) :
  exists y w',
    SpectralNormalization_call sn x training w = (Ok y, w') /\
    shape y = (dimB x, dimH x, dimW x, filters (sn_layer sn)) /\
    rng w' = rng w /\ (training = false -> w' = w).
Proof.
  unfold SpectralNormalization_call. destruct training.
  - eexists _, _. split; [reflexivity|]. repeat split. discriminate.
  - eexists _, _. split; [reflexivity|]. repeat split.
Qed.

Lemma AveragePooling2D_ok (s : nat) (x : Tensor) :
  s <> 0%nat ->
  exists y, AveragePooling2D s x = Ok y /\
            shape y = (dimB x, pool_out (dimH x) s, pool_out (dimW x) s, dimC x).
Proof.
  intros Hs. unfold AveragePooling2D.
  destruct (Nat.eqb_spec s 0); [contradiction|].
  eexists. split; reflexivity.
Qed.

Lemma concat3_ok (x y : Tensor) :
  dimB x = dimB y -> dimH x = dimH y -> dimW x = dimW y ->
  exists r, tf.concat3 x y = Ok r /\
            shape r = (dimB x, dimH x, dimW x, (dimC x + dimC y)%nat).
Proof.
  intros Hb Hh Hw. unfold tf.concat3.
  rewrite Hb, Hh, Hw, !Nat.eqb_refl. simpl.
  eexists. split; [reflexivity|]. unfold shape. simpl. congruence.
Qed.

Lemma add_same_shape_ok (x y : Tensor) :
  shape x = shape y -> exists r, tf.add x y = Ok r /\ shape r = shape x.
Proof.
  unfold shape. intros [= Hb Hh Hw Hc]. unfold tf.add.
  erewrite (broadcast2_ok Rplus x y (dimB x) (dimH x) (dimW x) (dimC x)).
  - eexists. split; reflexivity.
  - rewrite Hb; apply bdim_same.
  - rewrite Hh; apply bdim_same.
  - rewrite Hw; apply bdim_same.
  - rewrite Hc; apply bdim_same.
Qed.

(** The block computes the identity path, then the main path, and adds
    them. *)
Lemma ResidualUpsamplingBlock_call_sum (self : ResidualUpsamplingBlock)
      (x z_k masks : Tensor) (training : bool) (w : world) :
  ResidualUpsamplingBlock_call self x z_k masks training w
  = main_plus_identity self x z_k masks training w.
Proof.
  unfold ResidualUpsamplingBlock_call, main_plus_identity, identity_path, main_path.
  unfold bind, lift, tf.cast_float32.
  destruct (SpectralNormalization_call (process_identity self) (UpSampling2D x)
                                       training w) as [[identity|e] w1];
    [|reflexivity].
  destruct (ConditionalBatchNormalization_call (cbn_1 self) x z_k); [|reflexivity].
  destruct (AveragePooling2D (mask_pool self) masks); [|reflexivity].
  destruct (tf.concat3 _ _); [|reflexivity].
  destruct (SpectralNormalization_call (conv_1 self) _ training w1) as [[c1|e] w2];
    [|reflexivity].
  destruct (ConditionalBatchNormalization_call (cbn_2 self) c1 z_k); [|reflexivity].
  destruct (SpectralNormalization_call (conv_2 self) _ training w2) as [[c2|e] w3];
    reflexivity.
Qed.

Lemma identity_path_ok (self : ResidualUpsamplingBlock) (x : Tensor)
      (training : bool) (w : world) :
  exists idt w',
    identity_path self x training w = (Ok idt, w') /\
    shape idt = (dimB x, (2 * dimH x)%nat, (2 * dimW x)%nat,
                 filters (sn_layer (process_identity self))) /\
    rng w' = rng w /\ (training = false -> w' = w).
Proof.
  unfold identity_path.
  destruct (SpectralNormalization_call_ok (process_identity self) (UpSampling2D x)
                                          training w)
    as (idt & w1 & E1 & S1 & R1 & I1).
  exists idt, w1. auto.
Qed.

(** A well-configured main path on a feature map [B, H, W, C], a noise
    tensor [B, 1, 1, n] and a mask that pools down to H x W. *)
Lemma main_path_ok (self : ResidualUpsamplingBlock)
      (x z_k masks : Tensor) (training : bool) (w : world) :
  dimB z_k = dimB x -> dimH z_k = 1%nat -> dimW z_k = 1%nat ->
  filters (gamma (cbn_1 self)) = dimC x -> filters (beta (cbn_1 self)) = dimC x ->
  filters (gamma (cbn_2 self)) = filters (sn_layer (conv_1 self)) ->
  filters (beta (cbn_2 self)) = filters (sn_layer (conv_1 self)) ->
  mask_pool self <> 0%nat -> dimB masks = dimB x ->
  pool_out (dimH masks) (mask_pool self) = dimH x ->
  pool_out (dimW masks) (mask_pool self) = dimW x ->
  exists main w',
    main_path self x z_k masks training w = (Ok main, w') /\
    shape main = (dimB x, (2 * dimH x)%nat, (2 * dimW x)%nat,
                  filters (sn_layer (conv_2 self))) /\
    rng w' = rng w /\ (training = false -> w' = w).
Proof.
  intros Hzb Hzh Hzw Hg1 Hb1 Hg2 Hb2 Hs Hmb Hmh Hmw.
  unfold main_path.
  destruct (ConditionalBatchNormalization_call_ok (cbn_1 self) x z_k)
    as (n1 & En1 & Sn1); try assumption.
  rewrite (bind_lift_ok _ _ _ _ En1).
  destruct (AveragePooling2D_ok (mask_pool self) masks Hs) as (pooled & Ep & Sp).
  rewrite (bind_lift_ok _ _ _ _ Ep).
  apply shape_inv in Sp as (Pb & Ph & Pw & Pc).
  unfold shape in Sn1. injection Sn1 as Nb Nh Nw Nc.
  destruct (concat3_ok (ReLU n1) pooled) as (cat & Ec & Sc);
    try (simpl; congruence).
  rewrite (bind_lift_ok _ _ _ _ Ec).
  apply shape_inv in Sc as (Cb & Ch & Cw & Cc). simpl in Cb, Ch, Cw.
  destruct (SpectralNormalization_call_ok (conv_1 self) (UpSampling2D cat) training w)
    as (c1 & w2 & E2 & S2 & R2 & I2).
  rewrite (bind_ok _ _ _ _ _ E2).
  apply shape_inv in S2 as (C1b & C1h & C1w & C1c).
  cbn [dimB dimH dimW UpSampling2D] in C1b, C1h, C1w.
  destruct (ConditionalBatchNormalization_call_ok (cbn_2 self) c1 z_k)
    as (n2 & En2 & Sn2); try congruence.
  rewrite (bind_lift_ok _ _ _ _ En2).
  unfold shape in Sn2. injection Sn2 as N2b N2h N2w N2c.
  destruct (SpectralNormalization_call_ok (conv_2 self) (ReLU n2) training w2)
    as (c2 & w3 & E3 & S3 & R3 & I3).
  apply shape_inv in S3 as (C2b & C2h & C2w & C2c).
  cbn [dimB dimH dimW ReLU] in C2b, C2h, C2w.
  exists c2, w3. split; [exact E3|]. split.
  - apply shape_intro; lia.
  - split; [congruence|]. intros Ht. rewrite (I3 Ht), (I2 Ht). reflexivity.
Qed.

Lemma add_same_shape_val (x y r : Tensor) :
  shape x = shape y -> tf.add x y = Ok r ->
  shape r = shape x /\
  forall b i j c, (b < dimB r)%nat -> (i < dimH r)%nat -> (j < dimW r)%nat ->
                  (c < dimC r)%nat -> val r b i j c = val x b i j c + val y b i j c.
Proof.
  intros Hs Hr. destruct (add_same_shape_ok x y Hs) as (r' & Hr' & Sr).
  assert (r' = r) by congruence. subst r'. split; [exact Sr|].
  unfold shape in Hs, Sr. injection Hs as Hb Hh Hw Hc. injection Sr as Rb Rh Rw Rc.
  destruct (broadcast2_inv _ _ _ _ Hr) as (_ & _ & _ & _ & ->).
  intros b i j c Lb Li Lj Lc.
  rewrite <- Hb, <- Hh, <- Hw, <- Hc.
  rewrite !bidx_full by lia. reflexivity.
Qed.

(** A well-configured block. *)
Lemma ResidualUpsamplingBlock_call_ok (self : ResidualUpsamplingBlock)
      (x z_k masks : Tensor) (training : bool) (w : world) :
  dimB z_k = dimB x -> dimH z_k = 1%nat -> dimW z_k = 1%nat ->
  filters (gamma (cbn_1 self)) = dimC x -> filters (beta (cbn_1 self)) = dimC x ->
  filters (gamma (cbn_2 self)) = filters (sn_layer (conv_1 self)) ->
  filters (beta (cbn_2 self)) = filters (sn_layer (conv_1 self)) ->
  filters (sn_layer (process_identity self)) = filters (sn_layer (conv_2 self)) ->
  mask_pool self <> 0%nat -> dimB masks = dimB x ->
  pool_out (dimH masks) (mask_pool self) = dimH x ->
  pool_out (dimW masks) (mask_pool self) = dimW x ->
  exists idt main y w1 w2,
    identity_path self x training w = (Ok idt, w1) /\
    main_path self x z_k masks training w1 = (Ok main, w2) /\
    tf.add main idt = Ok y /\
    ResidualUpsamplingBlock_call self x z_k masks training w = (Ok y, w2) /\
    shape y = (dimB x, (2 * dimH x)%nat, (2 * dimW x)%nat,
               filters (sn_layer (conv_2 self))) /\
    shape main = shape y /\ shape idt = shape y /\
    (forall b i j c, (b < dimB y)%nat -> (i < dimH y)%nat -> (j < dimW y)%nat ->
                     (c < dimC y)%nat ->
                     val y b i j c = val main b i j c + val idt b i j c) /\
    rng w2 = rng w /\ (training = false -> w2 = w).
Proof.
  intros Hzb Hzh Hzw Hg1 Hb1 Hg2 Hb2 Hid Hs Hmb Hmh Hmw.
  destruct (identity_path_ok self x training w) as (idt & w1 & E1 & S1 & R1 & I1).
  destruct (main_path_ok self x z_k masks training w1)
    as (main & w2 & E2 & S2 & R2 & I2); try assumption.
  assert (Hsame : shape main = shape idt) by (rewrite S1, S2, Hid; reflexivity).
  destruct (add_same_shape_ok main idt Hsame) as (y & Ey & Sy).
  destruct (add_same_shape_val main idt y Hsame Ey) as (_ & Hval).
  exists idt, main, y, w1, w2.
  split; [exact E1|]. split; [exact E2|]. split; [exact Ey|].
  split.
  { rewrite ResidualUpsamplingBlock_call_sum. unfold main_plus_identity.
    rewrite (bind_ok _ _ _ _ _ E1), (bind_ok _ _ _ _ _ E2).
    unfold lift. rewrite Ey. reflexivity. }
  split; [rewrite Sy; exact S2|].
  split; [symmetry; exact Sy|]. split; [rewrite Sy; symmetry; exact Hsame|].
  split; [exact Hval|].
  split; [congruence|]. intros Ht. rewrite (I2 Ht), (I1 Ht). reflexivity.
Qed.

Lemma ResidualUpsamplingBlock_init_call_ok
      (wt : Weights) (owner : Z)
      (tag base_channels input_factor output_factor mask_scale : nat)
      (x z_k masks : Tensor) (training : bool) (w : world) (B H W : nat) :
  shape x = (B, H, W, (base_channels * input_factor)%nat) ->
  dimB z_k = B -> dimH z_k = 1%nat -> dimW z_k = 1%nat ->
  mask_scale <> 0%nat -> dimB masks = B ->
  pool_out (dimH masks) mask_scale = H -> pool_out (dimW masks) mask_scale = W ->
  exists y w',
    ResidualUpsamplingBlock_call
      (ResidualUpsamplingBlock_init wt owner tag base_channels input_factor
                                    output_factor mask_scale)
      x z_k masks training w = (Ok y, w') /\
    shape y = (B, (2 * H)%nat, (2 * W)%nat, (base_channels * output_factor)%nat) /\
    rng w' = rng w /\ (training = false -> w' = w).
Proof.
  intros Hx Zb Zh Zw Hs Mb Mh Mw.
  apply shape_inv in Hx as (Xb & Xh & Xw & Xc).
  destruct (ResidualUpsamplingBlock_call_ok
              (ResidualUpsamplingBlock_init wt owner tag base_channels input_factor
                                            output_factor mask_scale)
              x z_k masks training w)
    as (idt & main & y & w1 & w2 & _ & _ & _ & Ecall & Sy & _ & _ & _ & Rw & Iw);
    try (simpl; congruence).
  exists y, w2. split; [exact Ecall|]. split; [|auto].
  rewrite Sy, Xb, Xh, Xw. reflexivity.
Qed.

Lemma InputBlock_call_ok (wt : Weights) (tag base_channels output_factor : nat)
      (z_k : Tensor) :
  dimH z_k = 1%nat -> dimW z_k = 1%nat ->
  (base_channels * output_factor)%nat <> 0%nat ->
  exists x, InputBlock_call (InputBlock_init wt tag base_channels output_factor) z_k
            = Ok x /\
            shape x = (dimB z_k, 4%nat, 4%nat, (base_channels * output_factor)%nat).
Proof.
  intros Zh Zw Hoc.
  set (oc := (base_channels * output_factor)%nat) in *.
  unfold InputBlock_call.
  set (self := InputBlock_init wt tag base_channels output_factor).
  set (projected := Dense_call (ib_dense self) z_k).
  change (ib_output_channels self) with oc.
  pose proof (reshape_spec projected 4 4 oc) as Hr.
  change (dimB projected) with (dimB z_k) in Hr.
  change (dimH projected) with (dimH z_k) in Hr.
  change (dimW projected) with (dimW z_k) in Hr.
  change (dimC projected) with (oc * 4 * 4)%nat in Hr.
  rewrite Zh, Zw, reshape_fits_projection in Hr.
  replace (dimB z_k * 1 * 1 * (oc * 4 * 4))%nat with (dimB z_k * (4 * 4 * oc))%nat in Hr
    by lia.
  rewrite Nat.div_mul in Hr by lia.
  destruct (tf.reshape projected 4 4 oc) as [grid|e].
  2:{ destruct Hr as [_ Hr]. destruct (Nat.eqb_spec oc 0); [contradiction|discriminate]. }
  destruct Hr as [_ Hg]. apply shape_inv in Hg as (Gb & Gh & Gw & Gc).
  cbn [res_bind].
  destruct (ConditionalBatchNormalization_call_ok (ib_cbn self) grid z_k)
    as (y & Hy & Hys); try congruence; try (rewrite Gc; reflexivity).
  rewrite Hy. cbn [res_bind]. eexists. split; [reflexivity|].
  unfold shape in Hys. injection Hys as Yb Yh Yw Yc.
  apply shape_intro; cbn [dimB dimH dimW dimC ReLU]; congruence.
Qed.

(** ** The range of the hyperbolic tangent *)

Lemma tanh_range (r : R) : -1 <= Rtrigo_def.tanh r <= 1.
Proof.
  unfold Rtrigo_def.tanh, sinh, cosh.
  pose proof (exp_pos r) as Ha. pose proof (exp_pos (- r)) as Hb.
  set (a := exp r) in *. set (b := exp (- r)) in *.
  assert (Hc : 0 < (a + b) / 2) by lra.
  split.
  - apply (Rmult_le_reg_r ((a + b) / 2)); [exact Hc|].
    unfold Rdiv at 2. rewrite Rmult_assoc, Rinv_l by lra. lra.
  - apply (Rmult_le_reg_r ((a + b) / 2)); [exact Hc|].
    unfold Rdiv at 1. rewrite Rmult_assoc, Rinv_l by lra. lra.
Qed.

Lemma OutputBlock_call_ok (self : OutputBlock) (x z_k masks : Tensor)
      (training : bool) (w : world) :
  dimB z_k = dimB x -> dimH z_k = 1%nat -> dimW z_k = 1%nat ->
  filters (gamma (ob_cbn self)) = dimC x -> filters (beta (ob_cbn self)) = dimC x ->
  dimB masks = dimB x -> dimH masks = dimH x -> dimW masks = dimW x ->
  exists y w',
    OutputBlock_call self x z_k masks training w = (Ok y, w') /\
    shape y = (dimB x, dimH x, dimW x, filters (sn_layer (ob_conv self))) /\
    (forall b i j c, -1 <= val y b i j c <= 1) /\
    rng w' = rng w /\ (training = false -> w' = w).
Proof.
  intros Zb Zh Zw Hg Hb Mb Mh Mw. unfold OutputBlock_call.
  destruct (ConditionalBatchNormalization_call_ok (ob_cbn self) x z_k)
    as (n1 & En1 & Sn1); try assumption.
  rewrite (bind_lift_ok _ _ _ _ En1).
  unfold shape in Sn1. injection Sn1 as Nb Nh Nw Nc.
  destruct (concat3_ok (ReLU n1) (tf.cast_float32 masks)) as (cat & Ec & Sc);
    try (unfold tf.cast_float32; simpl; congruence).
  rewrite (bind_lift_ok _ _ _ _ Ec).
  apply shape_inv in Sc as (Cb & Ch & Cw & Cc). simpl in Cb, Ch, Cw.
  destruct (SpectralNormalization_call_ok (ob_conv self) cat training w)
    as (c1 & w1 & E1 & S1 & R1 & I1).
  rewrite (bind_ok _ _ _ _ _ E1).
  apply shape_inv in S1 as (C1b & C1h & C1w & C1c).
  eexists _, _. split; [reflexivity|].
  split; [apply shape_intro; cbn [dimB dimH dimW dimC tf.tanh]; congruence|].
  split; [intros; apply tanh_range|]. auto.
Qed.

(** C5: the residual up-sampling block returns the sum of its main path
    (conditional normalization on z, rectifier, the area-pooled mask
    concatenated as one more channel, 2x bilinear up-sampling, a
    spectrally-normalized 3x3 convolution to Cout, a second conditional
    normalization and rectifier, a second spectrally-normalized 3x3
    convolution to Cout) and of its identity path (2x bilinear up-sampling,
    then a spectrally-normalized 1x1 convolution to Cout).  On a feature
    map [B, H, W, Cin] the output is [B, 2H, 2W, Cout]. *)
Theorem C5_residual_upsampling_block
        (wt : Weights) (owner : Z)
        (tag base_channels input_factor output_factor mask_scale : nat)
        (x z_k masks : Tensor) (training : bool) (B H W n Hm Wm : nat) (w : world) :
  let self := ResidualUpsamplingBlock_init wt owner tag base_channels input_factor
                                           output_factor mask_scale in
  let Cin := (base_channels * input_factor)%nat in
  let Cout := (base_channels * output_factor)%nat in
  shape x = (B, H, W, Cin) ->
  shape z_k = (B, 1%nat, 1%nat, n) ->
  shape masks = (B, Hm, Wm, 1%nat) ->
  mask_scale <> 0%nat -> pool_out Hm mask_scale = H -> pool_out Wm mask_scale = W ->
  (ResidualUpsamplingBlock_call self x z_k masks training w
   = main_plus_identity self x z_k masks training w) /\
  (let conv l := (filters (sn_layer l), kernel_h (sn_layer l), kernel_w (sn_layer l)) in
   conv (conv_1 self) = (Cout, 3%nat, 3%nat) /\
   conv (conv_2 self) = (Cout, 3%nat, 3%nat) /\
   conv (process_identity self) = (Cout, 1%nat, 1%nat)) /\
  (exists normalized pooled fused,
     ConditionalBatchNormalization_call (cbn_1 self) x z_k = Ok normalized /\
     AveragePooling2D mask_scale masks = Ok pooled /\
     shape pooled = (B, H, W, 1%nat) /\
     tf.concat3 (ReLU normalized) pooled = Ok fused /\
     shape fused = (B, H, W, (Cin + 1)%nat) /\
     shape (UpSampling2D fused) = (B, (2 * H)%nat, (2 * W)%nat, (Cin + 1)%nat)) /\
  (exists idt main y w1 w2,
     identity_path self x training w = (Ok idt, w1) /\
     main_path self x z_k masks training w1 = (Ok main, w2) /\
     ResidualUpsamplingBlock_call self x z_k masks training w = (Ok y, w2) /\
     shape y = (B, (2 * H)%nat, (2 * W)%nat, Cout) /\
     shape main = shape y /\ shape idt = shape y /\
     forall b i j c, (b < B)%nat -> (i < 2 * H)%nat -> (j < 2 * W)%nat ->
                     (c < Cout)%nat ->
                     val y b i j c = val main b i j c + val idt b i j c).
Proof.
  intros self Cin Cout Hx Hz Hm0 Hs Hph Hpw.
  apply shape_inv in Hx as (Xb & Xh & Xw & Xc).
  apply shape_inv in Hz as (Zb & Zh & Zw & Zc).
  apply shape_inv in Hm0 as (Mb & Mh & Mw & Mc).
  split; [apply ResidualUpsamplingBlock_call_sum|].
  split; [repeat split|].
  split.
  - destruct (ConditionalBatchNormalization_call_ok (cbn_1 self) x z_k)
      as (n1 & En1 & Sn1); try (simpl; unfold Cin, Cout in *; congruence).
    destruct (AveragePooling2D_ok mask_scale masks Hs) as (pooled & Ep & Sp).
    apply shape_inv in Sp as (Pb & Ph & Pw & Pc).
    unfold shape in Sn1. injection Sn1 as Nb Nh Nw Nc.
    destruct (concat3_ok (ReLU n1) pooled) as (cat & Ec & Sc);
      try (simpl; unfold Cin, Cout in *; congruence).
    apply shape_inv in Sc as (Cb & Ch & Cw & Cc). simpl in Cb, Ch, Cw, Cc.
    exists n1, pooled, cat.
    split; [exact En1|]. split; [exact Ep|].
    split; [apply shape_intro; congruence|]. split; [exact Ec|].
    split; apply shape_intro; cbn [dimB dimH dimW dimC UpSampling2D]; congruence.
  - destruct (ResidualUpsamplingBlock_call_ok self x z_k masks training w)
      as (idt & main & y & w1 & w2 & E1 & E2 & Ey & Ecall & Sy & Sm & Si & Hval & _);
      try (simpl; unfold Cin, Cout in *; congruence).
    exists idt, main, y, w1, w2.
    split; [exact E1|]. split; [exact E2|]. split; [exact Ecall|].
    assert (Sy' : shape y = (B, (2 * H)%nat, (2 * W)%nat, Cout)).
    { rewrite Sy, Xb, Xh, Xw. reflexivity. }
    split; [exact Sy'|]. split; [exact Sm|]. split; [exact Si|].
    apply shape_inv in Sy' as (Yb & Yh & Yw & Yc).
    intros b i j c Lb Li Lj Lc. apply Hval; congruence.
Qed.

(** ** The redrawing path of a class generator *)

Lemma on_layers_attention_ok (a : SelfAttentionModule) (x : Tensor)
      (training : bool) (w : world) :
  attention_keeps_shape E ->
  exists y w', on_layers (SelfAttentionModule_call a x training) w = (Ok y, w') /\
               shape y = shape x /\ rng w' = rng w.
Proof.
  intros Ha. destruct (Ha a x training (layers w)) as (y & s' & Hy & Sy).
  exists y, (mkWorld (rng w) s'). unfold on_layers. rewrite Hy. auto.
Qed.

Lemma redraw_region_ok (wt : Weights) (k : Z) (bc : nat)
      (z_k mask : Tensor) (training : bool) (w : world) (B : nat) :
  attention_keeps_shape E -> bc <> 0%nat ->
  dimB z_k = B -> dimH z_k = 1%nat -> dimW z_k = 1%nat ->
  dimB mask = B -> dimH mask = 128%nat -> dimW mask = 128%nat ->
  exists x5 w5 raw w',
    OutputBlock_call (block_5 (ClassGenerator_init wt k bc)) x5 z_k mask training w5
    = (Ok raw, w') /\
    redraw_region (ClassGenerator_init wt k bc) z_k mask training w = (Ok raw, w') /\
    shape raw = (B, 128, 128, 3)%nat /\
    (forall b i j c, -1 <= val raw b i j c <= 1) /\
    rng w' = rng w.
Proof.
  intros Ha Hbc Zb Zh Zw Mb Mh Mw. unfold redraw_region.
  cbn [block_1 up_res_block_1 up_res_block_2 up_res_block_3 up_res_block_4
       block_3 block_4 block_5 ClassGenerator_init].
  destruct (InputBlock_call_ok wt 0 bc 16 z_k Zh Zw) as (x0 & E0 & S0); [lia|].
  rewrite (bind_lift_ok _ _ _ _ E0). rewrite Zb in S0.
  destruct (ResidualUpsamplingBlock_init_call_ok wt k 2 bc 16 16 32 x0 z_k mask
              training w B 4 4) as (x1 & w1 & E1 & S1 & R1 & _);
    try assumption; try lia; try (rewrite ?Mh, ?Mw; reflexivity).
  rewrite (bind_ok _ _ _ _ _ E1).
  destruct (ResidualUpsamplingBlock_init_call_ok wt k 9 bc 16 8 16 x1 z_k mask
              training w1 B 8 8) as (x2 & w2 & E2 & S2 & R2 & _);
    try assumption; try lia; try (rewrite ?Mh, ?Mw; reflexivity).
  rewrite (bind_ok _ _ _ _ _ E2).
  destruct (ResidualUpsamplingBlock_init_call_ok wt k 16 bc 8 4 8 x2 z_k mask
              training w2 B 16 16) as (x3 & w3 & E3 & S3 & R3 & _);
    try assumption; try lia; try (rewrite ?Mh, ?Mw; reflexivity).
  rewrite (bind_ok _ _ _ _ _ E3).
  destruct (ResidualUpsamplingBlock_init_call_ok wt k 23 bc 4 2 4 x3 z_k mask
              training w3 B 32 32) as (x4 & w4 & E4 & S4 & R4 & _);
    try assumption; try lia; try (rewrite ?Mh, ?Mw; reflexivity).
  rewrite (bind_ok _ _ _ _ _ E4).
  destruct (on_layers_attention_ok (SelfAttentionModule_init (2 * bc)) x4 training w4 Ha)
    as (xa & wa & Ea & Sa & Ra).
  rewrite (bind_ok _ _ _ _ _ Ea). rewrite S4 in Sa.
  destruct (ResidualUpsamplingBlock_init_call_ok wt k 30 bc 2 1 2 xa z_k mask
              training wa B 64 64) as (x5 & w5 & E5 & S5 & R5 & _);
    try assumption; try lia; try (rewrite ?Mh, ?Mw; reflexivity).
  rewrite (bind_ok _ _ _ _ _ E5).
  apply shape_inv in S5 as (Xb & Xh & Xw & Xc).
  destruct (OutputBlock_call_ok (OutputBlock_init wt k 37 bc 1) x5 z_k mask training w5)
    as (raw & w6 & E6 & S6 & V6 & R6 & _);
    try (simpl; congruence); try (rewrite ?Mh, ?Mw, ?Xh, ?Xw; reflexivity).
  exists x5, w5, raw, w6.
  split; [exact E6|]. split; [exact E6|].
  split; [rewrite S6, Xb, Xh, Xw; reflexivity|].
  split; [exact V6|]. congruence.
Qed.

End LayerProperties.

(** ** The loop over the regions *)

Lemma for_range_app {S L : Type} (ks ks' : list nat) (body : nat -> L -> St S L)
      (l : L) (w : S) :
  for_range (ks ++ ks') body l w
  = bind (for_range ks body l) (fun l' => for_range ks' body l') w.
Proof.
  revert l w. induction ks as [|k ks IH]; intros l w; simpl.
  - reflexivity.
  - unfold bind. destruct (body k l w) as [[l1|e] w1]; [|reflexivity].
    rewrite IH. unfold bind. reflexivity.
Qed.

Lemma for_range_snoc {S L : Type} (ks : list nat) (k : nat)
      (body : nat -> L -> St S L) (l l' : L) (w w' : S) :
  for_range ks body l w = (Ok l', w') ->
  for_range (ks ++ [k]) body l w = body k l' w'.
Proof.
  intros H. rewrite for_range_app. rewrite (bind_ok _ _ _ _ _ H).
  simpl. unfold bind. destruct (body k l' w') as [[l2|e] w2]; reflexivity.
Qed.

Lemma channel_softmax (logits : Tensor) (k : nat) :
  (k < dimC logits)%nat -> tf.channel (Softmax3 logits) k = Ok (region_mask logits k).
Proof.
  intros Hk. unfold tf.channel.
  replace (k <? dimC (Softmax3 logits))%nat with true
    by (symmetry; apply Nat.ltb_lt; exact Hk).
  reflexivity.
Qed.

Lemma mul_mask_ok (x m : Tensor) :
  dimB m = dimB x -> dimH m = dimH x -> dimW m = dimW x -> dimC m = 1%nat ->
  exists r, tf.mul x m = Ok r /\ shape r = shape x /\
            forall b i j c, (b < dimB x)%nat -> (i < dimH x)%nat ->
                            (j < dimW x)%nat -> (c < dimC x)%nat ->
                            val r b i j c = val x b i j c * val m b i j 0.
Proof.
  intros Hb Hh Hw Hc. unfold tf.mul.
  erewrite (broadcast2_ok Rmult x m (dimB x) (dimH x) (dimW x) (dimC x)).
  - eexists. split; [reflexivity|]. split; [reflexivity|].
    intros b i j c Lb Li Lj Lc. cbn [val].
    rewrite Hb, Hh, Hw, Hc. rewrite !bidx_full by assumption. reflexivity.
  - rewrite Hb; apply bdim_same.
  - rewrite Hh; apply bdim_same.
  - rewrite Hw; apply bdim_same.
  - rewrite Hc; apply bdim_one_r.
Qed.

Section Loop.

Context {E : Collaborators}.

Variable redraw : Tensor -> Tensor -> bool -> M Tensor.
Variable k_self : Z.
Variables batch_images_real batch_masks_logits z_k : Tensor.
Variable training : bool.
Variables B H W C n : nat.

Hypothesis real_shape : shape batch_images_real = (B, H, W, C).
Hypothesis logits_shape : shape batch_masks_logits = (B, H, W, n).

Let body := loop_body redraw k_self batch_images_real batch_masks_logits z_k training.
Let own (k : nat) : bool := (Z.of_nat k =? k_self)%Z.
Let start := mkLocals (tf.zeros (shape batch_images_real)) None.

Lemma region_mask_dims (k : nat) :
  dimB (region_mask batch_masks_logits k) = B /\
  dimH (region_mask batch_masks_logits k) = H /\
  dimW (region_mask batch_masks_logits k) = W /\
  dimC (region_mask batch_masks_logits k) = 1%nat.
Proof.
  apply shape_inv in logits_shape as (Lb & Lh & Lw & Lc). simpl. auto.
Qed.

(** A turn for a region of another class adds the real image under the
    mask of the region, and touches nothing else. *)
Lemma loop_body_other (k : nat) (l : locals) (w : world) :
  (k < n)%nat -> own k = false -> shape (batch_images_fake l) = (B, H, W, C) ->
  exists fake,
    body k l w = (Ok (mkLocals fake (batch_region_k_fake l)), w) /\
    shape fake = (B, H, W, C) /\
    forall b i j c, (b < B)%nat -> (i < H)%nat -> (j < W)%nat -> (c < C)%nat ->
      val fake b i j c
      = val (batch_images_fake l) b i j c
        + val batch_images_real b i j c * val (Softmax3 batch_masks_logits) b i j k.
Proof.
  intros Hk Hown Hl.
  destruct (region_mask_dims k) as (Mb & Mh & Mw & Mc).
  pose proof (shape_inv _ _ _ _ _ real_shape) as (Rb & Rh & Rw & Rc).
  pose proof (shape_inv _ _ _ _ _ logits_shape) as (Lb & Lh & Lw & Lc).
  unfold body, loop_body. fold (own k). rewrite Hown.
  rewrite (bind_lift_ok _ _ _ _ (channel_softmax batch_masks_logits k ltac:(lia))).
  destruct (mul_mask_ok batch_images_real (region_mask batch_masks_logits k))
    as (other & Eo & So & Vo); try congruence.
  rewrite (bind_lift_ok _ _ _ _ Eo).
  destruct (add_same_shape_ok (batch_images_fake l) other) as (fake & Ef & Sf);
    [congruence|].
  destruct (add_same_shape_val (batch_images_fake l) other fake) as (_ & Vf);
    [congruence|exact Ef|].
  rewrite (bind_lift_ok _ _ _ _ Ef).
  exists fake. split; [reflexivity|]. split; [congruence|].
  intros b i j c Hb Hi Hj Hc.
  assert (Sf' : shape fake = (B, H, W, C)) by congruence.
  apply shape_inv in Sf' as (Fb & Fh & Fw & Fc).
  rewrite Vf by congruence. rewrite Vo by congruence. reflexivity.
Qed.

(** The turn of the generator's own class redraws the region, multiplies
    it by the mask, binds [batch_region_k_fake] to the product and adds
    it. *)
Lemma loop_body_own (k : nat) (l : locals) (w w1 : world) (raw : Tensor) :
  (k < n)%nat -> own k = true -> shape (batch_images_fake l) = (B, H, W, C) ->
  redraw z_k (region_mask batch_masks_logits k) training w = (Ok raw, w1) ->
  shape raw = (B, H, W, C) ->
  exists region fake,
    tf.mul raw (region_mask batch_masks_logits k) = Ok region /\
    body k l w = (Ok (mkLocals fake (Some region)), w1) /\
    shape region = (B, H, W, C) /\ shape fake = (B, H, W, C) /\
    (forall b i j c, (b < B)%nat -> (i < H)%nat -> (j < W)%nat -> (c < C)%nat ->
       val region b i j c
       = val raw b i j c * val (Softmax3 batch_masks_logits) b i j k) /\
    forall b i j c, (b < B)%nat -> (i < H)%nat -> (j < W)%nat -> (c < C)%nat ->
      val fake b i j c
      = val (batch_images_fake l) b i j c
        + val raw b i j c * val (Softmax3 batch_masks_logits) b i j k.
Proof.
  intros Hk Hown Hl Hred Hraw.
  destruct (region_mask_dims k) as (Mb & Mh & Mw & Mc).
  pose proof (shape_inv _ _ _ _ _ Hraw) as (Rb & Rh & Rw & Rc).
  unfold body, loop_body. fold (own k). rewrite Hown.
  pose proof (shape_inv _ _ _ _ _ logits_shape) as (Lb & Lh & Lw & Lc).
  rewrite (bind_lift_ok _ _ _ _ (channel_softmax batch_masks_logits k ltac:(lia))).
  rewrite (bind_ok _ _ _ _ _ Hred).
  destruct (mul_mask_ok raw (region_mask batch_masks_logits k))
    as (region & Er & Sr & Vr); try congruence.
  rewrite (bind_lift_ok _ _ _ _ Er).
  destruct (add_same_shape_ok (batch_images_fake l) region) as (fake & Ef & Sf);
    [congruence|].
  destruct (add_same_shape_val (batch_images_fake l) region fake) as (_ & Vf);
    [congruence|exact Ef|].
  rewrite (bind_lift_ok _ _ _ _ Ef).
  exists region, fake. split; [exact Er|]. split; [reflexivity|].
  split; [congruence|]. split; [congruence|].
  assert (Sf' : shape fake = (B, H, W, C)) by congruence.
  apply shape_inv in Sf' as (Fb & Fh & Fw & Fc).
  split; intros b i j c Hb Hi Hj Hc.
  - rewrite Vr by congruence. reflexivity.
  - rewrite Vf by congruence. rewrite Vr by congruence. reflexivity.
Qed.

Lemma start_shape : shape (batch_images_fake start) = (B, H, W, C).
Proof. unfold start. cbn [batch_images_fake]. rewrite real_shape. reflexivity. Qed.

Lemma start_val (b i j c : nat) : val (batch_images_fake start) b i j c = 0.
Proof. unfold start. cbn [batch_images_fake]. rewrite real_shape. reflexivity. Qed.

(** When no turn is the generator's own, the loop leaves
    [batch_region_k_fake] unbound. *)
Lemma loop_without_own (w : world) (m : nat) :
  (forall k, (k < n)%nat -> own k = false) -> (m <= n)%nat ->
  exists fake,
    for_range (seq 0 m) body start w = (Ok (mkLocals fake None), w) /\
    shape fake = (B, H, W, C) /\
    forall b i j c, (b < B)%nat -> (i < H)%nat -> (j < W)%nat -> (c < C)%nat ->
      val fake b i j c
      = composite_val own batch_images_real batch_images_real batch_masks_logits
                      m b i j c.
Proof.
  intros Hno. induction m as [|m IH]; intros Hm.
  - exists (batch_images_fake start). split; [reflexivity|].
    split; [apply start_shape|]. intros. apply start_val.
  - destruct IH as (fake & El & Sl & Vl); [lia|].
    destruct (loop_body_other m (mkLocals fake None) w) as (fake' & Eb & Sb & Vb);
      [lia|apply Hno; lia|exact Sl|].
    exists fake'. rewrite seq_S. rewrite (for_range_snoc _ _ _ _ _ _ _ El).
    split; [exact Eb|]. split; [exact Sb|].
    intros b i j c Hb Hi Hj Hc. rewrite Vb by assumption.
    cbn [batch_images_fake]. rewrite Vl by assumption.
    unfold composite_val. cbn [sumR]. rewrite Hno by lia. reflexivity.
Qed.

(** When turn [s] is the generator's own, the loop binds
    [batch_region_k_fake] to the redrawn region multiplied by its mask, and
    the accumulator holds the composite. *)
Lemma loop_with_own (w w1 : world) (s : nat) (raw : Tensor) :
  (s < n)%nat -> own s = true ->
  redraw z_k (region_mask batch_masks_logits s) training w = (Ok raw, w1) ->
  shape raw = (B, H, W, C) ->
  exists region,
    tf.mul raw (region_mask batch_masks_logits s) = Ok region /\
    shape region = (B, H, W, C) /\
    (forall b i j c, (b < B)%nat -> (i < H)%nat -> (j < W)%nat -> (c < C)%nat ->
       val region b i j c
       = val raw b i j c * val (Softmax3 batch_masks_logits) b i j s) /\
    forall m, (m <= n)%nat ->
      exists fake,
        for_range (seq 0 m) body start w
        = (Ok (mkLocals fake (if (s <? m)%nat then Some region else None)),
           if (s <? m)%nat then w1 else w) /\
        shape fake = (B, H, W, C) /\
        forall b i j c, (b < B)%nat -> (i < H)%nat -> (j < W)%nat -> (c < C)%nat ->
          val fake b i j c
          = composite_val own raw batch_images_real batch_masks_logits m b i j c.
Proof.
  intros Hs Hown Hred Hraw.
  destruct (loop_body_own s start w w1 raw Hs Hown start_shape Hred Hraw)
    as (region & _ & Er & _ & Sr & _ & Vr & _).
  exists region. split; [exact Er|]. split; [exact Sr|]. split; [exact Vr|].
  assert (Hother : forall k, k <> s -> own k = false).
  { intros k Hk. unfold own in *. apply Z.eqb_eq in Hown.
    apply Z.eqb_neq. lia. }
  induction m as [|m IH]; intros Hm.
  - exists (batch_images_fake start). split; [reflexivity|].
    split; [apply start_shape|]. intros. apply start_val.
  - destruct IH as (fake & El & Sl & Vl); [lia|].
    rewrite seq_S. rewrite (for_range_snoc _ _ _ _ _ _ _ El). cbn [Nat.add].
    destruct (Nat.eq_dec m s) as [->|Hne].
    + rewrite Nat.ltb_irrefl.
      replace (s <? S s)%nat with true by (symmetry; apply Nat.ltb_lt; lia).
      destruct (loop_body_own s (mkLocals fake None) w w1 raw Hs Hown Sl Hred Hraw)
        as (region' & fake' & Er' & Eb & _ & Sb & _ & Vb).
      assert (region' = region) by congruence. subst region'.
      exists fake'. split; [exact Eb|]. split; [exact Sb|].
      intros b i j c Hb Hi Hj Hc. rewrite Vb by assumption.
      cbn [batch_images_fake]. rewrite Vl by assumption.
      unfold composite_val. cbn [sumR]. rewrite Hown. reflexivity.
    + destruct (loop_body_other m
                  (mkLocals fake (if (s <? m)%nat then Some region else None))
                  (if (s <? m)%nat then w1 else w))
        as (fake' & Eb & Sb & Vb); [lia|apply Hother; exact Hne|exact Sl|].
      exists fake'.
      replace (s <? S m)%nat with (s <? m)%nat.
      2:{ destruct (Nat.ltb_spec s m), (Nat.ltb_spec s (S m)); try reflexivity; lia. }
      split; [exact Eb|]. split; [exact Sb|].
      intros b i j c Hb Hi Hj Hc. rewrite Vb by assumption.
      cbn [batch_images_fake]. rewrite Vl by assumption.
      unfold composite_val. cbn [sumR]. rewrite (Hother m Hne). reflexivity.
Qed.

End Loop.

(** ** The forward pass of a class generator *)

Lemma sumR_scal_l (n : nat) (f : nat -> R) (r : R) :
  sumR n (fun i => r * f i) = r * sumR n f.
Proof.
  induction n as [|n IH]; simpl; [lra|]. rewrite IH. lra.
Qed.

Section ClassGeneratorProperties.

Context {E : Collaborators}.

Lemma tf_random_normal_run (w : world) (B n_input : nat) :
  tf_random_normal (B, 1, 1, n_input)%nat w
  = (Ok (noise_of w B n_input), after_draw w B n_input).
Proof.
  unfold tf_random_normal, noise_of, after_draw.
  destruct (random_normal (rng w) (B, 1, 1, n_input)%nat). reflexivity.
Qed.

Lemma loop_body_keeps_unbound
      (redraw : Tensor -> Tensor -> bool -> M Tensor) (k_self : Z)
      (real logits z_k : Tensor) (training : bool) (k : nat)
      (l l' : locals) (w w' : world) :
  own_class k_self k = false ->
  loop_body redraw k_self real logits z_k training k l w = (Ok l', w') ->
  batch_region_k_fake l' = batch_region_k_fake l /\ w' = w.
Proof.
  intros Hown. unfold loop_body, own_class in *. rewrite Hown.
  unfold bind, lift, ret.
  destruct (tf.channel (Softmax3 logits) k); [|discriminate].
  destruct (tf.mul real a); [|discriminate].
  destruct (tf.add (batch_images_fake l) a0); [|discriminate].
  intros [= <- <-]. auto.
Qed.

Lemma for_range_keeps_unbound
      (redraw : Tensor -> Tensor -> bool -> M Tensor) (k_self : Z)
      (real logits z_k : Tensor) (training : bool) (ks : list nat) :
  (forall k, In k ks -> own_class k_self k = false) ->
  forall (l l' : locals) (w w' : world),
    batch_region_k_fake l = None ->
    for_range ks (loop_body redraw k_self real logits z_k training) l w = (Ok l', w') ->
    batch_region_k_fake l' = None /\ w' = w.
Proof.
  induction ks as [|k ks IH]; intros Hno l l' w w' Hl; simpl.
  - unfold ret. intros [= <- <-]. auto.
  - unfold bind.
    destruct (loop_body redraw k_self real logits z_k training k l w)
      as [[l1|e] w1] eqn:Eb; [|discriminate].
    destruct (loop_body_keeps_unbound _ _ _ _ _ _ _ _ _ _ _
                (Hno k (or_introl eq_refl)) Eb) as [Hr ->].
    intros Hrest. apply (IH (fun k' Hk' => Hno k' (or_intror Hk')) l1 l' w w');
      [congruence|exact Hrest].
Qed.

Lemma own_class_out_of_range (k_self : Z) (n k : nat) :
  ~ (0 <= k_self < Z.of_nat n)%Z -> (k < n)%nat -> own_class k_self k = false.
Proof. intros Hout Hk. unfold own_class. apply Z.eqb_neq. lia. Qed.

(** With the class index outside the range of the loop the call never
    returns. *)
Lemma ClassGenerator_call_with_never_returns
      (redraw : Tensor -> Tensor -> bool -> M Tensor) (k_self : Z)
      (real logits : Tensor) (n_input : nat) (training : bool) (w : world) :
  ~ (0 <= k_self < Z.of_nat (dimC logits))%Z ->
  exists e,
    ClassGenerator_call_with redraw k_self real logits n_input training w
    = (Raise e, after_draw w (dimB logits) n_input).
Proof.
  intros Hout. unfold ClassGenerator_call_with.
  rewrite (bind_ok _ _ _ _ _ (tf_random_normal_run w (dimB logits) n_input)).
  unfold bind.
  destruct (for_range _ _ _ _) as [[l|e] w'] eqn:Eloop.
  - apply for_range_keeps_unbound in Eloop as [Hr ->]; [|intros k Hk|reflexivity].
    + rewrite Hr. exists UnboundLocalError. reflexivity.
    + apply in_seq in Hk. apply (own_class_out_of_range k_self (dimC logits)); [exact Hout|lia].
  - exists e. f_equal.
    (* the loop raised: no turn had changed the state *)
    revert Eloop. generalize (mkLocals (tf.zeros (shape real)) None).
    assert (Hno : forall k, In k (seq 0 (dimC logits)) -> own_class k_self k = false).
    { intros k Hk. apply in_seq in Hk.
      apply (own_class_out_of_range k_self (dimC logits)); [exact Hout|lia]. }
    revert Hno. generalize (seq 0 (dimC logits)) as ks.
    induction ks as [|k ks IH]; intros Hno l; simpl.
    + discriminate.
    + unfold bind.
      destruct (loop_body redraw k_self real logits (noise_of w (dimB logits) n_input)
                          training k l (after_draw w (dimB logits) n_input))
        as [[l1|e1] w1] eqn:Eb.
      * destruct (loop_body_keeps_unbound _ _ _ _ _ _ _ _ _ _ _
                    (Hno k (or_introl eq_refl)) Eb) as [_ ->].
        apply IH. intros k' Hk'. apply Hno. right. exact Hk'.
      * intros [= _ <-]. revert Eb. unfold loop_body.
        pose proof (Hno k (or_introl eq_refl)) as Hk0. unfold own_class in Hk0.
        rewrite Hk0. unfold bind, lift, ret.
        destruct (tf.channel (Softmax3 logits) k); [|intros [= _ <-]; reflexivity].
        destruct (tf.mul real a); [|intros [= _ <-]; reflexivity].
        destruct (tf.add (batch_images_fake l) a0); [discriminate|].
        intros [= _ <-]; reflexivity.
Qed.

Lemma ClassGenerator_call_with_unbound
      (redraw : Tensor -> Tensor -> bool -> M Tensor) (k_self : Z)
      (real logits : Tensor) (n_input : nat) (training : bool) (w : world)
      (B H W C n : nat) :
  shape real = (B, H, W, C) -> shape logits = (B, H, W, n) ->
  ~ (0 <= k_self < Z.of_nat n)%Z ->
  ClassGenerator_call_with redraw k_self real logits n_input training w
  = (Raise UnboundLocalError, after_draw w B n_input).
Proof.
  intros Hr Hl Hout. unfold ClassGenerator_call_with.
  pose proof (shape_inv _ _ _ _ _ Hl) as (Lb & Lh & Lw & Lc).
  rewrite Lb, Lc.
  rewrite (bind_ok _ _ _ _ _ (tf_random_normal_run w B n_input)).
  destruct (loop_without_own redraw k_self real logits (noise_of w B n_input) training
              B H W C n Hr Hl (after_draw w B n_input) n) as (fake & El & _);
    [intros k Hk; apply (own_class_out_of_range k_self n); assumption|lia|].
  rewrite (bind_ok _ _ _ _ _ El). reflexivity.
Qed.

Lemma ClassGenerator_call_with_own
      (redraw : Tensor -> Tensor -> bool -> M Tensor) (k_self : Z)
      (real logits : Tensor) (n_input : nat) (training : bool) (w w1 : world)
      (B H W C n : nat) (raw : Tensor) :
  shape real = (B, H, W, C) -> shape logits = (B, H, W, n) ->
  (0 <= k_self < Z.of_nat n)%Z ->
  redraw (noise_of w B n_input) (region_mask logits (Z.to_nat k_self)) training
         (after_draw w B n_input) = (Ok raw, w1) ->
  shape raw = (B, H, W, C) ->
  exists region fake,
    tf.mul raw (region_mask logits (Z.to_nat k_self)) = Ok region /\
    ClassGenerator_call_with redraw k_self real logits n_input training w
    = (Ok (fake, region, squeezed (noise_of w B n_input)), w1) /\
    shape region = (B, H, W, C) /\ shape fake = (B, H, W, C) /\
    (forall b i j c, (b < B)%nat -> (i < H)%nat -> (j < W)%nat -> (c < C)%nat ->
       val region b i j c
       = val raw b i j c * val (Softmax3 logits) b i j (Z.to_nat k_self)) /\
    forall b i j c, (b < B)%nat -> (i < H)%nat -> (j < W)%nat -> (c < C)%nat ->
      val fake b i j c
      = composite_val (own_class k_self) raw real logits n b i j c.
Proof.
  intros Hr Hl Hk Hred Hraw. unfold ClassGenerator_call_with.
  pose proof (shape_inv _ _ _ _ _ Hl) as (Lb & Lh & Lw & Lc).
  rewrite Lb, Lc.
  rewrite (bind_ok _ _ _ _ _ (tf_random_normal_run w B n_input)).
  destruct (loop_with_own redraw k_self real logits (noise_of w B n_input) training
              B H W C n Hr Hl (after_draw w B n_input) w1 (Z.to_nat k_self) raw)
    as (region & Er & Sr & Vr & Hloop);
    [lia|apply Z.eqb_eq; lia|exact Hred|exact Hraw|].
  destruct (Hloop n (Nat.le_refl n)) as (fake & El & Sf & Vf).
  replace (Z.to_nat k_self <? n)%nat with true in El
    by (symmetry; apply Nat.ltb_lt; lia).
  rewrite (bind_ok _ _ _ _ _ El). cbn [batch_region_k_fake batch_images_fake].
  exists region, fake. split; [exact Er|]. split; [reflexivity|].
  split; [exact Sr|]. split; [exact Sf|]. split; [exact Vr|exact Vf].
Qed.

(** C9: when the class index of the generator is outside the range of
    the loop, ClassGenerator.call never returns: no turn of the loop binds
    [batch_region_k_fake]; on an image and logits of matching shapes every
    turn succeeds and the return statement raises the unbound-variable
    error. *)
Theorem C9_class_index_out_of_range
        (self : ClassGenerator) (batch_images_real batch_masks_logits : Tensor)
        (n_input : nat) (training : bool) (w : world) :
  let n_regions := dimC batch_masks_logits in
  ~ (0 <= self_k self < Z.of_nat n_regions)%Z ->
  (exists e,
     ClassGenerator_call self batch_images_real batch_masks_logits n_input training w
     = (Raise e, after_draw w (dimB batch_masks_logits) n_input)) /\
  (forall C,
     shape batch_images_real
     = (dimB batch_masks_logits, dimH batch_masks_logits, dimW batch_masks_logits, C) ->
     ClassGenerator_call self batch_images_real batch_masks_logits n_input training w
     = (Raise UnboundLocalError, after_draw w (dimB batch_masks_logits) n_input)).
Proof.
  intros n_regions Hout. split.
  - apply ClassGenerator_call_with_never_returns. exact Hout.
  - intros C Hr.
    apply (ClassGenerator_call_with_unbound _ _ _ _ _ _ _ _ _ _ _ n_regions Hr);
      [reflexivity|exact Hout].
Qed.

(** C3, amended to exact arithmetic: the composite starts from the zero
    tensor of the shape of the real image and adds, class by class, the
    contribution of the class under its mask: the redrawn region for the
    generator's own class, the real image for the others.  If the
    redrawing path returns the real image, the composite is the real
    image when the products and sums are those of the real numbers, the
    probabilities of a pixel summing to one.  The float32 arithmetic of
    generator.py keeps this up to rounding only: see [composite32]. *)
Theorem C3_composite_reconstructs
        (redraw : Tensor -> Tensor -> bool -> M Tensor) (k_self : Z)
        (batch_images_real batch_masks_logits : Tensor) (n_input : nat)
        (training : bool) (w w1 : world) (B H W C n : nat) (raw : Tensor) :
  shape batch_images_real = (B, H, W, C) ->
  shape batch_masks_logits = (B, H, W, n) ->
  (0 <= k_self < Z.of_nat n)%Z ->
  redraw (noise_of w B n_input)
         (region_mask batch_masks_logits (Z.to_nat k_self)) training
         (after_draw w B n_input) = (Ok raw, w1) ->
  shape raw = (B, H, W, C) ->
  exists fake region z,
    ClassGenerator_call_with redraw k_self batch_images_real batch_masks_logits
                             n_input training w = (Ok (fake, region, z), w1) /\
    shape fake = shape batch_images_real /\
    (forall b i j c,
       composite_val (own_class k_self) raw batch_images_real batch_masks_logits
                     0 b i j c = val (tf.zeros (shape batch_images_real)) b i j c) /\
    (forall m b i j c,
       composite_val (own_class k_self) raw batch_images_real batch_masks_logits
                     (S m) b i j c
       = composite_val (own_class k_self) raw batch_images_real batch_masks_logits
                       m b i j c
         + (if own_class k_self m then val raw b i j c
            else val batch_images_real b i j c)
           * val (region_mask batch_masks_logits m) b i j 0) /\
    (forall b i j c, (b < B)%nat -> (i < H)%nat -> (j < W)%nat -> (c < C)%nat ->
       val fake b i j c
       = composite_val (own_class k_self) raw batch_images_real batch_masks_logits
                       n b i j c) /\
    (teq raw batch_images_real -> teq fake batch_images_real).
Proof.
  intros Hr Hl Hk Hred Hraw.
  destruct (ClassGenerator_call_with_own redraw k_self batch_images_real
              batch_masks_logits n_input training w w1 B H W C n raw
              Hr Hl Hk Hred Hraw)
    as (region & fake & _ & Ecall & _ & Sf & _ & Vf).
  exists fake, region, (squeezed (noise_of w B n_input)).
  split; [exact Ecall|]. split; [congruence|].
  split; [intros; rewrite Hr; reflexivity|].
  split; [intros; reflexivity|].
  split; [exact Vf|].
  intros [_ Hsame]. split; [congruence|].
  pose proof (shape_inv _ _ _ _ _ Sf) as (Fb & Fh & Fw & Fc).
  pose proof (shape_inv _ _ _ _ _ Hraw) as (Rb & Rh & Rw & Rc).
  pose proof (shape_inv _ _ _ _ _ Hl) as (Lb & Lh & Lw & Lc).
  intros b i j c Hb Hi Hj Hc.
  rewrite Vf by congruence. unfold composite_val.
  rewrite (sumR_ext n _ (fun k => val batch_images_real b i j c
                                  * val (Softmax3 batch_masks_logits) b i j k)).
  - rewrite sumR_scal_l. rewrite <- Lc.
    rewrite Softmax3_sum by lia. lra.
  - intros k _. destruct (own_class k_self k); [|reflexivity].
    rewrite Hsame by congruence. reflexivity.
Qed.

(** A class generator on a 128x128 image, with its class among the
    regions. *)
Lemma ClassGenerator_call_ok
        (wt : Weights) (k : Z) (bc : nat)
        (batch_images_real batch_masks_logits : Tensor) (n_input : nat)
        (training : bool) (w : world) (B n : nat) :
  attention_keeps_shape E -> bc <> 0%nat ->
  shape batch_images_real = (B, 128, 128, 3)%nat ->
  shape batch_masks_logits = (B, 128%nat, 128%nat, n) ->
  (0 <= k < Z.of_nat n)%Z ->
  let self := ClassGenerator_init wt k bc in
  let z_k := noise_of w B n_input in
  let batch_masks_k := region_mask batch_masks_logits (Z.to_nat k) in
  exists raw w1 region fake,
    redraw_region self z_k batch_masks_k training (after_draw w B n_input)
    = (Ok raw, w1) /\
    tf.mul raw batch_masks_k = Ok region /\
    ClassGenerator_call self batch_images_real batch_masks_logits n_input training w
    = (Ok (fake, region, squeezed z_k), w1) /\
    shape fake = (B, 128, 128, 3)%nat /\
    (forall b i j c, (b < B)%nat -> (i < 128)%nat -> (j < 128)%nat -> (c < 3)%nat ->
       val fake b i j c
       = composite_val (own_class k) raw batch_images_real batch_masks_logits
                       n b i j c) /\
    shape region = (B, 128, 128, 3)%nat /\
    (forall b i j c, (b < B)%nat -> (i < 128)%nat -> (j < 128)%nat -> (c < 3)%nat ->
       val region b i j c = val raw b i j c * val batch_masks_k b i j 0) /\
    rows (squeezed z_k) = B /\ cols (squeezed z_k) = n_input /\
    (forall b c, val2 (squeezed z_k) b c = val z_k b 0%nat 0%nat c).
Proof.
  intros Ha Hbc Hr Hl Hk self z_k batch_masks_k.
  pose proof (shape_inv _ _ _ _ _ Hl) as (Lb & Lh & Lw & Lc).
  destruct (redraw_region_ok wt k bc z_k batch_masks_k training
              (after_draw w B n_input) B Ha Hbc)
    as (_ & _ & raw & w1 & _ & Ered & Sraw & _ & _);
    try reflexivity; try assumption.
  destruct (ClassGenerator_call_with_own (redraw_region self) k batch_images_real
              batch_masks_logits n_input training w w1 B 128 128 3 n raw
              Hr Hl Hk Ered Sraw)
    as (region & fake & Er & Ecall & Sr & Sf & Vr & Vf).
  exists raw, w1, region, fake.
  split; [exact Ered|]. split; [exact Er|]. split; [exact Ecall|].
  split; [exact Sf|]. split; [exact Vf|]. split; [exact Sr|].
  split; [exact Vr|]. repeat split.
Qed.

(** C2 (as the code has it): ClassGenerator.call returns the composite
    image, the output of the redrawn region multiplied by the mask of the
    class, and the sampled noise with its two spatial axes squeezed, of
    shape [B, n_input]. *)
Theorem C2_returned_triple
        (wt : Weights) (k : Z) (bc : nat)
        (batch_images_real batch_masks_logits : Tensor) (n_input : nat)
        (training : bool) (w : world) (B n : nat) :
  attention_keeps_shape E -> bc <> 0%nat ->
  shape batch_images_real = (B, 128, 128, 3)%nat ->
  shape batch_masks_logits = (B, 128%nat, 128%nat, n) ->
  (0 <= k < Z.of_nat n)%Z ->
  let self := ClassGenerator_init wt k bc in
  let z_k := noise_of w B n_input in
  let batch_masks_k := region_mask batch_masks_logits (Z.to_nat k) in
  exists raw w1 region fake,
    redraw_region self z_k batch_masks_k training (after_draw w B n_input)
    = (Ok raw, w1) /\
    tf.mul raw batch_masks_k = Ok region /\
    ClassGenerator_call self batch_images_real batch_masks_logits n_input training w
    = (Ok (fake, region, squeezed z_k), w1) /\
    shape fake = (B, 128, 128, 3)%nat /\
    (forall b i j c, (b < B)%nat -> (i < 128)%nat -> (j < 128)%nat -> (c < 3)%nat ->
       val fake b i j c
       = composite_val (own_class k) raw batch_images_real batch_masks_logits
                       n b i j c) /\
    shape region = (B, 128, 128, 3)%nat /\
    (forall b i j c, (b < B)%nat -> (i < 128)%nat -> (j < 128)%nat -> (c < 3)%nat ->
       val region b i j c = val raw b i j c * val batch_masks_k b i j 0) /\
    rows (squeezed z_k) = B /\ cols (squeezed z_k) = n_input /\
    (forall b c, val2 (squeezed z_k) b c = val z_k b 0%nat 0%nat c).
Proof.
  intros Ha Hbc Hr Hl Hk.
  exact (ClassGenerator_call_ok wt k bc batch_images_real batch_masks_logits n_input
                                training w B n Ha Hbc Hr Hl Hk).
Qed.

End ClassGeneratorProperties.

(** ** The generator *)



Section GeneratorProperties.

Context {E : Collaborators}.

Lemma class_generators_index (wts : nat -> Weights) (n ni bc : nat) (k : Z) :
  (- Z.of_nat n <= k < Z.of_nat n)%Z ->
  let i := Z.to_nat (if (k <? 0)%Z then (k + Z.of_nat n)%Z else k) in
  list_index (class_generators (Generator_init wts n ni bc)) k
  = Ok (ClassGenerator_init (wts i) (Z.of_nat i) bc) /\ (i < n)%nat.
Proof.
  intros Hk i. unfold list_index, Generator_init.
  cbn [class_generators]. rewrite length_map, length_seq.
  fold i.
  assert (Hi : (i < n)%nat) by (unfold i; destruct (k <? 0)%Z eqn:Hneg;
                                [apply Z.ltb_lt in Hneg|apply Z.ltb_ge in Hneg]; lia).
  replace ((0 <=? (if (k <? 0)%Z then (k + Z.of_nat n)%Z else k))
           && ((if (k <? 0)%Z then (k + Z.of_nat n)%Z else k) <? Z.of_nat n))%Z
    with true.
  2:{ symmetry. apply andb_true_intro.
      destruct (k <? 0)%Z eqn:Hneg;
        [apply Z.ltb_lt in Hneg|apply Z.ltb_ge in Hneg];
        split; [apply Z.leb_le|apply Z.ltb_lt|apply Z.leb_le|apply Z.ltb_lt]; lia. }
  rewrite (map_nth_error _ i (seq 0 n) (d := i)); [auto|].
  rewrite (nth_error_nth' _ O) by (rewrite length_seq; exact Hi).
  rewrite seq_nth by exact Hi. reflexivity.
Qed.

(** What Generator.call does once the class generator has returned. *)
Lemma Generator_call_run (self : Generator) (real logits : Tensor) (k : Z)
      (training : bool) (g : gen_world) (cg : ClassGenerator)
      (fake region : Tensor) (z : Tensor2) (w' : world) :
  list_index (class_generators self) k = Ok cg ->
  ClassGenerator_call cg real logits (n_input self) training (fwd g)
  = (Ok (fake, region, z), w') ->
  Generator_call self real logits k false training g
  = (Ok (FakeOnly fake), mkGenWorld w' (info_calls g)) /\
  Generator_call self real logits k true training g
  = (match fst (InformationConservationNetwork_call
                  (information_network self) region k training (layers w')) with
     | Ok z_hat => Ok (FakeAndNoise fake z z_hat)
     | Raise e => Raise e
     end,
     mkGenWorld (mkWorld (rng w')
                         (snd (InformationConservationNetwork_call
                                 (information_network self) region k training
                                 (layers w'))))
                (info_calls g ++ [(region, k, training)])).
Proof.
  intros Hcg Hcall. unfold Generator_call.
  rewrite !(bind_lift_ok _ _ _ _ Hcg).
  assert (Hf : forward (ClassGenerator_call cg real logits (n_input self) training) g
               = (Ok (fake, region, z), mkGenWorld w' (info_calls g))).
  { unfold forward. rewrite Hcall. reflexivity. }
  rewrite !(bind_ok _ _ _ _ _ Hf). split; [reflexivity|].
  unfold bind, information_network_call, ret, lift.
  cbn [fwd info_calls layers rng].
  destruct (InformationConservationNetwork_call (information_network self) region k
                                                training (layers w')) as [[z_hat|e] s];
    reflexivity.
Qed.

(** C1: Generator.call asks the class generator of index [k] for the
    composite, the region and the noise.  With update_generator false it
    returns the composite alone and the information-conservation network
    is not called.  With update_generator true the network is called
    exactly once, on the region the class generator returned, and the
    result is the triple of the composite, the noise and the estimate the
    network returned.  When the class generator raises, so does the call,
    and the network is not called. *)
Theorem C1_generator_call (self : Generator)
        (batch_images_real batch_masks_logits : Tensor) (k : Z)
        (training : bool) (g : gen_world) :
  let run (update_generator : bool) :=
    Generator_call self batch_images_real batch_masks_logits k update_generator
                   training g in
  info_calls (snd (run false)) = info_calls g /\
  match list_index (class_generators self) k with
  | Raise e => forall u, run u = (Raise e, g)
  | Ok cg =>
      match ClassGenerator_call cg batch_images_real batch_masks_logits
                                (n_input self) training (fwd g) with
      | (Raise e, w') => forall u, run u = (Raise e, mkGenWorld w' (info_calls g))
      | (Ok (batch_images_fake, batch_region_fake, batch_z_k), w') =>
          run false = (Ok (FakeOnly batch_images_fake), mkGenWorld w' (info_calls g)) /\
          info_calls (snd (run true))
          = info_calls g ++ [(batch_region_fake, k, training)] /\
          match InformationConservationNetwork_call
                  (information_network self) batch_region_fake k training
                  (layers w') with
          | (Ok batch_z_k_hat, s) =>
              run true
              = (Ok (FakeAndNoise batch_images_fake batch_z_k batch_z_k_hat),
                 mkGenWorld (mkWorld (rng w') s)
                            (info_calls g ++ [(batch_region_fake, k, training)]))
          | (Raise e, s) =>
              run true
              = (Raise e,
                 mkGenWorld (mkWorld (rng w') s)
                            (info_calls g ++ [(batch_region_fake, k, training)]))
          end
      end
  end.
Proof.
  intros run. unfold run.
  destruct (list_index (class_generators self) k) as [cg|e] eqn:Hcg.
  2:{ assert (Hraise : forall u,
                 Generator_call self batch_images_real batch_masks_logits k u training g
                 = (Raise e, g)).
      { intros u. unfold Generator_call. apply bind_raise.
        unfold lift. rewrite Hcg. reflexivity. }
      split; [rewrite Hraise; reflexivity|exact Hraise]. }
  destruct (ClassGenerator_call cg batch_images_real batch_masks_logits
                                (n_input self) training (fwd g))
    as [[[[fake region] z]|e] w'] eqn:Hcall.
  - destruct (Generator_call_run self _ _ k training g cg fake region z w' Hcg Hcall)
      as [Hfalse Htrue].
    rewrite Hfalse, Htrue. split; [reflexivity|]. split; [reflexivity|].
    split; [reflexivity|].
    destruct (InformationConservationNetwork_call (information_network self) region k
                                                  training (layers w'))
      as [[z_hat|e] s]; reflexivity.
  - assert (Hraise : forall u,
               Generator_call self batch_images_real batch_masks_logits k u training g
               = (Raise e, mkGenWorld w' (info_calls g))).
    { intros u. unfold Generator_call. rewrite (bind_lift_ok _ _ _ _ Hcg).
      apply bind_raise. unfold forward. rewrite Hcall. reflexivity. }
    split; [rewrite Hraise; reflexivity|exact Hraise].
Qed.

(** ** Randomness and state of a forward pass *)

Lemma keeps_rng_ret {A : Type} (a : A) : keeps_rng (ret a).
Proof. intros w. reflexivity. Qed.

Lemma keeps_rng_lift {A : Type} (r : Res A) : keeps_rng (lift r).
Proof. intros w. reflexivity. Qed.

Lemma keeps_rng_bind {A B : Type} (m : M A) (f : A -> M B) :
  keeps_rng m -> (forall a, keeps_rng (f a)) -> keeps_rng (bind m f).
Proof.
  intros Hm Hf w. unfold bind. specialize (Hm w).
  destruct (m w) as [[a|e] w1]; cbn [snd] in *.
  - rewrite (Hf a w1). exact Hm.
  - exact Hm.
Qed.

Lemma inference_pure_ret {A : Type} (a : A) : inference_pure (ret a).
Proof. intros w. split; reflexivity. Qed.

Lemma inference_pure_lift {A : Type} (r : Res A) : inference_pure (lift r).
Proof. intros w. split; reflexivity. Qed.

Lemma inference_pure_bind {A B : Type} (m : M A) (f : A -> M B) :
  inference_pure m -> (forall a, inference_pure (f a)) -> inference_pure (bind m f).
Proof.
  intros Hm Hf w. unfold bind.
  destruct (Hm w) as [Hs Hd].
  destruct (m w) as [[a|e] w1] eqn:Em; cbn [fst snd] in *; subst w1.
  - split; [apply (Hf a w)|]. intros w' Hw'.
    specialize (Hd w' Hw'). destruct (Hm w') as [Hs' _].
    destruct (m w') as [[a'|e'] w1']; cbn [fst snd] in *; subst w1'; [|discriminate].
    injection Hd as ->. apply (Hf a w). exact Hw'.
  - split; [reflexivity|]. intros w' Hw'.
    specialize (Hd w' Hw'). destruct (Hm w') as [Hs' _].
    destruct (m w') as [[a'|e'] w1']; cbn [fst snd] in *; [discriminate|].
    injection Hd as ->. reflexivity.
Qed.

Lemma keeps_rng_SpectralNormalization (sn : SpectralNormalization) (x : Tensor)
      (training : bool) : keeps_rng (SpectralNormalization_call sn x training).
Proof. intros w. unfold SpectralNormalization_call. destruct training; reflexivity. Qed.

Lemma inference_pure_SpectralNormalization (sn : SpectralNormalization) (x : Tensor) :
  inference_pure (SpectralNormalization_call sn x false).
Proof.
  intros w. unfold SpectralNormalization_call. split; [reflexivity|].
  intros w' Hw'. cbn [fst]. rewrite Hw'. reflexivity.
Qed.

Lemma keeps_rng_on_layers {A : Type} (f : store -> Res A * store) :
  keeps_rng (on_layers f).
Proof. intros w. unfold on_layers. destruct (f (layers w)). reflexivity. Qed.

Lemma inference_pure_attention (a : SelfAttentionModule) (x : Tensor) :
  attention_inference_pure E ->
  inference_pure (on_layers (SelfAttentionModule_call a x false)).
Proof.
  intros Ha w. unfold on_layers. specialize (Ha a x (layers w)).
  split.
  - destruct (SelfAttentionModule_call a x false (layers w)) as [r s].
    cbn [snd] in *. subst s. destruct w; reflexivity.
  - intros w' Hw'. rewrite Hw'.
    destruct (SelfAttentionModule_call a x false (layers w)). reflexivity.
Qed.

Ltac keeps_rng_steps :=
  cbv zeta;
  repeat first
    [ apply keeps_rng_ret | apply keeps_rng_lift
    | apply keeps_rng_SpectralNormalization | apply keeps_rng_on_layers
    | apply keeps_rng_bind; [|intros ?; cbv zeta] ].

Ltac inference_pure_steps :=
  cbv zeta;
  repeat first
    [ apply inference_pure_ret | apply inference_pure_lift
    | apply inference_pure_SpectralNormalization
    | apply inference_pure_bind; [|intros ?; cbv zeta] ].

Lemma keeps_rng_ResidualUpsamplingBlock (self : ResidualUpsamplingBlock)
      (x z_k masks : Tensor) (training : bool) :
  keeps_rng (ResidualUpsamplingBlock_call self x z_k masks training).
Proof. unfold ResidualUpsamplingBlock_call. keeps_rng_steps. Qed.

Lemma inference_pure_ResidualUpsamplingBlock (self : ResidualUpsamplingBlock)
      (x z_k masks : Tensor) :
  inference_pure (ResidualUpsamplingBlock_call self x z_k masks false).
Proof. unfold ResidualUpsamplingBlock_call. inference_pure_steps. Qed.

Lemma keeps_rng_OutputBlock (self : OutputBlock) (x z_k masks : Tensor)
      (training : bool) : keeps_rng (OutputBlock_call self x z_k masks training).
Proof. unfold OutputBlock_call. keeps_rng_steps. Qed.

Lemma inference_pure_OutputBlock (self : OutputBlock) (x z_k masks : Tensor) :
  inference_pure (OutputBlock_call self x z_k masks false).
Proof. unfold OutputBlock_call. inference_pure_steps. Qed.

Lemma keeps_rng_redraw_region (self : ClassGenerator) (z_k mask : Tensor)
      (training : bool) : keeps_rng (redraw_region self z_k mask training).
Proof.
  unfold redraw_region.
  repeat first
    [ apply keeps_rng_ResidualUpsamplingBlock | apply keeps_rng_OutputBlock
    | apply keeps_rng_lift | apply keeps_rng_on_layers
    | apply keeps_rng_bind; [|intros ?] ].
Qed.

Lemma inference_pure_redraw_region (self : ClassGenerator) (z_k mask : Tensor) :
  attention_inference_pure E ->
  inference_pure (redraw_region self z_k mask false).
Proof.
  intros Ha. unfold redraw_region.
  repeat first
    [ apply inference_pure_ResidualUpsamplingBlock | apply inference_pure_OutputBlock
    | apply inference_pure_lift | apply (inference_pure_attention _ _ Ha)
    | apply inference_pure_bind; [|intros ?] ].
Qed.

Lemma keeps_rng_loop_body (self : ClassGenerator) (real logits z_k : Tensor)
      (training : bool) (k : nat) (l : locals) :
  keeps_rng (loop_body (redraw_region self) (self_k self) real logits z_k training k l).
Proof.
  unfold loop_body. apply keeps_rng_bind; [apply keeps_rng_lift|intros m].
  destruct (Z.of_nat k =? self_k self)%Z.
  - apply keeps_rng_bind; [apply keeps_rng_redraw_region|intros ?].
    keeps_rng_steps.
  - keeps_rng_steps.
Qed.

Lemma inference_pure_loop_body (self : ClassGenerator) (real logits z_k : Tensor)
      (k : nat) (l : locals) :
  attention_inference_pure E ->
  inference_pure (loop_body (redraw_region self) (self_k self) real logits z_k false k l).
Proof.
  intros Ha. unfold loop_body.
  apply inference_pure_bind; [apply inference_pure_lift|intros m].
  destruct (Z.of_nat k =? self_k self)%Z.
  - apply inference_pure_bind; [apply (inference_pure_redraw_region _ _ _ Ha)|intros ?].
    inference_pure_steps.
  - inference_pure_steps.
Qed.

Lemma keeps_rng_for_range (body : nat -> locals -> M locals) (ks : list nat) :
  (forall k l, keeps_rng (body k l)) -> forall l, keeps_rng (for_range ks body l).
Proof.
  intros Hb. induction ks as [|k ks IH]; intros l; simpl.
  - apply keeps_rng_ret.
  - apply keeps_rng_bind; [apply Hb|exact IH].
Qed.

Lemma inference_pure_for_range (body : nat -> locals -> M locals) (ks : list nat) :
  (forall k l, inference_pure (body k l)) ->
  forall l, inference_pure (for_range ks body l).
Proof.
  intros Hb. induction ks as [|k ks IH]; intros l; simpl.
  - apply inference_pure_ret.
  - apply inference_pure_bind; [apply Hb|exact IH].
Qed.

(** What ClassGenerator.call does after the noise draw. *)
Lemma ClassGenerator_call_after_draw (self : ClassGenerator) (real logits : Tensor)
      (n_input : nat) (training : bool) :
  exists rest : Tensor -> M (Tensor * Tensor * Tensor2),
    (forall w, ClassGenerator_call self real logits n_input training w
               = rest (noise_of w (dimB logits) n_input)
                      (after_draw w (dimB logits) n_input)) /\
    (forall z, keeps_rng (rest z)) /\
    (training = false -> attention_inference_pure E ->
     forall z, inference_pure (rest z)).
Proof.
  eexists (fun z_k =>
    l <- for_range (seq 0 (dimC logits))
                   (loop_body (redraw_region self) (self_k self) real logits z_k training)
                   (mkLocals (tf.zeros (shape real)) None) ;;
    match batch_region_k_fake l with
    | None => lift (Raise UnboundLocalError)
    | Some region => z <- lift (tf.squeeze_spatial z_k) ;;
                     ret (batch_images_fake l, region, z)
    end).
  split; [|split].
  - intros w. unfold ClassGenerator_call, ClassGenerator_call_with.
    rewrite (bind_ok _ _ _ _ _ (tf_random_normal_run w (dimB logits) n_input)).
    reflexivity.
  - intros z. apply keeps_rng_bind.
    + apply keeps_rng_for_range. intros k l. apply keeps_rng_loop_body.
    + intros l. destruct (batch_region_k_fake l); keeps_rng_steps.
  - intros -> Ha z. apply inference_pure_bind.
    + apply inference_pure_for_range. intros k l.
      apply inference_pure_loop_body. exact Ha.
    + intros l. destruct (batch_region_k_fake l); inference_pure_steps.
Qed.

(** A call of the generator that does not update it returns what its
    class generator returns. *)
Lemma Generator_call_follows_class_generator
      (gen : Generator) (cg : ClassGenerator) (real logits : Tensor) (k : Z)
      (training : bool) (g g' : gen_world) :
  list_index (class_generators gen) k = Ok cg ->
  fst (ClassGenerator_call cg real logits (n_input gen) training (fwd g'))
  = fst (ClassGenerator_call cg real logits (n_input gen) training (fwd g)) ->
  fst (Generator_call gen real logits k false training g')
  = fst (Generator_call gen real logits k false training g).
Proof.
  intros Hcg Hsame. unfold Generator_call.
  rewrite !(bind_lift_ok _ _ _ _ Hcg).
  unfold bind, forward, ret.
  destruct (ClassGenerator_call cg real logits (n_input gen) training (fwd g'))
    as [[[[f' r'] z']|e'] w1'];
    destruct (ClassGenerator_call cg real logits (n_input gen) training (fwd g))
    as [[[[f r] z]|e] w1]; cbn [fst] in *; try discriminate.
  - injection Hsame as -> -> ->. reflexivity.
  - injection Hsame as ->. reflexivity.
Qed.

(** C8: in inference mode the forward pass of a class generator is a
    function of the state of its layers and of the noise it draws: two
    passes from the same layers that draw the same noise return the same
    result, and a pass leaves the layers as they were; so do two calls of
    the generator that go through this class generator.  In either mode
    the random generator is left where the one draw of the noise left
    it. *)
Theorem C8_inference_pass_is_deterministic
        (self : ClassGenerator) (batch_images_real batch_masks_logits : Tensor)
        (noise_dim : nat) (w w' : world) :
  attention_inference_pure E ->
  layers w' = layers w ->
  noise_of w' (dimB batch_masks_logits) noise_dim
  = noise_of w (dimB batch_masks_logits) noise_dim ->
  fst (ClassGenerator_call self batch_images_real batch_masks_logits noise_dim false w')
  = fst (ClassGenerator_call self batch_images_real batch_masks_logits noise_dim false w)
  /\
  layers (snd (ClassGenerator_call self batch_images_real batch_masks_logits
                                   noise_dim false w)) = layers w /\
  (forall training,
     rng (snd (ClassGenerator_call self batch_images_real batch_masks_logits
                                   noise_dim training w))
     = snd (random_normal (rng w) (dimB batch_masks_logits, 1, 1, noise_dim)%nat)) /\
  (forall (gen : Generator) (k : Z) (calls calls' : list (Tensor * Z * bool)),
     list_index (class_generators gen) k = Ok self ->
     n_input gen = noise_dim ->
     fst (Generator_call gen batch_images_real batch_masks_logits k false false
                         (mkGenWorld w' calls'))
     = fst (Generator_call gen batch_images_real batch_masks_logits k false false
                           (mkGenWorld w calls))).
Proof.
  intros Ha Hlayers Hnoise.
  destruct (ClassGenerator_call_after_draw self batch_images_real batch_masks_logits
                                           noise_dim false)
    as (rest & Hrun & _ & Hpure).
  specialize (Hpure eq_refl Ha).
  assert (Hsame :
    fst (ClassGenerator_call self batch_images_real batch_masks_logits noise_dim false w')
    = fst (ClassGenerator_call self batch_images_real batch_masks_logits noise_dim false w)).
  { rewrite !Hrun, Hnoise.
    apply (Hpure _ (after_draw w (dimB batch_masks_logits) noise_dim)).
    exact Hlayers. }
  split; [exact Hsame|]. split; [|split].
  - rewrite Hrun.
    destruct (Hpure (noise_of w (dimB batch_masks_logits) noise_dim)
                    (after_draw w (dimB batch_masks_logits) noise_dim)) as [-> _].
    reflexivity.
  - intros training.
    destruct (ClassGenerator_call_after_draw self batch_images_real batch_masks_logits
                                             noise_dim training)
      as (rest' & Hrun' & Hrng & _).
    rewrite Hrun', Hrng. reflexivity.
  - intros gen k calls calls' Hcg Hn.
    apply (Generator_call_follows_class_generator gen self); [exact Hcg|].
    cbn [fwd]. rewrite Hn. exact Hsame.
Qed.

End GeneratorProperties.

(** ** Shape and range of the fake image *)

Section FakeImage.

Context {E : Collaborators}.



End FakeImage.

(** ** The properties on the plain instance *)

Lemma Softmax3_example_logits (b i j k : nat) :
  val (Softmax3 example_logits) b i j k = 1 / 2.
Proof.
  unfold example_logits, full. cbn [Softmax3 val dimC sumR].
  rewrite exp_0. lra.
Qed.

Lemma tanh_1_pos : 0 < Rtrigo_def.tanh 1.
Proof.
  unfold Rtrigo_def.tanh, sinh, cosh.
  pose proof (exp_pos 1) as Ha. pose proof (exp_pos (Ropp 1)) as Hb.
  assert (Hlt : exp (Ropp 1) < exp 1) by (apply exp_increasing; lra).
  apply Rdiv_lt_0_compat; lra.
Qed.

(** With a zero kernel and bias one, and the estimate of the singular
    value at one, the output block returns tanh 1 everywhere. *)
Lemma OutputBlock_constant_value (k : Z) (tag bc factor : nat) (x z_k masks y : Tensor)
      (training : bool) (w w' : @world plain_collaborators) :
  @OutputBlock_call plain_collaborators
    (OutputBlock_init (constant_weights 0 1) k tag bc factor) x z_k masks training w
  = (Ok y, w') ->
  forall b i j c, val y b i j c = Rtrigo_def.tanh 1.
Proof.
  unfold OutputBlock_call, bind, lift, ret.
  destruct (ConditionalBatchNormalization_call _ x z_k) as [n1|]; [|discriminate].
  destruct (tf.concat3 _ _) as [cat|]; [|discriminate].
  unfold SpectralNormalization_call.
  assert (Hconv : forall r b i j c,
             conv_val (kernel (rescale (conv_of (constant_weights 0 1) (tag + 2) 3 3 3) r))
                      3 3 cat b i j c = 0).
  { intros r b i j c. unfold conv_val.
    apply sumR_zero; intros di _. apply sumR_zero; intros dj _.
    apply sumR_zero; intros ch _. cbn [kernel rescale conv_of constant_weights conv_kernel].
    lra. }
  destruct training; intros [= <- _] b i j c;
    cbn [val tf.tanh Conv2D_call]; f_equal;
    cbn [sn_layer ob_conv OutputBlock_init kernel_h kernel_w rescale conv_of];
    rewrite Hconv; cbn [bias rescale conv_of constant_weights conv_bias]; lra.
Qed.

Lemma C2_returned_triple_counterexample :
  exists raw w1 fake region z w',
    @redraw_region plain_collaborators
      (ClassGenerator_init (constant_weights 0 1) 0 1)
      (noise_of example_world 1 1) (region_mask example_logits 0) false
      (after_draw example_world 1 1) = (Ok raw, w1) /\
    @ClassGenerator_call plain_collaborators
      (ClassGenerator_init (constant_weights 0 1) 0 1)
      example_real example_logits 1 false example_world
    = (Ok (fake, region, z), w') /\
    val raw 0 0 0 0 = Rtrigo_def.tanh 1 /\
    val region 0 0 0 0 = Rtrigo_def.tanh 1 / 2 /\
    ~ teq region raw.
Proof.
  assert (Ha : attention_keeps_shape plain_collaborators)
    by (intros a x t s; exists x, s; split; reflexivity).
  destruct (@ClassGenerator_call_ok plain_collaborators (constant_weights 0 1) 0 1
              example_real example_logits 1 false example_world 1 2 Ha)
    as (raw & w1 & region & fake & Ered & _ & Ecall & _ & _ & Sr & Vr & _);
    [lia|reflexivity|reflexivity|lia|].
  destruct (@redraw_region_ok plain_collaborators (constant_weights 0 1) 0 1
              (noise_of example_world 1 1) (region_mask example_logits 0) false
              (after_draw example_world 1 1) 1 Ha)
    as (x5 & w5 & raw' & w1' & Eout & Ered' & _); try reflexivity; [lia|].
  change (Z.to_nat 0) with O in Ered.
  assert (raw' = raw) by congruence. subst raw'.
  pose proof (OutputBlock_constant_value _ _ _ _ _ _ _ _ _ _ _ Eout 0 0 0 0)%nat as Hraw.
  assert (Hregion : val region 0 0 0 0 = Rtrigo_def.tanh 1 / 2).
  { rewrite Vr by lia. rewrite Hraw. cbn [region_mask val Z.to_nat].
    change (Z.to_nat 0) with O. rewrite Softmax3_example_logits. lra. }
  exists raw, w1, fake, region, (squeezed (noise_of example_world 1 1)), w1.
  split; [exact Ered|]. split; [exact Ecall|]. split; [exact Hraw|].
  split; [exact Hregion|].
  intros [_ Hsame].
  pose proof (shape_inv _ _ _ _ _ Sr) as (Rb & Rh & Rw & Rc).
  specialize (Hsame 0 0 0 0)%nat. rewrite Rb, Rh, Rw, Rc in Hsame.
  specialize (Hsame ltac:(lia) ltac:(lia) ltac:(lia) ltac:(lia)).
  rewrite Hregion, Hraw in Hsame. pose proof tanh_1_pos. lra.
Qed.


Lemma C9_class_index_out_of_range_witness :
  (exists e,
     @ClassGenerator_call plain_collaborators
       (ClassGenerator_init (constant_weights 0 1) 5 1)
       small_real small_logits 4 true example_world
     = (Raise e, after_draw example_world 1 4)) /\
  (forall C,
     shape small_real = (1, 2, 2, C)%nat ->
     @ClassGenerator_call plain_collaborators
       (ClassGenerator_init (constant_weights 0 1) 5 1)
       small_real small_logits 4 true example_world
     = (Raise UnboundLocalError, after_draw example_world 1 4)).
Proof.
  apply (@C9_class_index_out_of_range plain_collaborators
           (ClassGenerator_init (constant_weights 0 1) 5 1)
           small_real small_logits 4 true example_world).
  simpl. lia.
Defined.

Lemma C3_composite_reconstructs_witness :
  exists fake region z,
    @ClassGenerator_call_with plain_collaborators
      (fun _ _ _ => ret small_real) 1 small_real small_logits 4 true example_world
    = (Ok (fake, region, z), after_draw example_world 1 4) /\
    shape fake = shape small_real /\
    (forall b i j c,
       composite_val (own_class 1) small_real small_real small_logits 0 b i j c
       = val (tf.zeros (shape small_real)) b i j c) /\
    (forall m b i j c,
       composite_val (own_class 1) small_real small_real small_logits (S m) b i j c
       = composite_val (own_class 1) small_real small_real small_logits m b i j c
         + (if own_class 1 m then val small_real b i j c
            else val small_real b i j c)
           * val (region_mask small_logits m) b i j 0) /\
    (forall b i j c, (b < 1)%nat -> (i < 2)%nat -> (j < 2)%nat -> (c < 3)%nat ->
       val fake b i j c
       = composite_val (own_class 1) small_real small_real small_logits 2 b i j c) /\
    (teq small_real small_real -> teq fake small_real).
Proof.
  apply (@C3_composite_reconstructs plain_collaborators
           (fun _ _ _ => ret small_real) 1 small_real small_logits 4 true
           example_world (after_draw example_world 1 4) 1 2 2 3 2 small_real).
  - reflexivity.
  - reflexivity.
  - simpl. lia.
  - reflexivity.
  - reflexivity.
Defined.

Lemma C2_returned_triple_witness :
  let self := ClassGenerator_init (constant_weights 0 1) 0 1 in
  let z_k := noise_of example_world 1 4 in
  let batch_masks_k := region_mask example_logits (Z.to_nat 0) in
  exists raw w1 region fake,
    @redraw_region plain_collaborators self z_k batch_masks_k true
                   (after_draw example_world 1 4) = (Ok raw, w1) /\
    tf.mul raw batch_masks_k = Ok region /\
    @ClassGenerator_call plain_collaborators self example_real example_logits 4 true
                         example_world
    = (Ok (fake, region, squeezed z_k), w1) /\
    shape fake = (1, 128, 128, 3)%nat /\
    (forall b i j c, (b < 1)%nat -> (i < 128)%nat -> (j < 128)%nat -> (c < 3)%nat ->
       val fake b i j c
       = composite_val (own_class 0) raw example_real example_logits 2 b i j c) /\
    shape region = (1, 128, 128, 3)%nat /\
    (forall b i j c, (b < 1)%nat -> (i < 128)%nat -> (j < 128)%nat -> (c < 3)%nat ->
       val region b i j c = val raw b i j c * val batch_masks_k b i j 0) /\
    rows (squeezed z_k) = 1%nat /\ cols (squeezed z_k) = 4%nat /\
    (forall b c, val2 (squeezed z_k) b c = val z_k b 0%nat 0%nat c).
Proof.
  apply (@C2_returned_triple plain_collaborators (constant_weights 0 1) 0 1
           example_real example_logits 4 true example_world 1 2).
  - intros a x t s. exists x, s. split; reflexivity.
  - lia.
  - reflexivity.
  - reflexivity.
  - simpl. lia.
Defined.


Lemma C5_residual_upsampling_block_witness :
  let x := full (1, 4, 4, 16)%nat 1 in
  let z_k := full (1, 1, 1, 2)%nat 1 in
  let masks := full (1, 128, 128, 1)%nat 1 in
  let self := ResidualUpsamplingBlock_init (constant_weights 1 0) 0 2 1 16 8 32 in
  let Cin := (1 * 16)%nat in
  let Cout := (1 * 8)%nat in
  (@ResidualUpsamplingBlock_call plain_collaborators self x z_k masks true example_world
   = main_plus_identity self x z_k masks true example_world) /\
  (let conv l := (filters (sn_layer l), kernel_h (sn_layer l), kernel_w (sn_layer l)) in
   conv (conv_1 self) = (Cout, 3%nat, 3%nat) /\
   conv (conv_2 self) = (Cout, 3%nat, 3%nat) /\
   conv (process_identity self) = (Cout, 1%nat, 1%nat)) /\
  (exists normalized pooled fused,
     ConditionalBatchNormalization_call (cbn_1 self) x z_k = Ok normalized /\
     AveragePooling2D 32 masks = Ok pooled /\
     shape pooled = (1, 4, 4, 1)%nat /\
     tf.concat3 (ReLU normalized) pooled = Ok fused /\
     shape fused = (1%nat, 4%nat, 4%nat, (Cin + 1)%nat) /\
     shape (UpSampling2D fused)
     = (1%nat, (2 * 4)%nat, (2 * 4)%nat, (Cin + 1)%nat)) /\
  (exists idt main y w1 w2,
     identity_path self x true example_world = (Ok idt, w1) /\
     main_path self x z_k masks true w1 = (Ok main, w2) /\
     ResidualUpsamplingBlock_call self x z_k masks true example_world = (Ok y, w2) /\
     shape y = (1%nat, (2 * 4)%nat, (2 * 4)%nat, Cout) /\
     shape main = shape y /\ shape idt = shape y /\
     forall b i j c, (b < 1)%nat -> (i < 2 * 4)%nat -> (j < 2 * 4)%nat ->
                     (c < Cout)%nat ->
                     val y b i j c = val main b i j c + val idt b i j c).
Proof.
  apply (@C5_residual_upsampling_block plain_collaborators (constant_weights 1 0)
           0 2 1 16 8 32 (full (1, 4, 4, 16)%nat 1) (full (1, 1, 1, 2)%nat 1)
           (full (1, 128, 128, 1)%nat 1) true 1 4 4 2 128 128 example_world).
  - reflexivity.
  - reflexivity.
  - reflexivity.
  - lia.
  - reflexivity.
  - reflexivity.
Defined.

Lemma C8_inference_pass_is_deterministic_witness :
  let self := ClassGenerator_init (constant_weights 0 1) 0 1 in
  fst (@ClassGenerator_call plain_collaborators self example_real example_logits 4
                            false example_world')
  = fst (@ClassGenerator_call plain_collaborators self example_real example_logits 4
                              false example_world) /\
  layers (snd (@ClassGenerator_call plain_collaborators self example_real
                                    example_logits 4 false example_world))
  = layers example_world /\
  (forall training,
     rng (snd (@ClassGenerator_call plain_collaborators self example_real
                                    example_logits 4 training example_world))
     = snd (@random_normal plain_collaborators (rng example_world) (1, 1, 1, 4)%nat)) /\
  (forall (gen : @Generator plain_collaborators) (k : Z)
          (calls calls' : list (Tensor * Z * bool)),
     list_index (class_generators gen) k = Ok self ->
     n_input gen = 4%nat ->
     fst (Generator_call gen example_real example_logits k false false
                         (mkGenWorld example_world' calls'))
     = fst (Generator_call gen example_real example_logits k false false
                           (mkGenWorld example_world calls))).
Proof.
  apply (@C8_inference_pass_is_deterministic plain_collaborators
           (ClassGenerator_init (constant_weights 0 1) 0 1)
           example_real example_logits 4 example_world example_world').
  - intros a x s. reflexivity.
  - reflexivity.
  - reflexivity.
Defined.

(** ** Rounding in the composite *)

(** With three classes of equal logits every mask is the float32 nearest
    to 1/3, the three masks add up to 1 without error, and yet the three
    rounded products of the pixel 13421773 * 2^-27 (0.1 in float32) add
    up to 13421774 * 2^-27. *)
Lemma level_logits_masks (exp32 : spec_float -> spec_float) (k : nat) :
  exp32 float32.zero = float32.one ->
  val32 (Softmax3_32 exp32 level_logits) 0 0 0 k = S754_finite false 11184811 (-25).
Proof.
  intros H0. cbn [val32 Softmax3_32 level_logits dimC32 sum32].
  rewrite H0. vm_compute. reflexivity.
Qed.

Lemma level_logits_masks_sum (exp32 : spec_float -> spec_float) :
  exp32 float32.zero = float32.one ->
  sum32 3 (fun k => val32 (Softmax3_32 exp32 level_logits) 0 0 0 k) = float32.one.
Proof.
  intros H0. cbn [sum32]. rewrite !level_logits_masks by exact H0.
  vm_compute. reflexivity.
Qed.

Lemma composite32_level_logits (exp32 : spec_float -> spec_float) (k_self : Z) :
  exp32 float32.zero = float32.one ->
  val32 (composite32 exp32 (fun _ => tenth_image) k_self tenth_image level_logits)
        0 0 0 0
  = S754_finite false 13421774 (-27).
Proof.
  intros H0. unfold composite32.
  cbn [dimC32 level_logits seq fold_left].
  unfold loop_body32.
  assert (Hturn : forall k fake,
            val32 (if (Z.of_nat k =? k_self)%Z
                   then tf32.add fake
                          (tf32.mul tenth_image
                             (tf32.channel (Softmax3_32 exp32 level_logits) k))
                   else tf32.add fake
                          (tf32.mul tenth_image
                             (tf32.channel (Softmax3_32 exp32 level_logits) k)))
                  0 0 0 0
            = float32.add (val32 fake 0 0 0 0)
                          (S754_finite false 8947849 (-28))).
  { intros k fake.
    destruct (Z.of_nat k =? k_self)%Z;
      cbn [val32 tf32.add tf32.mul tf32.channel];
      rewrite (level_logits_masks exp32 k H0); vm_compute (float32.mul _ _); reflexivity. }
  cbv zeta. rewrite !Hturn. vm_compute. reflexivity.
Qed.

(** C3, as stated, fails in float32: one pixel of value 0.1 and three
    classes of equal logits, the redrawing path returning the real image.
    Whatever the exponential, as long as it gives 1 at 0, the composite
    holds 13421774 * 2^-27 where the real image holds 13421773 * 2^-27. *)
Lemma C3_composite_reconstructs_counterexample :
  ~ exists exp32 : spec_float -> spec_float,
      exp32 float32.zero = float32.one /\
      val32 (composite32 exp32 (fun _ => tenth_image) 1 tenth_image level_logits)
            0 0 0 0
      = val32 tenth_image 0 0 0 0.
Proof.
  intros (exp32 & H0 & Hsame).
  rewrite (composite32_level_logits exp32 1 H0) in Hsame.
  vm_compute in Hsame. discriminate Hsame.
Qed.

(** * Further properties of the layers *)

(** ** Conditional batch normalization: channels and statistics *)









Lemma bdim_raise (a b : nat) :
  a <> b -> a <> 1%nat -> b <> 1%nat -> tf.bdim a b = Raise ShapeError.
Proof.
  intros Hab Ha Hb. unfold tf.bdim.
  destruct (Nat.eqb_spec a b); [contradiction|].
  destruct (Nat.eqb_spec a 1); [contradiction|].
  destruct (Nat.eqb_spec b 1); [contradiction|reflexivity].
Qed.

Lemma bdim_cases (a b : nat) :
  (exists d, tf.bdim a b = Ok d) \/ tf.bdim a b = Raise ShapeError.
Proof.
  unfold tf.bdim.
  destruct (a =? b)%nat; [eauto|].
  destruct (a =? 1)%nat; [eauto|].
  destruct (b =? 1)%nat; eauto.
Qed.

Lemma broadcast2_raise (f : R -> R -> R) (x y : Tensor) :
  tf.bdim (dimB x) (dimB y) = Raise ShapeError \/
  tf.bdim (dimH x) (dimH y) = Raise ShapeError \/
  tf.bdim (dimW x) (dimW y) = Raise ShapeError \/
  tf.bdim (dimC x) (dimC y) = Raise ShapeError ->
  tf.broadcast2 f x y = Raise ShapeError.
Proof.
  unfold tf.broadcast2. intros H.
  destruct (bdim_cases (dimB x) (dimB y)) as [[b Hb]|Hb]; rewrite Hb; [|reflexivity].
  destruct (bdim_cases (dimH x) (dimH y)) as [[h Hh]|Hh]; rewrite Hh; [|reflexivity].
  destruct (bdim_cases (dimW x) (dimW y)) as [[w Hw]|Hw]; rewrite Hw; [|reflexivity].
  destruct (bdim_cases (dimC x) (dimC y)) as [[c Hc]|Hc]; rewrite Hc; [|reflexivity].
  destruct H as [H|[H|[H|H]]]; congruence.
Qed.

(** The layer multiplies and adds under broadcasting, so the number of
    filters need not be the number of channels: a feature map of one
    channel is widened to the filters, one filter serves every channel,
    and any other mismatch is a shape error. *)
Theorem cbn_channel_broadcast
        (wt : Weights) (tag f : nat) (x z_k : Tensor) (B H W C n : nat) :
  shape x = (B, H, W, C) -> shape z_k = (B, 1%nat, 1%nat, n) ->
  let self := ConditionalBatchNormalization_init wt tag f in
  if ((f =? C) || (f =? 1) || (C =? 1))%nat
  then exists y, ConditionalBatchNormalization_call self x z_k = Ok y /\
                 shape y = (B, H, W, if (f =? 1)%nat then C else f)
  else ConditionalBatchNormalization_call self x z_k = Raise ShapeError.
Proof.
  intros Hx Hz self.
  apply shape_inv in Hx as (Xb & Xh & Xw & Xc).
  apply shape_inv in Hz as (Zb & Zh & Zw & Zc).
  unfold ConditionalBatchNormalization_call, tf.mul, tf.add.
  set (g := Conv2D_call (gamma self) z_k).
  set (bt := Conv2D_call (beta self) z_k).
  set (xn := LayerNormalization12 x).
  assert (Gd : dimB g = B /\ dimH g = 1%nat /\ dimW g = 1%nat /\ dimC g = f)
    by (cbn; auto).
  assert (Bd : dimB bt = B /\ dimH bt = 1%nat /\ dimW bt = 1%nat /\ dimC bt = f)
    by (cbn; auto).
  assert (Nd : dimB xn = B /\ dimH xn = H /\ dimW xn = W /\ dimC xn = C)
    by (cbn; auto).
  destruct Gd as (Gb & Gh & Gw & Gc). destruct Bd as (Bb & Bh & Bw & Bc).
  destruct Nd as (Nb & Nh & Nw & Nc).
  assert (Hok : forall c1, tf.bdim f C = Ok c1 -> tf.bdim c1 f = Ok c1 ->
            exists y,
              res_bind (tf.broadcast2 Rmult g xn)
                       (fun gx => tf.broadcast2 Rplus gx bt) = Ok y /\
              shape y = (B, H, W, c1)).
  { intros c1 H1 H2.
    erewrite (broadcast2_ok Rmult g xn B H W c1);
      [|rewrite Gb, Nb; apply bdim_same|rewrite Gh, Nh; apply bdim_one_l
       |rewrite Gw, Nw; apply bdim_one_l|rewrite Gc, Nc; exact H1].
    cbn [res_bind].
    erewrite (broadcast2_ok Rplus _ bt B H W c1);
      [|cbn [dimB]; rewrite Bb; apply bdim_same
       |cbn [dimH]; rewrite Bh; apply bdim_one_r
       |cbn [dimW]; rewrite Bw; apply bdim_one_r
       |cbn [dimC]; rewrite Bc; exact H2].
    eexists. split; reflexivity. }
  destruct (Nat.eqb_spec f C) as [->|Hfc]; cbn [orb].
  - destruct (Hok C (bdim_same C) (bdim_same C)) as (y & Hy & Sy).
    exists y. split; [exact Hy|].
    destruct (Nat.eqb_spec C 1); exact Sy.
  - destruct (Nat.eqb_spec f 1) as [->|Hf1]; cbn [orb].
    + apply (Hok C (bdim_one_l C) (bdim_one_r C)).
    + destruct (Nat.eqb_spec C 1) as [->|Hc1].
      * apply (Hok f (bdim_one_r f) (bdim_same f)).
      * rewrite (broadcast2_raise Rmult g xn); [reflexivity|].
        right. right. right. rewrite Gc, Nc. apply bdim_raise; assumption.
Qed.

Lemma cbn_channel_broadcast_witness :
  let self := ConditionalBatchNormalization_init (constant_weights 2 3) 0 5 in
  if ((5 =? 1) || (5 =? 1) || (1 =? 1))%nat
  then exists y,
      ConditionalBatchNormalization_call self (two_elements 2 2 1 3 7)
                                         (full (2, 1, 1, 1)%nat 1) = Ok y /\
      shape y = (2, 2, 2, if (5 =? 1)%nat then 1 else 5)%nat
  else ConditionalBatchNormalization_call self (two_elements 2 2 1 3 7)
                                          (full (2, 1, 1, 1)%nat 1)
       = Raise ShapeError.
Proof.
  apply (cbn_channel_broadcast (constant_weights 2 3) 0 5 (two_elements 2 2 1 3 7)
           (full (2, 1, 1, 1)%nat 1) 2 2 2 1 1).
  - reflexivity.
  - reflexivity.
Defined.

(** ** The input block: layout of the grid *)

Lemma reshape_val (x r : Tensor) (h w c : nat) :
  tf.reshape x h w c = Ok r ->
  val r = fun b i j k =>
            let f := (((b * h + i) * w + j) * c + k)%nat in
            let f1 := (f / dimC x)%nat in
            let f2 := (f1 / dimW x)%nat in
            val x (f2 / dimH x)%nat (f2 mod dimH x)%nat (f1 mod dimW x)%nat
                  (f mod dimC x)%nat.
Proof.
  unfold tf.reshape.
  destruct (h * w * c =? 0)%nat; [discriminate|].
  destruct (_ mod _ =? 0)%nat; [|discriminate].
  intros [= <-]. reflexivity.
Qed.

(** The fully-connected layer yields output_channels * 16 units per
    batch element; the reshape lays them out row by row, the channel
    running fastest: unit (4 i + j) * output_channels + c lands at row i,
    column j, channel c of the same batch element.  After the rectifier
    no element of the grid is negative. *)
Theorem input_block_grid_layout
        (wt : Weights) (tag base_channels output_factor : nat)
        (z_k : Tensor) (B n : nat) :
  shape z_k = (B, 1%nat, 1%nat, n) ->
  (base_channels * output_factor)%nat <> 0%nat ->
  let self := InputBlock_init wt tag base_channels output_factor in
  let output_channels := (base_channels * output_factor)%nat in
  let projected := Dense_call (ib_dense self) z_k in
  exists grid normalized,
    tf.reshape projected 4 4 output_channels = Ok grid /\
    (forall b i j c, (b < B)%nat -> (i < 4)%nat -> (j < 4)%nat ->
                     (c < output_channels)%nat ->
       val grid b i j c
       = val projected b 0 0 ((4 * i + j) * output_channels + c)%nat) /\
    ConditionalBatchNormalization_call (ib_cbn self) grid z_k = Ok normalized /\
    InputBlock_call self z_k = Ok (ReLU normalized) /\
    forall b i j c, 0 <= val (ReLU normalized) b i j c.
Proof.
  intros Hz Hoc self oc projected.
  apply shape_inv in Hz as (Zb & Zh & Zw & Zc).
  pose proof (reshape_spec projected 4 4 oc) as Hr.
  change (dimB projected) with (dimB z_k) in Hr.
  change (dimH projected) with (dimH z_k) in Hr.
  change (dimW projected) with (dimW z_k) in Hr.
  change (dimC projected) with (oc * 4 * 4)%nat in Hr.
  rewrite Zb, Zh, Zw, reshape_fits_projection in Hr.
  replace (B * 1 * 1 * (oc * 4 * 4))%nat with (B * (4 * 4 * oc))%nat in Hr by lia.
  rewrite Nat.div_mul in Hr by lia.
  destruct (tf.reshape projected 4 4 oc) as [grid|e] eqn:Eg.
  2:{ destruct Hr as [_ Hr]. destruct (Nat.eqb_spec oc 0); [contradiction|discriminate]. }
  destruct Hr as [_ Hg]. apply shape_inv in Hg as (Gb & Gh & Gw & Gc).
  destruct (ConditionalBatchNormalization_call_ok (ib_cbn self) grid z_k)
    as (y & Hy & Hys); try congruence; try (rewrite Gc; reflexivity).
  exists grid, y. split; [reflexivity|]. split; [|split; [exact Hy|split]].
  - intros b i j c Hb Hi Hj Hc.
    rewrite (reshape_val _ _ _ _ _ Eg). cbv zeta.
    change (dimC projected) with (oc * 4 * 4)%nat.
    change (dimW projected) with (dimW z_k). change (dimH projected) with (dimH z_k).
    rewrite Zh, Zw.
    assert (Hr : ((4 * i + j) * oc + c < oc * 4 * 4)%nat) by nia.
    assert (Hf : (((b * 4 + i) * 4 + j) * oc + c
                  = (oc * 4 * 4) * b + ((4 * i + j) * oc + c))%nat) by nia.
    rewrite <- (Nat.div_unique _ _ _ _ Hr Hf), <- (Nat.mod_unique _ _ _ _ Hr Hf).
    rewrite !Nat.div_1_r, !Nat.mod_1_r. reflexivity.
  - unfold InputBlock_call. fold projected.
    change (ib_output_channels self) with oc. rewrite Eg. cbn [res_bind].
    rewrite Hy. reflexivity.
  - intros b i j c. cbn [val ReLU]. apply Rmax_l.
Qed.

Lemma input_block_grid_layout_witness :
  let self := InputBlock_init (constant_weights 1 0) 0 2 3 in
  let output_channels := (2 * 3)%nat in
  let projected := Dense_call (ib_dense self) (full (5, 1, 1, 7)%nat 1) in
  exists grid normalized,
    tf.reshape projected 4 4 output_channels = Ok grid /\
    (forall b i j c, (b < 5)%nat -> (i < 4)%nat -> (j < 4)%nat ->
                     (c < output_channels)%nat ->
       val grid b i j c
       = val projected b 0 0 ((4 * i + j) * output_channels + c)%nat) /\
    ConditionalBatchNormalization_call (ib_cbn self) grid (full (5, 1, 1, 7)%nat 1)
    = Ok normalized /\
    InputBlock_call self (full (5, 1, 1, 7)%nat 1) = Ok (ReLU normalized) /\
    forall b i j c, 0 <= val (ReLU normalized) b i j c.
Proof.
  apply (input_block_grid_layout (constant_weights 1 0) 0 2 3
           (full (5, 1, 1, 7)%nat 1) 5 7).
  - reflexivity.
  - simpl. lia.
Defined.

(** ** Masks that do not fit *)

Lemma concat3_raise (x y : Tensor) :
  ((dimB x =? dimB y) && (dimH x =? dimH y) && (dimW x =? dimW y))%nat = false ->
  tf.concat3 x y = Raise ShapeError.
Proof. intros H. unfold tf.concat3. rewrite H. reflexivity. Qed.

Section MaskFit.

Context {E : Collaborators}.

Lemma OutputBlock_call_by_mask
      (wt : Weights) (owner : Z) (tag base_channels output_factor : nat)
      (x z_k masks : Tensor) (training : bool) (w : world) (B H W n : nat) :
  shape x = (B, H, W, (base_channels * output_factor)%nat) ->
  shape z_k = (B, 1%nat, 1%nat, n) ->
  let self := OutputBlock_init wt owner tag base_channels output_factor in
  if ((dimB masks =? B) && (dimH masks =? H) && (dimW masks =? W))%nat
  then exists y w',
      OutputBlock_call self x z_k masks training w = (Ok y, w') /\
      shape y = (B, H, W, 3%nat) /\
      (forall b i j c, -1 <= val y b i j c <= 1) /\
      rng w' = rng w /\ (training = false -> w' = w)
  else OutputBlock_call self x z_k masks training w = (Raise ShapeError, w).
Proof.
  intros Hx Hz self.
  apply shape_inv in Hx as (Xb & Xh & Xw & Xc).
  apply shape_inv in Hz as (Zb & Zh & Zw & Zc).
  destruct ((dimB masks =? B) && (dimH masks =? H) && (dimW masks =? W))%nat eqn:Hfit.
  - apply andb_prop in Hfit as [Hfit Mw]. apply andb_prop in Hfit as [Mb Mh].
    apply Nat.eqb_eq in Mb, Mh, Mw.
    destruct (OutputBlock_call_ok self x z_k masks training w)
      as (y & w' & Ey & Sy & Vy & Ry & Iy); try congruence;
      try (rewrite Xc; reflexivity).
    exists y, w'. split; [exact Ey|]. split; [|auto].
    rewrite Sy, Xb, Xh, Xw. reflexivity.
  - unfold OutputBlock_call.
    destruct (ConditionalBatchNormalization_call_ok (ob_cbn self) x z_k)
      as (n1 & En1 & Sn1); try congruence; try (rewrite Xc; reflexivity).
    rewrite (bind_lift_ok _ _ _ _ En1).
    apply shape_inv in Sn1 as (Nb & Nh & Nw & Nc).
    apply bind_raise. unfold lift. rewrite concat3_raise; [reflexivity|].
    unfold tf.cast_float32. cbn [dimB dimH dimW ReLU].
    rewrite Nb, Nh, Nw, Xb, Xh, Xw.
    rewrite (Nat.eqb_sym B), (Nat.eqb_sym H), (Nat.eqb_sym W). exact Hfit.
Qed.

Lemma main_path_raise (self : ResidualUpsamplingBlock)
      (x z_k masks : Tensor) (training : bool) (w : world) :
  dimB z_k = dimB x -> dimH z_k = 1%nat -> dimW z_k = 1%nat ->
  filters (gamma (cbn_1 self)) = dimC x -> filters (beta (cbn_1 self)) = dimC x ->
  (negb (mask_pool self =? 0) && (dimB masks =? dimB x)
   && (pool_out (dimH masks) (mask_pool self) =? dimH x)
   && (pool_out (dimW masks) (mask_pool self) =? dimW x))%nat = false ->
  main_path self x z_k masks training w = (Raise ShapeError, w).
Proof.
  intros Zb Zh Zw Hg Hb Hfit. unfold main_path.
  destruct (ConditionalBatchNormalization_call_ok (cbn_1 self) x z_k)
    as (n1 & En1 & Sn1); try assumption.
  rewrite (bind_lift_ok _ _ _ _ En1).
  apply shape_inv in Sn1 as (Nb & Nh & Nw & Nc).
  destruct (Nat.eqb_spec (mask_pool self) 0) as [Hs|Hs].
  - apply bind_raise. unfold lift, AveragePooling2D. rewrite Hs. reflexivity.
  - destruct (AveragePooling2D_ok (mask_pool self) masks Hs) as (pooled & Ep & Sp).
    rewrite (bind_lift_ok _ _ _ _ Ep).
    apply shape_inv in Sp as (Pb & Ph & Pw & Pc).
    apply bind_raise. unfold lift. rewrite concat3_raise; [reflexivity|].
    cbn [dimB dimH dimW ReLU]. rewrite Nb, Nh, Nw, Pb, Ph, Pw.
    cbn [negb andb] in Hfit.
    rewrite (Nat.eqb_sym (dimB x)), (Nat.eqb_sym (dimH x)), (Nat.eqb_sym (dimW x)).
    exact Hfit.
Qed.

Lemma ResidualUpsamplingBlock_call_by_mask
      (wt : Weights) (owner : Z)
      (tag base_channels input_factor output_factor mask_scale : nat)
      (x z_k masks : Tensor) (training : bool) (w : world) (B H W n : nat) :
  shape x = (B, H, W, (base_channels * input_factor)%nat) ->
  shape z_k = (B, 1%nat, 1%nat, n) ->
  let self := ResidualUpsamplingBlock_init wt owner tag base_channels input_factor
                                           output_factor mask_scale in
  exists idt w1,
    identity_path self x training w = (Ok idt, w1) /\
    if (negb (mask_scale =? 0) && (dimB masks =? B)
        && (pool_out (dimH masks) mask_scale =? H)
        && (pool_out (dimW masks) mask_scale =? W))%nat
    then exists y w',
        ResidualUpsamplingBlock_call self x z_k masks training w = (Ok y, w') /\
        shape y = (B, (2 * H)%nat, (2 * W)%nat, (base_channels * output_factor)%nat) /\
        rng w' = rng w
    else ResidualUpsamplingBlock_call self x z_k masks training w
         = (Raise ShapeError, w1).
Proof.
  intros Hx Hz self.
  pose proof (shape_inv _ _ _ _ _ Hx) as (Xb & Xh & Xw & Xc).
  pose proof (shape_inv _ _ _ _ _ Hz) as (Zb & Zh & Zw & Zc).
  destruct (identity_path_ok self x training w) as (idt & w1 & E1 & _ & _ & _).
  exists idt, w1. split; [exact E1|].
  destruct (negb (mask_scale =? 0) && (dimB masks =? B)
            && (pool_out (dimH masks) mask_scale =? H)
            && (pool_out (dimW masks) mask_scale =? W))%nat eqn:Hfit.
  - apply andb_prop in Hfit as [Hfit Mw]. apply andb_prop in Hfit as [Hfit Mh].
    apply andb_prop in Hfit as [Hs Mb].
    apply Nat.eqb_eq in Mb, Mh, Mw.
    destruct (Nat.eqb_spec mask_scale 0) as [|Hs0]; [discriminate|].
    destruct (ResidualUpsamplingBlock_init_call_ok wt owner tag base_channels
                input_factor output_factor mask_scale x z_k masks training w B H W)
      as (y & w' & Ey & Sy & Ry & _); try assumption.
    exists y, w'. auto.
  - rewrite ResidualUpsamplingBlock_call_sum. unfold main_plus_identity.
    rewrite (bind_ok _ _ _ _ _ E1). apply bind_raise.
    apply main_path_raise; try congruence; try (rewrite Xc; reflexivity).
    rewrite Xb, Xh, Xw. exact Hfit.
Qed.

End MaskFit.

Section FixedResolution.

Context {E : Collaborators}.

(** The output block takes a mask of exactly the batch size, height and
    width of its feature map: then it returns an image of three channels
    with every element in [-1, 1], whatever the weights and the mode;
    otherwise the concatenation raises a shape error and the state is
    untouched. *)
Theorem output_block_by_mask
      (wt : Weights) (owner : Z) (tag base_channels output_factor : nat)
      (x z_k masks : Tensor) (training : bool) (w : world) (B H W n : nat) :
  shape x = (B, H, W, (base_channels * output_factor)%nat) ->
  shape z_k = (B, 1%nat, 1%nat, n) ->
  let self := OutputBlock_init wt owner tag base_channels output_factor in
  if ((dimB masks =? B) && (dimH masks =? H) && (dimW masks =? W))%nat
  then exists y w',
      OutputBlock_call self x z_k masks training w = (Ok y, w') /\
      shape y = (B, H, W, 3%nat) /\
      (forall b i j c, -1 <= val y b i j c <= 1) /\
      rng w' = rng w /\ (training = false -> w' = w)
  else OutputBlock_call self x z_k masks training w = (Raise ShapeError, w).
Proof.
  intros Hx Hz.
  exact (OutputBlock_call_by_mask wt owner tag base_channels output_factor x z_k masks
                                  training w B H W n Hx Hz).
Qed.

(** The residual block returns exactly when the pool size is positive and
    the mask, pooled, has the batch size, height and width of the feature
    map; otherwise it raises a shape error.  The identity path has run by
    then: in training mode the state the failed call leaves is the one
    after the up-date of the 1x1 convolution of the identity path. *)
Theorem residual_block_by_mask
      (wt : Weights) (owner : Z)
      (tag base_channels input_factor output_factor mask_scale : nat)
      (x z_k masks : Tensor) (training : bool) (w : world) (B H W n : nat) :
  shape x = (B, H, W, (base_channels * input_factor)%nat) ->
  shape z_k = (B, 1%nat, 1%nat, n) ->
  let self := ResidualUpsamplingBlock_init wt owner tag base_channels input_factor
                                           output_factor mask_scale in
  exists idt w1,
    identity_path self x training w = (Ok idt, w1) /\
    if (negb (mask_scale =? 0) && (dimB masks =? B)
        && (pool_out (dimH masks) mask_scale =? H)
        && (pool_out (dimW masks) mask_scale =? W))%nat
    then exists y w',
        ResidualUpsamplingBlock_call self x z_k masks training w = (Ok y, w') /\
        shape y = (B, (2 * H)%nat, (2 * W)%nat, (base_channels * output_factor)%nat) /\
        rng w' = rng w
    else ResidualUpsamplingBlock_call self x z_k masks training w
         = (Raise ShapeError, w1).
Proof.
  intros Hx Hz.
  exact (ResidualUpsamplingBlock_call_by_mask wt owner tag base_channels input_factor
           output_factor mask_scale x z_k masks training w B H W n Hx Hz).
Qed.

Tactic Notation "residual_step" constr(wt) constr(k) constr(tag) constr(bc)
       constr(fin) constr(fout) constr(s) constr(x) constr(z_k) constr(mask)
       constr(training) constr(w) constr(B) constr(H) constr(n) constr(Hx) constr(Hz)
       ident(y) ident(w') ident(Ey) ident(Sy) :=
  let idt := fresh "identity" in
  let w1 := fresh "w_identity" in
  let Hcase := fresh "Hcase" in
  destruct (ResidualUpsamplingBlock_call_by_mask wt k tag bc fin fout s x z_k mask
              training w B H H n Hx Hz) as (idt & w1 & _ & Hcase);
  match type of Hcase with
  | if ?c then _ else _ =>
      destruct c;
      [ destruct Hcase as (y & w' & Ey & Sy & _); rewrite (bind_ok _ _ _ _ _ Ey)
      | exists w1; apply bind_raise; exact Hcase ]
  end.

(** The pool sizes 32, 16, 8, 4, 2 and the five doublings from 4x4 fix
    the resolution: on a mask that is not of the batch size and 128x128
    the redrawing path raises a shape error. *)
Lemma redraw_region_raise (wt : Weights) (k : Z) (bc : nat)
      (z_k mask : Tensor) (training : bool) (w : world) (B n : nat) :
  attention_keeps_shape E -> bc <> 0%nat ->
  shape z_k = (B, 1%nat, 1%nat, n) ->
  ((dimB mask =? B) && (dimH mask =? 128) && (dimW mask =? 128))%nat = false ->
  exists w',
    redraw_region (ClassGenerator_init wt k bc) z_k mask training w
    = (Raise ShapeError, w').
Proof.
  intros Ha Hbc Hz Hfit. unfold redraw_region.
  cbn [block_1 up_res_block_1 up_res_block_2 up_res_block_3 up_res_block_4
       block_3 block_4 block_5 ClassGenerator_init].
  pose proof (shape_inv _ _ _ _ _ Hz) as (Zb & Zh & Zw & Zc).
  destruct (InputBlock_call_ok wt 0 bc 16 z_k Zh Zw) as (x0 & E0 & S0); [lia|].
  rewrite (bind_lift_ok _ _ _ _ E0). rewrite Zb in S0.
  residual_step wt k 2%nat bc 16%nat 16%nat 32%nat x0 z_k mask training w B 4%nat n
                S0 Hz x1 w1 E1 S1.
  residual_step wt k 9%nat bc 16%nat 8%nat 16%nat x1 z_k mask training w1 B 8%nat n
                S1 Hz x2 w2 E2 S2.
  residual_step wt k 16%nat bc 8%nat 4%nat 8%nat x2 z_k mask training w2 B 16%nat n
                S2 Hz x3 w3 E3 S3.
  residual_step wt k 23%nat bc 4%nat 2%nat 4%nat x3 z_k mask training w3 B 32%nat n
                S3 Hz x4 w4 E4 S4.
  destruct (on_layers_attention_ok (SelfAttentionModule_init (2 * bc)) x4 training w4 Ha)
    as (xa & wa & Ea & Sa & Ra).
  rewrite (bind_ok _ _ _ _ _ Ea). rewrite S4 in Sa.
  residual_step wt k 30%nat bc 2%nat 1%nat 2%nat xa z_k mask training wa B 64%nat n
                Sa Hz x5 w5 E5 S5.
  pose proof (OutputBlock_call_by_mask wt k 37 bc 1 x5 z_k mask training w5
                                       B 128 128 n S5 Hz) as Hout.
  cbv zeta in Hout. rewrite Hfit in Hout.
  exists w5. exact Hout.
Qed.

End FixedResolution.

Section FixedResolutionCall.

Context {E : Collaborators}.

Lemma loop_prefix_without_own
      (redraw : Tensor -> Tensor -> bool -> M Tensor) (k_self : Z)
      (real logits z_k : Tensor) (training : bool) (B H W C n : nat)
      (w : world) (m : nat) :
  shape real = (B, H, W, C) -> shape logits = (B, H, W, n) ->
  (m <= n)%nat -> (forall k, (k < m)%nat -> own_class k_self k = false) ->
  exists fake,
    for_range (seq 0 m) (loop_body redraw k_self real logits z_k training)
              (mkLocals (tf.zeros (shape real)) None) w
    = (Ok (mkLocals fake None), w) /\
    shape fake = (B, H, W, C).
Proof.
  intros Hr Hl. induction m as [|m IH]; intros Hm Hno.
  - eexists. split; [reflexivity|]. rewrite Hr. reflexivity.
  - destruct IH as (fake & El & Sl); [lia|intros; apply Hno; lia|].
    destruct (loop_body_other redraw k_self real logits z_k training B H W C n Hr Hl
                              m (mkLocals fake None) w)
      as (fake' & Eb & Sb & _); [lia|apply Hno; lia|exact Sl|].
    exists fake'. rewrite seq_S. rewrite (for_range_snoc _ _ _ _ _ _ _ El).
    split; [exact Eb|exact Sb].
Qed.

(** When the redrawing path raises, so does the loop, in the turn of the
    generator's own class. *)
Lemma loop_raises_at_own
      (redraw : Tensor -> Tensor -> bool -> M Tensor) (k_self : Z)
      (real logits z_k : Tensor) (training : bool) (B H W C n : nat)
      (w w1 : world) (e : error) :
  shape real = (B, H, W, C) -> shape logits = (B, H, W, n) ->
  (0 <= k_self < Z.of_nat n)%Z ->
  redraw z_k (region_mask logits (Z.to_nat k_self)) training w = (Raise e, w1) ->
  for_range (seq 0 n) (loop_body redraw k_self real logits z_k training)
            (mkLocals (tf.zeros (shape real)) None) w
  = (Raise e, w1).
Proof.
  intros Hr Hl Hk Hred.
  set (s := Z.to_nat k_self) in *.
  assert (Hs : (s < n)%nat) by (unfold s; lia).
  replace n with (s + (n - s))%nat at 1 by lia.
  rewrite seq_app, for_range_app.
  destruct (loop_prefix_without_own redraw k_self real logits z_k training B H W C n
                                    w s Hr Hl) as (fake & El & Sl); [lia| |].
  { intros k Hks. unfold own_class. apply Z.eqb_neq. unfold s in *. lia. }
  rewrite (bind_ok _ _ _ _ _ El).
  replace (n - s)%nat with (S (n - s - 1)) by lia. cbn [seq for_range Nat.add].
  apply bind_raise. unfold loop_body.
  pose proof (shape_inv _ _ _ _ _ Hl) as (Lb & Lh & Lw & Lc).
  rewrite (bind_lift_ok _ _ _ _ (channel_softmax logits s ltac:(lia))).
  replace (Z.of_nat s =? k_self)%Z with true
    by (symmetry; apply Z.eqb_eq; unfold s; lia).
  apply bind_raise. exact Hred.
Qed.

(** The class generator works at one resolution only: on an image and
    logits of any height or width other than 128 the call raises a shape
    error, in the turn of its own class. *)
Theorem class_generator_fixed_resolution
        (wt : Weights) (k : Z) (bc : nat)
        (batch_images_real batch_masks_logits : Tensor) (n_input : nat)
        (training : bool) (w : world) (B H W C n : nat) :
  attention_keeps_shape E -> bc <> 0%nat ->
  shape batch_images_real = (B, H, W, C) ->
  shape batch_masks_logits = (B, H, W, n) ->
  (0 <= k < Z.of_nat n)%Z ->
  H <> 128%nat \/ W <> 128%nat ->
  exists w',
    ClassGenerator_call (ClassGenerator_init wt k bc) batch_images_real
                        batch_masks_logits n_input training w
    = (Raise ShapeError, w').
Proof.
  intros Ha Hbc Hr Hl Hk Hsize.
  pose proof (shape_inv _ _ _ _ _ Hl) as (Lb & Lh & Lw & Lc).
  destruct (redraw_region_raise wt k bc (noise_of w B n_input)
              (region_mask batch_masks_logits (Z.to_nat k)) training
              (after_draw w B n_input) B n_input Ha Hbc eq_refl)
    as (w' & Hred).
  { cbn [dimB dimH dimW region_mask]. rewrite Lb, Lh, Lw, Nat.eqb_refl.
    cbn [andb].
    destruct (Nat.eqb_spec H 128), (Nat.eqb_spec W 128); try reflexivity.
    destruct Hsize; contradiction. }
  exists w'. unfold ClassGenerator_call, ClassGenerator_call_with.
  rewrite Lb, Lc.
  rewrite (bind_ok _ _ _ _ _ (tf_random_normal_run w B n_input)).
  apply bind_raise.
  apply (loop_raises_at_own _ _ _ _ _ _ B H W C n _ _ _ Hr Hl Hk Hred).
Qed.

End FixedResolutionCall.

Lemma output_block_by_mask_witness :
  let self := OutputBlock_init (constant_weights 0 1) 0 37 1 1 in
  if ((dimB (full (1, 4, 4, 1)%nat 1) =? 1) && (dimH (full (1, 4, 4, 1)%nat 1) =? 4)
      && (dimW (full (1, 4, 4, 1)%nat 1) =? 4))%nat
  then exists y w',
      @OutputBlock_call plain_collaborators self (full (1, 4, 4, 1)%nat 2)
                        (full (1, 1, 1, 3)%nat 1) (full (1, 4, 4, 1)%nat 1) true
                        example_world = (Ok y, w') /\
      shape y = (1, 4, 4, 3)%nat /\
      (forall b i j c, -1 <= val y b i j c <= 1) /\
      rng w' = rng example_world /\ (true = false -> w' = example_world)
  else @OutputBlock_call plain_collaborators self (full (1, 4, 4, 1)%nat 2)
                         (full (1, 1, 1, 3)%nat 1) (full (1, 4, 4, 1)%nat 1) true
                         example_world = (Raise ShapeError, example_world).
Proof.
  apply (@output_block_by_mask plain_collaborators (constant_weights 0 1) 0 37 1 1
           (full (1, 4, 4, 1)%nat 2) (full (1, 1, 1, 3)%nat 1)
           (full (1, 4, 4, 1)%nat 1) true example_world 1 4 4 3).
  - reflexivity.
  - reflexivity.
Defined.

Lemma residual_block_by_mask_witness :
  let self := ResidualUpsamplingBlock_init (constant_weights 1 0) 0 2 1 16 8 32 in
  let masks := full (1, 100, 128, 1)%nat 1 in
  exists idt w1,
    @identity_path plain_collaborators self (full (1, 4, 4, 16)%nat 1) true
                   example_world = (Ok idt, w1) /\
    if (negb (32 =? 0) && (dimB masks =? 1)
        && (pool_out (dimH masks) 32 =? 4)
        && (pool_out (dimW masks) 32 =? 4))%nat
    then exists y w',
        ResidualUpsamplingBlock_call self (full (1, 4, 4, 16)%nat 1)
                                     (full (1, 1, 1, 2)%nat 1) masks true example_world
        = (Ok y, w') /\
        shape y = (1%nat, (2 * 4)%nat, (2 * 4)%nat, (1 * 8)%nat) /\
        rng w' = rng example_world
    else ResidualUpsamplingBlock_call self (full (1, 4, 4, 16)%nat 1)
                                      (full (1, 1, 1, 2)%nat 1) masks true example_world
         = (Raise ShapeError, w1).
Proof.
  apply (@residual_block_by_mask plain_collaborators (constant_weights 1 0) 0 2 1 16 8
           32 (full (1, 4, 4, 16)%nat 1) (full (1, 1, 1, 2)%nat 1)
           (full (1, 100, 128, 1)%nat 1) true example_world 1 4 4 2).
  - reflexivity.
  - reflexivity.
Defined.

Lemma class_generator_fixed_resolution_witness :
  exists w',
    @ClassGenerator_call plain_collaborators
      (ClassGenerator_init (constant_weights 0 1) 1 1) small_real small_logits 4 true
      example_world
    = (Raise ShapeError, w').
Proof.
  apply (@class_generator_fixed_resolution plain_collaborators (constant_weights 0 1)
           1 1 small_real small_logits 4 true example_world 1 2 2 3 2).
  - intros a x t s. exists x, s. split; reflexivity.
  - lia.
  - reflexivity.
  - reflexivity.
  - simpl. lia.
  - left. lia.
Defined.

(** * Further properties of the class generator and of the generator *)

Lemma sumR_select (n s : nat) (own : nat -> bool) (p : nat -> R) (a b : R) :
  (s < n)%nat -> (forall k, own k = true <-> k = s) ->
  sumR n (fun k => (if own k then a else b) * p k)
  = b * sumR n p + (a - b) * p s.
Proof.
  intros Hs Hown.
  assert (Hbelow : forall m, (m <= s)%nat ->
            sumR m (fun k => (if own k then a else b) * p k) = b * sumR m p).
  { intros m Hm. rewrite <- sumR_scal_l. apply sumR_ext. intros k Hk.
    destruct (own k) eqn:Ek; [|reflexivity].
    apply Hown in Ek. lia. }
  induction n as [|n IH]; [lia|]. cbn [sumR].
  destruct (Nat.eq_dec s n) as [->|Hne].
  - rewrite Hbelow by lia.
    replace (own n) with true by (symmetry; apply Hown; reflexivity). lra.
  - rewrite IH by lia.
    destruct (own n) eqn:En; [apply Hown in En; lia|]. lra.
Qed.

Section Mixture.

Context {E : Collaborators}.

(** At every pixel the fake image is the real image moved towards the
    redrawn region by the probability the mask gives to the class of the
    generator, a number between 0 and 1: it is the masked region plus the
    real image under the remaining probability.  The two identities are
    those of exact arithmetic, which float32 keeps up to rounding. *)
Theorem composite_is_a_mixture
        (wt : Weights) (k : Z) (bc : nat)
        (batch_images_real batch_masks_logits : Tensor) (n_input : nat)
        (training : bool) (w : world) (B n : nat) :
  attention_keeps_shape E -> bc <> 0%nat ->
  shape batch_images_real = (B, 128, 128, 3)%nat ->
  shape batch_masks_logits = (B, 128%nat, 128%nat, n) ->
  (0 <= k < Z.of_nat n)%Z ->
  let self := ClassGenerator_init wt k bc in
  let batch_masks_k := region_mask batch_masks_logits (Z.to_nat k) in
  exists raw w1 region fake z,
    redraw_region self (noise_of w B n_input) batch_masks_k training
                  (after_draw w B n_input) = (Ok raw, w1) /\
    ClassGenerator_call self batch_images_real batch_masks_logits n_input training w
    = (Ok (fake, region, z), w1) /\
    forall b i j c, (b < B)%nat -> (i < 128)%nat -> (j < 128)%nat -> (c < 3)%nat ->
      let p := val batch_masks_k b i j 0 in
      0 <= p <= 1 /\
      val fake b i j c
      = val batch_images_real b i j c
        + p * (val raw b i j c - val batch_images_real b i j c) /\
      val fake b i j c
      = val region b i j c + (1 - p) * val batch_images_real b i j c.
Proof.
  intros Ha Hbc Hr Hl Hk self batch_masks_k.
  destruct (ClassGenerator_call_ok wt k bc batch_images_real batch_masks_logits
                                   n_input training w B n Ha Hbc Hr Hl Hk)
    as (raw & w1 & region & fake & Ered & _ & Ecall & _ & Vf & _ & Vr & _).
  exists raw, w1, region, fake, (squeezed (noise_of w B n_input)).
  split; [exact Ered|]. split; [exact Ecall|].
  intros b i j c Hb Hi Hj Hc p.
  pose proof (shape_inv _ _ _ _ _ Hl) as (Lb & Lh & Lw & Lc).
  assert (Hn : (0 < dimC batch_masks_logits)%nat) by lia.
  assert (Hp : 0 <= p <= 1).
  { unfold p, batch_masks_k. cbn [val region_mask].
    apply Softmax3_range. lia. }
  assert (Hfake : val fake b i j c
                  = val batch_images_real b i j c
                    + p * (val raw b i j c - val batch_images_real b i j c)).
  { rewrite Vf by assumption. unfold composite_val.
    rewrite (sumR_select n (Z.to_nat k) (own_class k)
               (fun m => val (Softmax3 batch_masks_logits) b i j m)).
    - rewrite <- Lc, (Softmax3_sum batch_masks_logits b i j Hn).
      unfold p, batch_masks_k. cbn [val region_mask]. lra.
    - lia.
    - intros m. unfold own_class. rewrite Z.eqb_eq. lia. }
  split; [exact Hp|]. split; [exact Hfake|].
  rewrite Hfake, (Vr b i j c Hb Hi Hj Hc). fold batch_masks_k. fold p. lra.
Qed.

(** The region handed to the information-conservation network, the noise
    and the state a pass leaves do not depend on the real image: two
    calls that differ in the real image only return the same region and
    the same noise. *)
Theorem region_and_noise_ignore_the_real_image
        (wt : Weights) (k : Z) (bc : nat)
        (real real' batch_masks_logits : Tensor) (n_input : nat)
        (training : bool) (w : world) (B n : nat) :
  attention_keeps_shape E -> bc <> 0%nat ->
  shape real = (B, 128, 128, 3)%nat -> shape real' = (B, 128, 128, 3)%nat ->
  shape batch_masks_logits = (B, 128%nat, 128%nat, n) ->
  (0 <= k < Z.of_nat n)%Z ->
  let self := ClassGenerator_init wt k bc in
  exists fake fake' region z w1,
    ClassGenerator_call self real batch_masks_logits n_input training w
    = (Ok (fake, region, z), w1) /\
    ClassGenerator_call self real' batch_masks_logits n_input training w
    = (Ok (fake', region, z), w1).
Proof.
  intros Ha Hbc Hr Hr' Hl Hk self.
  destruct (ClassGenerator_call_ok wt k bc real batch_masks_logits
                                   n_input training w B n Ha Hbc Hr Hl Hk)
    as (raw & w1 & region & fake & Ered & Er & Ecall & _).
  destruct (ClassGenerator_call_ok wt k bc real' batch_masks_logits
                                   n_input training w B n Ha Hbc Hr' Hl Hk)
    as (raw' & w1' & region' & fake' & Ered' & Er' & Ecall' & _).
  assert (Hsame : raw' = raw /\ w1' = w1) by (split; congruence).
  destruct Hsame as [-> ->].
  assert (region' = region) by congruence. subst region'.
  exists fake, fake', region, (squeezed (noise_of w B n_input)), w1.
  split; [exact Ecall|exact Ecall'].
Qed.

(** Generator.call picks the class generator as Python indexes a list:
    an index from -n_classes up to n_classes - 1 is accepted, a negative
    one counts from the end, and the generator picked has that position
    as its class; any other index raises IndexError before anything is
    run. *)
Theorem generator_picks_by_list_index
        (wts : nat -> Weights) (n_classes n_in bc : nat)
        (batch_images_real batch_masks_logits : Tensor) (k : Z)
        (training : bool) (g : gen_world) :
  let self := Generator_init wts n_classes n_in bc in
  let position := Z.to_nat (if (k <? 0)%Z then (k + Z.of_nat n_classes)%Z else k) in
  if ((- Z.of_nat n_classes <=? k) && (k <? Z.of_nat n_classes))%Z
  then (position < n_classes)%nat /\
       list_index (class_generators self) k
       = Ok (ClassGenerator_init (wts position) (Z.of_nat position) bc) /\
       Generator_call self batch_images_real batch_masks_logits k false training g
       = Generator_call self batch_images_real batch_masks_logits
                        (Z.of_nat position) false training g
  else forall update_generator,
      Generator_call self batch_images_real batch_masks_logits k update_generator
                     training g = (Raise IndexError, g).
Proof.
  intros self position.
  destruct ((- Z.of_nat n_classes <=? k) && (k <? Z.of_nat n_classes))%Z eqn:Hin.
  - apply andb_prop in Hin as [Hlo Hhi].
    apply Z.leb_le in Hlo. apply Z.ltb_lt in Hhi.
    destruct (class_generators_index wts n_classes n_in bc k (conj Hlo Hhi))
      as [Hcg Hpos].
    fold position in Hcg, Hpos. split; [exact Hpos|]. split; [exact Hcg|].
    destruct (class_generators_index wts n_classes n_in bc (Z.of_nat position))
      as [Hcg' _]; [lia|].
    replace (Z.to_nat (if (Z.of_nat position <? 0)%Z
                       then (Z.of_nat position + Z.of_nat n_classes)%Z
                       else Z.of_nat position)) with position in Hcg'.
    2:{ destruct (Z.ltb_spec (Z.of_nat position) 0); lia. }
    unfold Generator_call.
    rewrite (bind_lift_ok _ _ _ _ Hcg), (bind_lift_ok _ _ _ _ Hcg'). reflexivity.
  - intros u. unfold Generator_call. apply bind_raise. unfold lift, list_index.
    cbn [class_generators self Generator_init]. rewrite length_map, length_seq.
    match goal with |- context [if ?c then _ else _] => replace c with false end;
      [reflexivity|].
    symmetry. apply andb_false_iff. apply andb_false_iff in Hin.
    destruct (Z.ltb_spec k 0).
    + destruct Hin as [Hin|Hin]; [left; apply Z.leb_gt in Hin; apply Z.leb_gt; lia
                                  |apply Z.ltb_ge in Hin; lia].
    + destruct Hin as [Hin|Hin]; [apply Z.leb_gt in Hin; lia
                                  |right; exact Hin].
Qed.

(** The logits must carry a channel for the class asked for: when they
    have fewer channels, the class generator finds no turn of its own and
    Generator.call raises the unbound-variable error, in either setting of
    update_generator, without calling the information-conservation
    network. *)
Theorem generator_needs_a_channel_for_the_class
        (wts : nat -> Weights) (n_classes n_in bc : nat)
        (batch_images_real batch_masks_logits : Tensor) (k : Z)
        (update_generator training : bool) (g : gen_world) (B H W C m : nat) :
  shape batch_images_real = (B, H, W, C) ->
  shape batch_masks_logits = (B, H, W, m) ->
  (Z.of_nat m <= k < Z.of_nat n_classes)%Z ->
  Generator_call (Generator_init wts n_classes n_in bc) batch_images_real
                 batch_masks_logits k update_generator training g
  = (Raise UnboundLocalError,
     mkGenWorld (after_draw (fwd g) B n_in) (info_calls g)).
Proof.
  intros Hr Hl Hk.
  destruct (class_generators_index wts n_classes n_in bc k) as [Hcg Hpos]; [lia|].
  replace (Z.to_nat (if (k <? 0)%Z then (k + Z.of_nat n_classes)%Z else k))
    with (Z.to_nat k) in Hcg by (destruct (Z.ltb_spec k 0); lia).
  unfold Generator_call. rewrite (bind_lift_ok _ _ _ _ Hcg).
  apply bind_raise. unfold forward, ClassGenerator_call.
  cbn [self_k ClassGenerator_init n_input Generator_init].
  rewrite (ClassGenerator_call_with_unbound _ _ _ _ _ _ _ B H W C m Hr Hl);
    [reflexivity|lia].
Qed.

End Mixture.

Lemma composite_is_a_mixture_witness :
  let self := ClassGenerator_init (constant_weights 0 1) 0 1 in
  let batch_masks_k := region_mask example_logits (Z.to_nat 0) in
  exists raw w1 region fake z,
    @redraw_region plain_collaborators self (noise_of example_world 1 4)
                   batch_masks_k true (after_draw example_world 1 4) = (Ok raw, w1) /\
    @ClassGenerator_call plain_collaborators self example_real example_logits 4 true
                         example_world
    = (Ok (fake, region, z), w1) /\
    forall b i j c, (b < 1)%nat -> (i < 128)%nat -> (j < 128)%nat -> (c < 3)%nat ->
      let p := val batch_masks_k b i j 0 in
      0 <= p <= 1 /\
      val fake b i j c
      = val example_real b i j c + p * (val raw b i j c - val example_real b i j c) /\
      val fake b i j c = val region b i j c + (1 - p) * val example_real b i j c.
Proof.
  apply (@composite_is_a_mixture plain_collaborators (constant_weights 0 1) 0 1
           example_real example_logits 4 true example_world 1 2).
  - intros a x t s. exists x, s. split; reflexivity.
  - lia.
  - reflexivity.
  - reflexivity.
  - simpl. lia.
Defined.

Lemma region_and_noise_ignore_the_real_image_witness :
  let self := ClassGenerator_init (constant_weights 0 1) 0 1 in
  exists fake fake' region z w1,
    @ClassGenerator_call plain_collaborators self example_real example_logits 4 true
                         example_world
    = (Ok (fake, region, z), w1) /\
    @ClassGenerator_call plain_collaborators self (full (1, 128, 128, 3)%nat 0)
                         example_logits 4 true example_world
    = (Ok (fake', region, z), w1).
Proof.
  apply (@region_and_noise_ignore_the_real_image plain_collaborators
           (constant_weights 0 1) 0 1 example_real (full (1, 128, 128, 3)%nat 0)
           example_logits 4 true example_world 1 2).
  - intros a x t s. exists x, s. split; reflexivity.
  - lia.
  - reflexivity.
  - reflexivity.
  - reflexivity.
  - simpl. lia.
Defined.

Lemma generator_needs_a_channel_for_the_class_witness :
  @Generator_call plain_collaborators
    (Generator_init (fun _ => constant_weights 0 1) 3 4 1)
    small_real small_logits 2 true true example_gen_world
  = (Raise UnboundLocalError,
     mkGenWorld (after_draw (fwd example_gen_world) 1 4)
                (info_calls example_gen_world)).
Proof.
  apply (@generator_needs_a_channel_for_the_class plain_collaborators
           (fun _ => constant_weights 0 1) 3 4 1 small_real small_logits 2 true true
           example_gen_world 1 2 2 3 2).
  - reflexivity.
  - reflexivity.
  - simpl. lia.
Defined.

(** ** The state a training pass leaves in a residual block *)

Section TrainingState.

Context {E : Collaborators}.

Lemma SpectralNormalization_call_training (sn : SpectralNormalization) (x : Tensor)
      (w : world) :
  SpectralNormalization_call sn x true w
  = (Ok (Conv2D_call
           (rescale (sn_layer sn)
                    (/ sigma_estimate (sn_layer sn) (dimC x)
                         (power_iteration (sn_layer sn) (dimC x)
                                          (layers w (sn_key sn))))) x),
     mkWorld (rng w)
             (store_set (layers w) (sn_key sn)
                        (power_iteration (sn_layer sn) (dimC x)
                                         (layers w (sn_key sn))))).
Proof. reflexivity. Qed.

Lemma key_eqb_tag (owner : Z) (t t' : nat) :
  t <> t' -> key_eqb (owner, t) (owner, t') = false.
Proof.
  intros Ht. unfold key_eqb. cbn [fst snd].
  rewrite Z.eqb_refl. cbn [andb]. apply Nat.eqb_neq. exact Ht.
Qed.

(** A training pass through a residual block advances the singular-vector
    estimate of each of its three wrapped convolutions by exactly one
    step, from the estimate the layer held before the pass, and leaves
    every other layer's estimate and the random generator as they were. *)
Theorem residual_block_training_state
      (wt : Weights) (owner : Z)
      (tag base_channels input_factor output_factor mask_scale : nat)
      (x z_k masks : Tensor) (w : world) (B H W n Hm Wm : nat) :
  let self := ResidualUpsamplingBlock_init wt owner tag base_channels input_factor
                                           output_factor mask_scale in
  let Cin := (base_channels * input_factor)%nat in
  let Cout := (base_channels * output_factor)%nat in
  shape x = (B, H, W, Cin) ->
  shape z_k = (B, 1%nat, 1%nat, n) ->
  shape masks = (B, Hm, Wm, 1%nat) ->
  mask_scale <> 0%nat -> pool_out Hm mask_scale = H -> pool_out Wm mask_scale = W ->
  exists y w',
    ResidualUpsamplingBlock_call self x z_k masks true w = (Ok y, w') /\
    rng w' = rng w /\
    layers w' (owner, tag)
    = power_iteration (sn_layer (process_identity self)) Cin (layers w (owner, tag)) /\
    layers w' (owner, tag + 3)%nat
    = power_iteration (sn_layer (conv_1 self)) (Cin + 1)
                      (layers w (owner, tag + 3)%nat) /\
    layers w' (owner, tag + 6)%nat
    = power_iteration (sn_layer (conv_2 self)) Cout (layers w (owner, tag + 6)%nat) /\
    forall key, key_eqb (owner, tag) key = false ->
                key_eqb (owner, tag + 3)%nat key = false ->
                key_eqb (owner, tag + 6)%nat key = false ->
                layers w' key = layers w key.
Proof.
  intros self Cin Cout Hx Hz Hm0 Hs Hph Hpw.
  apply shape_inv in Hx as (Xb & Xh & Xw & Xc).
  apply shape_inv in Hz as (Zb & Zh & Zw & Zc).
  apply shape_inv in Hm0 as (Mb & Mh & Mw & Mc).
  unfold ResidualUpsamplingBlock_call.
  rewrite (bind_ok _ _ _ _ _ (SpectralNormalization_call_training _ _ _)).
  destruct (ConditionalBatchNormalization_call_ok (cbn_1 self) x z_k)
    as (n1 & En1 & Sn1); try congruence; try (rewrite Xc; reflexivity).
  rewrite (bind_lift_ok _ _ _ _ En1).
  destruct (AveragePooling2D_ok (mask_pool self) masks Hs) as (pooled & Ep & Sp).
  rewrite (bind_lift_ok _ _ _ _ Ep).
  apply shape_inv in Sp as (Pb & Ph & Pw & Pc).
  apply shape_inv in Sn1 as (Nb & Nh & Nw & Nc).
  destruct (concat3_ok (ReLU n1) (tf.cast_float32 pooled)) as (cat & Ec & Sc);
    try (unfold tf.cast_float32; cbn [dimB dimH dimW ReLU mask_pool self
                                       ResidualUpsamplingBlock_init] in *; congruence).
  rewrite (bind_lift_ok _ _ _ _ Ec).
  apply shape_inv in Sc as (Cb & Ch & Cw & Cc).
  cbn [dimB dimH dimW dimC ReLU] in Cb, Ch, Cw, Cc. unfold tf.cast_float32 in Cc.
  rewrite (bind_ok _ _ _ _ _ (SpectralNormalization_call_training _ _ _)).
  match goal with
  | |- context [ConditionalBatchNormalization_call (cbn_2 self) ?c1 z_k] =>
      destruct (ConditionalBatchNormalization_call_ok (cbn_2 self) c1 z_k)
        as (n2 & En2 & Sn2);
      [cbn [dimB Conv2D_call UpSampling2D]; congruence|exact Zh|exact Zw
       |reflexivity|reflexivity|]
  end.
  rewrite (bind_lift_ok _ _ _ _ En2).
  rewrite (bind_ok _ _ _ _ _ (SpectralNormalization_call_training _ _ _)).
  apply shape_inv in Sn2 as (N2b & N2h & N2w & N2c).
  cbn [dimB dimH dimW dimC Conv2D_call UpSampling2D] in N2b, N2h, N2w, N2c.
  match goal with
  | |- context [tf.add ?a ?b] =>
      destruct (add_same_shape_ok a b) as (y & Ey & _);
      [apply shape_intro;
       cbn [dimB dimH dimW dimC Conv2D_call UpSampling2D ReLU]; try congruence;
       reflexivity|]
  end.
  unfold lift. rewrite Ey. eexists _, _. split; [reflexivity|].
  cbn [rng layers sn_key process_identity conv_1 conv_2 self
       ResidualUpsamplingBlock_init sn_layer].
  assert (K13 : key_eqb (owner, tag) (owner, tag + 3)%nat = false)
    by (apply key_eqb_tag; lia).
  assert (K16 : key_eqb (owner, tag) (owner, tag + 6)%nat = false)
    by (apply key_eqb_tag; lia).
  assert (K36 : key_eqb (owner, tag + 3)%nat (owner, tag + 6)%nat = false)
    by (apply key_eqb_tag; lia).
  assert (K31 : key_eqb (owner, tag + 3)%nat (owner, tag) = false)
    by (apply key_eqb_tag; lia).
  assert (K61 : key_eqb (owner, tag + 6)%nat (owner, tag) = false)
    by (apply key_eqb_tag; lia).
  assert (K63 : key_eqb (owner, tag + 6)%nat (owner, tag + 3)%nat = false)
    by (apply key_eqb_tag; lia).
  assert (Kr : forall t, key_eqb (owner, t) (owner, t) = true).
  { intros t. unfold key_eqb. cbn [fst snd]. rewrite Z.eqb_refl, Nat.eqb_refl.
    reflexivity. }
  split; [reflexivity|].
  unfold store_set.
  rewrite ?K13, ?K16, ?K36, ?K31, ?K61, ?K63, ?Kr.
  cbn [dimC UpSampling2D ReLU Conv2D_call].
  rewrite Xc, Cc, Nc, Pc, Mc, Xc, N2c.
  cbn [filters conv_of].
  repeat split.
  intros key H1 H3 H6. rewrite H1, H3, H6. reflexivity.
Qed.

End TrainingState.

Lemma residual_block_training_state_witness :
  let self := ResidualUpsamplingBlock_init (constant_weights 1 0) 0 2 1 16 8 32 in
  let x := full (1, 4, 4, 16)%nat 1 in
  let z_k := full (1, 1, 1, 2)%nat 1 in
  let masks := full (1, 128, 128, 1)%nat 1 in
  let Cin := (1 * 16)%nat in
  let Cout := (1 * 8)%nat in
  exists y w',
    @ResidualUpsamplingBlock_call plain_collaborators self x z_k masks true
                                  example_world = (Ok y, w') /\
    rng w' = rng example_world /\
    layers w' (0%Z, 2%nat)
    = @power_iteration plain_collaborators (sn_layer (process_identity self)) Cin
                       (layers example_world (0%Z, 2%nat)) /\
    layers w' (0%Z, (2 + 3)%nat)
    = @power_iteration plain_collaborators (sn_layer (conv_1 self)) (Cin + 1)
                       (layers example_world (0%Z, (2 + 3)%nat)) /\
    layers w' (0%Z, (2 + 6)%nat)
    = @power_iteration plain_collaborators (sn_layer (conv_2 self)) Cout
                       (layers example_world (0%Z, (2 + 6)%nat)) /\
    forall key, key_eqb (0%Z, 2%nat) key = false ->
                key_eqb (0%Z, (2 + 3)%nat) key = false ->
                key_eqb (0%Z, (2 + 6)%nat) key = false ->
                layers w' key = layers example_world key.
Proof.
  apply (@residual_block_training_state plain_collaborators (constant_weights 1 0)
           0 2 1 16 8 32 (full (1, 4, 4, 16)%nat 1) (full (1, 1, 1, 2)%nat 1)
           (full (1, 128, 128, 1)%nat 1) example_world 1 4 4 2 128 128).
  - reflexivity.
  - reflexivity.
  - reflexivity.
  - lia.
  - reflexivity.
  - reflexivity.
Defined.

(** * The script *)

Lemma fold_left_Rmin_spec (a : list R) (v : R) :
  (fold_left Rmin a v = v \/ In (fold_left Rmin a v) a) /\
  fold_left Rmin a v <= v /\
  forall u, In u a -> fold_left Rmin a v <= u.
Proof.
  revert v. induction a as [|x a IH]; intros v; cbn [fold_left In].
  - split; [left; reflexivity|]. split; [lra|]. intros u [].
  - destruct (IH (Rmin v x)) as (Hin & Hle & Hall).
    pose proof (Rmin_l v x). pose proof (Rmin_r v x).
    split; [|split].
    + destruct Hin as [Hin|Hin]; [|right; right; exact Hin].
      rewrite Hin. unfold Rmin. destruct (Rle_dec v x); [left|right; left]; reflexivity.
    + lra.
    + intros u [<-|Hu]; [lra|apply Hall; exact Hu].
Qed.

Lemma fold_left_Rmax_spec (a : list R) (v : R) :
  (fold_left Rmax a v = v \/ In (fold_left Rmax a v) a) /\
  v <= fold_left Rmax a v /\
  forall u, In u a -> u <= fold_left Rmax a v.
Proof.
  revert v. induction a as [|x a IH]; intros v; cbn [fold_left In].
  - split; [left; reflexivity|]. split; [lra|]. intros u [].
  - destruct (IH (Rmax v x)) as (Hin & Hle & Hall).
    pose proof (Rmax_l v x). pose proof (Rmax_r v x).
    split; [|split].
    + destruct Hin as [Hin|Hin]; [|right; right; exact Hin].
      rewrite Hin. unfold Rmax. destruct (Rle_dec v x); [right; left|left]; reflexivity.
    + lra.
    + intros u [<-|Hu]; [lra|apply Hall; exact Hu].
Qed.

Lemma np_min_spec (a : list R) (m : R) :
  np_min a = Some m -> In m a /\ forall u, In u a -> m <= u.
Proof.
  destruct a as [|v a]; [discriminate|]. cbn [np_min]. intros [= <-].
  destruct (fold_left_Rmin_spec a v) as (Hin & Hle & Hall).
  split.
  - destruct Hin as [->|Hin]; [left; reflexivity|right; exact Hin].
  - intros u [<-|Hu]; [exact Hle|apply Hall; exact Hu].
Qed.

Lemma np_max_spec (a : list R) (m : R) :
  np_max a = Some m -> In m a /\ forall u, In u a -> u <= m.
Proof.
  destruct a as [|v a]; [discriminate|]. cbn [np_max]. intros [= <-].
  destruct (fold_left_Rmax_spec a v) as (Hin & Hle & Hall).
  split.
  - destruct Hin as [->|Hin]; [left; reflexivity|right; exact Hin].
  - intros u [<-|Hu]; [exact Hle|apply Hall; exact Hu].
Qed.

(** The rescaling the script applies before it shows an image: when the
    image holds two different values, the result has as many elements,
    each is (v - min) / (max - min) and lies in [0, 1], and both 0 and 1
    occur. *)
Theorem rescale_for_display_unit_range (image : list R) (lo hi : R) :
  np_min image = Some lo -> np_max image = Some hi -> lo < hi ->
  rescale_for_display image = Some (map (fun v => (v - lo) / (hi - lo)) image) /\
  (forall v, In v (map (fun v => (v - lo) / (hi - lo)) image) -> 0 <= v <= 1) /\
  In 0 (map (fun v => (v - lo) / (hi - lo)) image) /\
  In 1 (map (fun v => (v - lo) / (hi - lo)) image).
Proof.
  intros Hlo Hhi Hlt.
  destruct (np_min_spec _ _ Hlo) as [Ilo Hmin].
  destruct (np_max_spec _ _ Hhi) as [Ihi Hmax].
  assert (Hpos : 0 < hi - lo) by lra.
  split; [|split; [|split]].
  - unfold rescale_for_display. rewrite Hlo.
    destruct image as [|v image]; [discriminate|].
    cbn [map np_max np_min].
    assert (Hshift_max : fold_left Rmax (map (fun v0 => v0 - lo) image) (v - lo)
                         = hi - lo).
    { cbn [np_max] in Hhi. injection Hhi as <-.
      clear. revert v. induction image as [|x image IH]; intros v; cbn [map fold_left].
      - reflexivity.
      - replace (Rmax (v - lo) (x - lo)) with (Rmax v x - lo).
        + apply IH.
        + unfold Rmax. destruct (Rle_dec v x), (Rle_dec (v - lo) (x - lo)); lra. }
    assert (Hshift_min : fold_left Rmin (map (fun v0 => v0 - lo) image) (v - lo) = 0).
    { cbn [np_min] in Hlo. injection Hlo as Hlo.
      assert (Hgen : forall v, fold_left Rmin (map (fun v0 => v0 - lo) image) (v - lo)
                               = fold_left Rmin image v - lo).
      { clear. induction image as [|x image IH]; intros v; cbn [map fold_left].
        - reflexivity.
        - replace (Rmin (v - lo) (x - lo)) with (Rmin v x - lo).
          + apply IH.
          + unfold Rmin. destruct (Rle_dec v x), (Rle_dec (v - lo) (x - lo)); lra. }
      rewrite Hgen, Hlo. lra. }
    rewrite Hshift_max, Hshift_min. f_equal.
    replace (hi - lo - 0) with (hi - lo) by lra.
    cbn [map]. f_equal. rewrite map_map. reflexivity.
  - intros v Hv. apply in_map_iff in Hv as (u & <- & Hu).
    pose proof (Hmin u Hu). pose proof (Hmax u Hu).
    split.
    + apply Rmult_le_pos; [lra|]. left. apply Rinv_0_lt_compat. exact Hpos.
    + apply (Rmult_le_reg_r (hi - lo)); [exact Hpos|].
      unfold Rdiv. rewrite Rmult_assoc, Rinv_l by lra. lra.
  - apply in_map_iff. exists lo. split; [|exact Ilo].
    unfold Rdiv. replace (lo - lo) with 0 by lra. lra.
  - apply in_map_iff. exists hi. split; [|exact Ihi].
    unfold Rdiv. apply Rinv_r. lra.
Qed.

Lemma rescale_for_display_unit_range_witness :
  rescale_for_display [3; 1; 5] = Some (map (fun v => (v - 1) / (5 - 1)) [3; 1; 5]) /\
  (forall v, In v (map (fun v => (v - 1) / (5 - 1)) [3; 1; 5]) -> 0 <= v <= 1) /\
  In 0 (map (fun v => (v - 1) / (5 - 1)) [3; 1; 5]) /\
  In 1 (map (fun v => (v - 1) / (5 - 1)) [3; 1; 5]).
Proof.
  apply (rescale_for_display_unit_range [3; 1; 5] 1 5).
  - cbn [np_min fold_left]. f_equal.
    unfold Rmin. repeat (destruct (Rle_dec _ _); try lra).
  - cbn [np_max fold_left]. f_equal.
    unfold Rmax. repeat (destruct (Rle_dec _ _); try lra).
  - lra.
Defined.


